(** * Beatmap generation core: a shallow embedding in Rocq

    This development embeds the beatmap-generation pipeline of the rhythm
    game (src/src/utils/beatmapGenerator.ts, patternMemory.ts,
    adaptivePatternMorphing.ts and the beatmap analyzer) and proves the
    properties stated for it.

    Numbers of the TypeScript code are modelled as rationals [Q] wherever the
    values stay finite; the beatmap analyzer, whose results depend on NaN and
    infinities, uses an explicit IEEE-style number type [num] (Module [JSNum]).
    Rounding of binary floating point is not modelled.  [Math.random()] is an
    oracle [rng : nat -> Q] read at an increasing counter. *)

From Stdlib Require Import String Ascii.
From Stdlib Require DecimalString.
From Stdlib Require Import QArith Qabs Qminmax Qround List Permutation Sorted
  Bool Lia Lqa ZArith Arith.
Import ListNotations.
Open Scope Q_scope.

(* ------------------------------------------------------------------ *)
(** ** Helpers for the JavaScript operators used by the code *)

(** [a < b] on numbers. *)
Definition qlt (a b : Q) : bool := negb (Qle_bool b a).
(** [a <= b] on numbers. *)
Definition qle (a b : Q) : bool := Qle_bool a b.

(** [xs.reduce((s, x) => s + x, 0)] *)
Definition sumQ (xs : list Q) : Q := fold_left Qplus xs 0.

(** A natural number (an array length or index) as a number. *)
Definition qnat (n : nat) : Q := inject_Z (Z.of_nat n).

(** [x || d] on a number: the default is taken when [x] is 0 (or NaN). *)
Definition or_num (x d : Q) : Q := if Qeq_bool x 0 then d else x.

(** [x || d] on an optional number ([undefined] is falsy, and so is 0). *)
Definition or_opt_num (x : option Q) (d : Q) : Q :=
  match x with Some v => or_num v d | None => d end.

(** Truthiness of an optional boolean field. *)
Definition truthy (b : option bool) : bool :=
  match b with Some true => true | _ => false end.

(** [Array.prototype.find] *)
Fixpoint find_first {A} (p : A -> bool) (l : list A) : option A :=
  match l with
  | [] => None
  | x :: r => if p x then Some x else find_first p r
  end.

(** [arr.map((x, i) => f(i, x))] *)
Fixpoint mapi_from {A B} (f : nat -> A -> B) (i : nat) (l : list A) : list B :=
  match l with
  | [] => []
  | x :: r => f i x :: mapi_from f (S i) r
  end.
Definition mapi {A B} (f : nat -> A -> B) (l : list A) : list B := mapi_from f 0 l.

(* ------------------------------------------------------------------ *)
(** ** Data model (audioAnalysis.ts, beatmapGenerator.ts) *)

Inductive BeatType := Kick | Snare | HiHat | Bass | MelodyBeat | HoldBeat.

(** [BeatData]: one detected onset of the audio analysis. *)
Record BeatData := mkBeatData {
  time : Q;
  intensity : Q;
  frequency : Q;
  btype : BeatType;
  bduration : option Q
}.

(** [AudioAnalysisResult] ([spectralCentroid] is never read by the
    generator and is left out). *)
Record AudioAnalysisResult := mkAnalysis {
  bpm : Q;
  beats : list BeatData;
  duration : Q;
  energy : list Q
}.

Inductive OnsetType := Drum | Accent | Melody.

(** [{ ...beat, type }]: a classified onset keeps every field of the beat
    and carries the role tag in place of the beat type. *)
Record Onset := mkOnset { o_beat : BeatData; o_type : OnsetType }.
Definition o_time (o : Onset) : Q := time (o_beat o).
Definition o_intensity (o : Onset) : Q := intensity (o_beat o).
Definition o_frequency (o : Onset) : Q := frequency (o_beat o).

Inductive PatternType :=
  Euclidean | Zigzag | Syncopated | Triplet | Sparse | Dense | Template.
Inductive SongSection := Intro | Verse | Chorus | Bridge | Outro.

Definition SongSection_eqb (a b : SongSection) : bool :=
  match a, b with
  | Intro, Intro | Verse, Verse | Chorus, Chorus | Bridge, Bridge
  | Outro, Outro => true
  | _, _ => false
  end.

(* ------------------------------------------------------------------ *)
(** ** Onset classifier: [detectMusicalOnsets] *)

Definition detectMusicalOnsets (rawBeats : list BeatData) : list Onset :=
  let drums := filter (fun b => qlt (frequency b) 250) rawBeats in
  let snare := filter (fun b => qle 150 (frequency b) && qlt (frequency b) 500) rawBeats in
  let melody := filter (fun b => qle 300 (frequency b) && qlt (frequency b) 3000) rawBeats in
  let accents := filter (fun b => qle 2000 (frequency b)) rawBeats in
  map (fun b => mkOnset b Drum) drums ++
  map (fun b => mkOnset b Drum) snare ++
  map (fun b => mkOnset b Melody) melody ++
  map (fun b => mkOnset b Accent) accents.

(* ------------------------------------------------------------------ *)
(** ** Bar segmenter: [segmentIntoBars] *)

Record Bar := mkBar {
  startTime : Q;
  endTime : Q;
  bar_onsets : list Onset;
  bar_energy : Q
}.

(** The bar length [(60 / bpm) * beatsPerBar].  For [bpm = 0] JavaScript
    gives [+Infinity], written [None] here. *)
Definition barDurationOf (bpm_ : Q) (beatsPerBar : Q) : option Q :=
  if Qeq_bool bpm_ 0 then None else Some ((60 / bpm_) * beatsPerBar).

(** One bar starting at [time]. *)
Definition makeBar (onsets : list Onset) (bd : option Q) (totalDuration time : Q) : Bar :=
  let barOnsets :=
    filter (fun o => qle time (o_time o) &&
                     match bd with
                     | Some d => qlt (o_time o) (time + d)
                     | None => true
                     end) onsets in
  let energy_ := sumQ (map o_intensity barOnsets) / Qmax 1 (qnat (length barOnsets)) in
  mkBar time
        (match bd with Some d => Qmin (time + d) totalDuration | None => totalDuration end)
        barOnsets energy_.

(** [for (let time = 0; time < totalDuration; time += barDuration)]: the
    loop with a fuel bound; [None] means the fuel ran out before the loop
    condition failed. *)
Fixpoint bars_loop (fuel : nat) (onsets : list Onset) (bd : option Q)
    (totalDuration time : Q) : option (list Bar) :=
  match fuel with
  | O => None
  | S f =>
      if qlt time totalDuration then
        let bar := makeBar onsets bd totalDuration time in
        match bd with
        | None => Some [bar]      (* time becomes +Infinity: the loop stops *)
        | Some d =>
            match bars_loop f onsets bd totalDuration (time + d) with
            | Some rest => Some (bar :: rest)
            | None => None
            end
        end
      else Some []
  end.

Definition beatsPerBar : Q := 4.

Definition segmentIntoBars (fuel : nat) (a : AudioAnalysisResult)
    (onsets : list Onset) : option (list Bar) :=
  bars_loop fuel onsets (barDurationOf (bpm a) beatsPerBar) (duration a) 0.

(* ------------------------------------------------------------------ *)
(** ** Song structure analyzer: [analyzeSongStructure] *)

Record Section := mkSection {
  s_start : Q;
  s_end : Q;
  s_type : SongSection;
  s_energy : Q
}.

(** [determineSectionType] *)
Definition determineSectionType (energy_ timePosition totalDuration : Q)
    (sectionIndex : nat) : SongSection :=
  let progressRatio := timePosition / totalDuration in
  if qlt progressRatio 0.15 then Intro
  else if qlt 0.85 progressRatio then Outro
  else if qlt 0.75 energy_ then Chorus
  else if qlt energy_ 0.35 then Bridge
  else Verse.

(** [energy.slice(i, i + w).reduce((s, e) => s + e, 0) / w] *)
Definition windowMean (energy_ : list Q) (i w : nat) : Q :=
  sumQ (firstn w (skipn i energy_)) / qnat w.

Definition energyThreshold : Q := 0.15.

Record StructState := mkSS {
  ss_sections : list Section;
  ss_start : Q;
  ss_type : SongSection;
  ss_lastEnergy : Q
}.

(** One iteration of the boundary-detection loop at index [i]. *)
Definition structure_step (energy_ : list Q) (duration_ : Q) (w i : nat)
    (st : StructState) : StructState :=
  let currentEnergy := windowMean energy_ i w in
  let energyChange := Qabs (currentEnergy - ss_lastEnergy st) in
  let timePosition := (qnat i / qnat (length energy_)) * duration_ in
  if qlt energyThreshold energyChange then
    let sections := ss_sections st ++
        [mkSection (ss_start st) timePosition (ss_type st) (ss_lastEnergy st)] in
    mkSS sections timePosition
         (determineSectionType currentEnergy timePosition duration_ (length sections))
         currentEnergy
  else st.

(** [for (let i = w; i < energy.length - w; i += w)].  The index grows by
    [w >= 10] each time, so [length energy] rounds of fuel never run out. *)
Fixpoint structure_loop (fuel : nat) (energy_ : list Q) (duration_ : Q)
    (w i : nat) (st : StructState) : StructState :=
  match fuel with
  | O => st
  | S f =>
      if Nat.ltb i (length energy_ - w) then
        structure_loop f energy_ duration_ w (i + w)
          (structure_step energy_ duration_ w i st)
      else st
  end.

Definition analyzeSongStructure (duration_ : Q) (energy_ : list Q) : list Section :=
  let w := Nat.max 10 (length energy_ / 20) in
  let st0 := mkSS [] 0 Intro (windowMean energy_ 0 w) in
  let st := structure_loop (length energy_) energy_ duration_ w w st0 in
  ss_sections st ++
    [mkSection (ss_start st) duration_
       (if qlt (duration_ - ss_start st) 20 then Outro else ss_type st)
       (ss_lastEnergy st)].

(** Bar windows and section windows as intervals. *)
Definition bar_window (b : Bar) : Q * Q := (startTime b, endTime b).
Definition section_window (s : Section) : Q * Q := (s_start s, s_end s).

(** [chain a l b]: the intervals of [l] follow each other from [a] to [b],
    each non-empty, each one starting where the previous one ends. *)
Fixpoint chain (a : Q) (l : list (Q * Q)) (b : Q) : Prop :=
  match l with
  | [] => a == b
  | (s, e) :: rest => s == a /\ s < e /\ chain e rest b
  end.

(** A partition of [[a, b]] into consecutive non-empty intervals. *)
Definition partitions (a b : Q) (l : list (Q * Q)) : Prop := l <> [] /\ chain a l b.

(* ------------------------------------------------------------------ *)
(** ** Enhanced beat events (beatmapGenerator.ts) *)

(** [EnhancedBeatData]: the output unit, a [BeatData] with lane, pattern
    and section metadata; the optional fields are [option]s. *)
Record EnhancedBeatData := mkEB {
  eb_time : Q;
  eb_intensity : Q;
  eb_frequency : Q;
  eb_type : BeatType;
  eb_duration : option Q;
  lane : Z;
  pattern : PatternType;
  section : SongSection;
  isAccent : option bool;
  isHold : option bool;
  holdDuration : option Q;
  templateName : option String.string;
  barIndex : option nat
}.

(** [{ ...beat, time }] and the other one-field spreads used by the code. *)
Definition set_time (b : EnhancedBeatData) (t : Q) : EnhancedBeatData :=
  mkEB t (eb_intensity b) (eb_frequency b) (eb_type b) (eb_duration b) (lane b)
       (pattern b) (section b) (isAccent b) (isHold b) (holdDuration b)
       (templateName b) (barIndex b).
Definition set_lane (b : EnhancedBeatData) (l : Z) : EnhancedBeatData :=
  mkEB (eb_time b) (eb_intensity b) (eb_frequency b) (eb_type b) (eb_duration b) l
       (pattern b) (section b) (isAccent b) (isHold b) (holdDuration b)
       (templateName b) (barIndex b).
Definition set_hold (b : EnhancedBeatData) (h : option bool) (d : option Q)
    (tn : option String.string) : EnhancedBeatData :=
  mkEB (eb_time b) (eb_intensity b) (eb_frequency b) (eb_type b) (eb_duration b)
       (lane b) (pattern b) (section b) (isAccent b) h d tn (barIndex b).

(** JavaScript's [%] on integers truncates, like [Z.rem]. *)
Definition js_mod (a b : Z) : Z := Z.rem a b.

(** [arr.sort((a, b) => key(a) - key(b))]: Array.prototype.sort is stable,
    and a stable sort under a consistent comparator has a unique result,
    the one of this insertion sort. *)
Fixpoint insert_by {A} (key : A -> Q) (x : A) (l : list A) : list A :=
  match l with
  | [] => [x]
  | y :: r => if qlt (key x) (key y) then x :: y :: r else y :: insert_by key x r
  end.
Definition sort_by {A} (key : A -> Q) (l : list A) : list A :=
  fold_left (fun acc x => insert_by key x acc) l [].

(* ------------------------------------------------------------------ *)
(** ** Pattern memory (patternMemory.ts) *)

Definition Z_to_string (z : Z) : String.string :=
  DecimalString.NilZero.string_of_int (Z.to_int z).

Definition pattern_to_string (p : PatternType) : String.string :=
  match p with
  | Euclidean => "euclidean" | Zigzag => "zigzag" | Syncopated => "syncopated"
  | Triplet => "triplet" | Sparse => "sparse" | Dense => "dense"
  | Template => "template"
  end%string.

(** [`${beat.lane}-${beat.pattern}-${beat.isHold ? 'H' : 'T'}`] *)
Definition beat_key (b : EnhancedBeatData) : String.string :=
  (Z_to_string (lane b) ++ "-" ++ pattern_to_string (pattern b) ++ "-" ++
   (if truthy (isHold b) then "H" else "T"))%string.

Record PatternNGram := mkNGram {
  sequence : String.string;
  pfrequency : Z;
  lastUsed : Z;
  ctx_section : SongSection;
  ctx_energy : Q
  (* context.timestamp = Date.now() is never read and is left out *)
}.

Record PatternMemoryConfig := mkPMConfig {
  maxHistorySize : Z;
  minRepetitionDistance : Z;
  ngramSize : nat;
  diversityThreshold : Q
}.

Record PatternMemory := mkPM {
  patternHistory : list PatternNGram;
  beatCounter : Z;
  pm_config : PatternMemoryConfig
}.

(** The configuration the generator builds:
    [{ minRepetitionDistance: 16, diversityThreshold: 0.75 }] over the
    defaults [maxHistorySize: 200, ngramSize: 4]. *)
Definition generatorMemoryConfig : PatternMemoryConfig := mkPMConfig 200 16 4 0.75.

(** [createSequenceKey] *)
Definition createSequenceKey (cfg : PatternMemoryConfig) (bs : list EnhancedBeatData)
    : String.string :=
  String.concat "|" (map beat_key (firstn (ngramSize cfg) bs)).

(** [wouldBeRepetitive] *)
Definition wouldBeRepetitive (m : PatternMemory) (bs : list EnhancedBeatData) : bool :=
  let cfg := pm_config m in
  if Nat.ltb (List.length bs) (ngramSize cfg) then false
  else
    let seq := createSequenceKey cfg bs in
    match find_first (fun p => String.eqb (sequence p) seq) (patternHistory m) with
    | None => false
    | Some p =>
        let distanceSinceLastUse := (beatCounter m - lastUsed p)%Z in
        let isTooClose := Z.ltb distanceSinceLastUse (minRepetitionDistance cfg) in
        let isTooFrequent := Z.ltb 3 (pfrequency p) in
        isTooClose || isTooFrequent
    end.

(** [existingPattern.frequency++; existingPattern.lastUsed = beatCounter] on
    the first record with the key. *)
Fixpoint bump_first (seq : String.string) (counter : Z) (l : list PatternNGram)
    : list PatternNGram :=
  match l with
  | [] => []
  | p :: r =>
      if String.eqb (sequence p) seq
      then mkNGram (sequence p) (pfrequency p + 1) counter (ctx_section p) (ctx_energy p) :: r
      else p :: bump_first seq counter r
  end.

(** [arr.slice(k)] and [arr.slice(0, k)] for an integer [k]: a negative
    [k] counts from the end. *)
Definition slice_index (len : nat) (k : Z) : nat :=
  if Z.ltb k 0 then Z.to_nat (Z.max 0 (Z.of_nat len + k)) else Nat.min (Z.to_nat k) len.
Definition js_slice_from {A} (l : list A) (k : Z) : list A :=
  skipn (slice_index (List.length l) k) l.
Definition js_slice_to {A} (l : list A) (k : Z) : list A :=
  firstn (slice_index (List.length l) k) l.

(** The conversion [slice] applies to a fractional index
    (ToIntegerOrInfinity): truncation toward zero. *)
Definition js_trunc (x : Q) : Z :=
  if qlt x 0 then (- Qfloor (- x))%Z else Qfloor x.

(** [pruneHistory]: a stable sort by score, then
    [slice(-maxHistorySize * 0.8)]. *)
Definition pruneHistory (m : PatternMemory) : PatternMemory :=
  let cfg := pm_config m in
  if Z.ltb (maxHistorySize cfg) (Z.of_nat (List.length (patternHistory m))) then
    let score p := inject_Z (pfrequency p) + inject_Z (beatCounter m - lastUsed p) * 0.1 in
    let sorted := sort_by score (patternHistory m) in
    mkPM (js_slice_from sorted (js_trunc (inject_Z (- maxHistorySize cfg) * 0.8)))
      (beatCounter m) cfg
  else m.

(** [recordPattern] *)
Definition recordPattern (m : PatternMemory) (bs : list EnhancedBeatData)
    (sec : SongSection) (en : Q) : PatternMemory :=
  let cfg := pm_config m in
  if Nat.ltb (List.length bs) (ngramSize cfg) then m
  else
    let seq := createSequenceKey cfg bs in
    let hist :=
      match find_first (fun p => String.eqb (sequence p) seq) (patternHistory m) with
      | Some _ => bump_first seq (beatCounter m) (patternHistory m)
      | None => patternHistory m ++ [mkNGram seq 1 (beatCounter m) sec en]
      end in
    pruneHistory (mkPM hist (beatCounter m + Z.of_nat (List.length bs)) cfg).

(** [reset] *)
Definition resetMemory (m : PatternMemory) : PatternMemory := mkPM [] 0 (pm_config m).

(* ------------------------------------------------------------------ *)
(** ** Adaptive morpher (adaptivePatternMorphing.ts) *)

Record MorphingConfig := mkMorphCfg {
  rhythmicVariance : Q;
  spatialRotation : bool;
  densityBursts : bool;
  holdVariations : bool;
  laneChoreography : bool
}.

(** [applyRhythmicVariance]: one [Math.random()] draw per beat, read from
    [rng] at the counter [r]; returns the new counter. *)
Fixpoint jitter_beats (rng : nat -> Q) (var : Q) (r : nat)
    (bs : list EnhancedBeatData) : list EnhancedBeatData * nat :=
  match bs with
  | [] => ([], r)
  | b :: rest =>
      let b' := set_time b (eb_time b + (rng r - 0.5) * (var / 1000)) in
      let '(rest', r') := jitter_beats rng var (S r) rest in
      (b' :: rest', r')
  end.

Definition applyRhythmicVariance (cfg : MorphingConfig) (rng : nat -> Q) (r : nat)
    (bs : list EnhancedBeatData) : list EnhancedBeatData * nat :=
  if Qeq_bool (rhythmicVariance cfg) 0 then (bs, r)
  else jitter_beats rng (rhythmicVariance cfg) r bs.

(** [applyHoldVariations] *)
Definition applyHoldVariations (cfg : MorphingConfig) (bs : list EnhancedBeatData)
    : list EnhancedBeatData :=
  if negb (holdVariations cfg) then bs
  else
    mapi (fun index beat =>
      if truthy (isHold beat) then
        let baseHoldDuration := or_opt_num (holdDuration beat) 0.5 in
        let newHoldDuration :=
          match section beat with
          | Chorus | Bridge => baseHoldDuration * 1.2
          | _ => baseHoldDuration
          end in
        let hasReleasePattern :=
          Nat.ltb index (List.length bs - 1) &&
          match nth_error bs (S index) with
          | Some nxt => qlt (eb_time nxt - eb_time beat) (newHoldDuration + 0.1)
          | None => false
          end in
        set_hold beat (isHold beat) (Some (Qmin newHoldDuration 2))
          (if hasReleasePattern then Some "complex-hold"%string else templateName beat)
      else beat) bs.

(* ------------------------------------------------------------------ *)
(** ** Anti-repetition step of the generator's bar loop *)

(** [applyAntiRepetitionVariations] *)
Definition applyAntiRepetitionVariations (bs : list EnhancedBeatData)
    (sec : SongSection) : list EnhancedBeatData :=
  map (fun beat => set_lane beat (js_mod (lane beat + 1) 4)) bs.

(** [if (this.patternMemory.wouldBeRepetitive(barBeats))
       barBeats = this.applyAntiRepetitionVariations(barBeats, section)] *)
Definition antiRepetitionStep (m : PatternMemory) (barBeats : list EnhancedBeatData)
    (sec : SongSection) : list EnhancedBeatData :=
  if wouldBeRepetitive m barBeats then applyAntiRepetitionVariations barBeats sec
  else barBeats.

(* ------------------------------------------------------------------ *)
(** ** Pattern template library *)

Record PatternTemplate := mkTemplate {
  t_name : string;
  t_steps : list Z;
  t_duration : Q;
  t_holdSteps : option (list nat);
  t_complexity : Z
}.

Definition PATTERN_TEMPLATES : list PatternTemplate := [
  mkTemplate "IntroGentle" [1; 2]%Z 4 None 1;
  mkTemplate "WarmUp" [0; 3; 1]%Z 3 None 1;
  mkTemplate "LeftRightLeft" [0; 3; 0; 3; 3; 0]%Z 3 None 2;
  mkTemplate "SteadyBeat" [1; 2; 1; 2]%Z 2 None 2;
  mkTemplate "UpDownFlow" [1; 2; 1; 2; 1]%Z 2.5 None 2;
  mkTemplate "CrossPattern" [0; 2; 3; 1]%Z 2 None 2;
  mkTemplate "ChorusBlast" [0; 3; 1; 2; 0; 3; 1; 2]%Z 2 None 4;
  mkTemplate "PowerFlow" [0; 1; 3; 2; 3; 1; 0; 2]%Z 2 None 4;
  mkTemplate "EnergyWave" [0; 1; 2; 3; 3; 2; 1; 0]%Z 2 None 4;
  mkTemplate "IntenseRush" [0; 2; 1; 3; 0; 2; 1; 3]%Z 1.5 None 5;
  mkTemplate "BridgeFlow" [1; 0; 2; 3; 2; 0]%Z 3 None 3;
  mkTemplate "Transition" [0; 1; 3; 2; 1]%Z 2.5 None 3;
  mkTemplate "Syncopated" [0; 1; 3; 2; 1]%Z 2.5 None 3;
  mkTemplate "SustainedMelody" [0; 1; 2; 3]%Z 4 (Some [1]%nat) 2;
  mkTemplate "MelodyHold" [0; 1; 2]%Z 3 (Some [2]%nat) 2;
  mkTemplate "PowerHold" [0; 1; 2; 3]%Z 4 (Some [3]%nat) 3;
  mkTemplate "FlowingHold" [1; 3; 0; 2]%Z 3 (Some [1; 3]%nat) 3;
  mkTemplate "LeftMelody" [0; 2; 3; 1]%Z 4 (Some [0]%nat) 2;
  mkTemplate "RightMelody" [3; 1; 0; 2]%Z 4 (Some [3]%nat) 2;
  mkTemplate "AlternatingHolds" [0; 3; 1; 2]%Z 3 (Some [0; 2]%nat) 2;
  mkTemplate "CrossHold" [0; 2; 1; 3]%Z 3 (Some [1; 3]%nat) 3;
  mkTemplate "ZigzagHold" [0; 3; 0; 3; 1; 2]%Z 3 (Some [0; 3]%nat) 3;
  mkTemplate "LeftRightCombo" [0; 0; 3; 3; 1; 2]%Z 2.5 (Some [1; 4]%nat) 4;
  mkTemplate "UpDownFlow" [1; 2; 1; 2; 0; 3]%Z 3 (Some [0; 3]%nat) 3;
  mkTemplate "DiagonalSweep" [0; 1; 2; 3; 2; 1]%Z 3 (Some [2; 5]%nat) 4;
  mkTemplate "RepeatingLeft" [0; 0; 0; 1; 2; 0]%Z 2 (Some [0; 2]%nat) 3;
  mkTemplate "RepeatingRight" [3; 3; 3; 2; 1; 3]%Z 2 (Some [0; 2]%nat) 3;
  mkTemplate "MixedPattern" [0; 3; 1; 2; 0; 3]%Z 2.5 (Some [1; 4]%nat) 4;
  mkTemplate "TripletFlow" [0; 2; 1; 0; 2; 1]%Z 2 None 3;
  mkTemplate "TripletWave" [1; 3; 0; 2; 1; 3]%Z 2 None 3;
  mkTemplate "OutroFade" [1; 0; 2]%Z 4 None 1;
  mkTemplate "Finale" [0; 1; 2; 3]%Z 6 (Some [3]%nat) 2
].

(** [toLowerCase] on ASCII text. *)
Definition ascii_lower (c : ascii) : ascii :=
  let n := nat_of_ascii c in
  if (65 <=? n)%nat && (n <=? 90)%nat then ascii_of_nat (n + 32) else c.
Fixpoint lower (s : string) : string :=
  match s with
  | EmptyString => EmptyString
  | String c r => String (ascii_lower c) (lower r)
  end.

(** [s.includes(sub)] *)
Definition includes (s sub : string) : bool :=
  match index 0 sub s with Some _ => true | None => false end.

(** The per-section filter of [selectNewTemplateForSection]. *)
Definition section_filter (sec : SongSection) (t : PatternTemplate) : bool :=
  let n := lower (t_name t) in
  let c := t_complexity t in
  match sec with
  | Intro => includes n "intro" || includes n "warmup" || (c <=? 2)%Z
  | Outro => includes n "outro" || includes n "finale" || includes n "fade" || (c <=? 2)%Z
  | Chorus => includes n "chorus" || includes n "power" || includes n "energy" ||
              includes n "intense" || (3 <=? c)%Z
  | Bridge => includes n "bridge" || includes n "transition" || includes n "syncopated" ||
              ((2 <=? c) && (c <=? 4))%Z
  | Verse => includes n "steady" || includes n "flow" || includes n "cross" ||
             includes n "leftright" || ((2 <=? c) && (c <=? 3))%Z
  end.

Definition has_holds (t : PatternTemplate) : bool :=
  match t_holdSteps t with Some hs => Nat.ltb 0 (List.length hs) | None => false end.

Definition default_template : PatternTemplate := mkTemplate "IntroGentle" [1; 2]%Z 4 None 1.

(** [selectNewTemplateForSection]: returns the template and the advanced
    rotation index. *)
Definition selectNewTemplateForSection (sec : SongSection) (energy_ : Q) (rot : nat)
    : PatternTemplate * nat :=
  let sectionTemplates := filter (section_filter sec) PATTERN_TEMPLATES in
  let withHolds := filter has_holds sectionTemplates in
  let energyFiltered :=
    if qlt 0.6 energy_
    then (if Nat.ltb 0 (List.length withHolds) then withHolds else sectionTemplates)
    else sectionTemplates in
  let available :=
    if Nat.ltb 0 (List.length energyFiltered) then energyFiltered
    else filter (fun t => (t_complexity t <=? 3)%Z) PATTERN_TEMPLATES in
  (nth (rot mod List.length available) available default_template, S rot).

(* ------------------------------------------------------------------ *)
(** ** Template-based bar pattern: [generateTemplateBasedPattern] *)

(** [findNearestOnset] *)
Definition findNearestOnset (onsets : list Onset) (targetTime tolerance : Q) : option Onset :=
  fst (fold_left (fun acc o =>
         let distance := Qabs (o_time o - targetTime) in
         if qlt distance (snd acc) then (Some o, distance) else acc)
       onsets (None, tolerance)).

(** [findSustainedOnsets] *)
Definition findSustainedOnsets (onsets : list Onset) (targetTime tolerance : Q) : list Onset :=
  filter (fun o => qle (Qabs (o_time o - targetTime)) tolerance &&
                   match o_type o with Melody => true | _ => false end &&
                   qlt 0.6 (o_intensity o)) onsets.

(** The [onsets.reduce] nearest-onset search of [getFrequencyForOnset] and
    [getIntensityForOnset], from [onsets[0] || { time: targetTime,
    intensity: 0.5, frequency: 440 }]; as (time, intensity, frequency). *)
Definition nearestTIF (onsets : list Onset) (targetTime : Q) : Q * Q * Q :=
  let init := match onsets with
              | o :: _ => (o_time o, o_intensity o, o_frequency o)
              | [] => (targetTime, 0.5, 440)
              end in
  fold_left (fun closest o =>
      let '(ct, _, _) := closest in
      if qlt (Qabs (o_time o - targetTime)) (Qabs (ct - targetTime))
      then (o_time o, o_intensity o, o_frequency o) else closest)
    onsets init.

Definition getFrequencyForOnset (onsets : list Onset) (t : Q) : Q :=
  let '(_, _, f) := nearestTIF onsets t in f.
Definition getIntensityForOnset (onsets : list Onset) (t : Q) : Q :=
  let '(_, i, _) := nearestTIF onsets t in i.

Definition getBeatTypeForSection (sec : SongSection) : BeatType :=
  match sec with Chorus => Kick | Bridge => Snare | _ => Kick end.

(** The body of [template.steps.forEach] for one step of one repeat. *)
Definition templateStep (template : PatternTemplate) (bar : Bar) (sec : SongSection)
    (barIdx : nat) (repeatCount : Z) (rep : nat) (stepIndex : nat) (ln : Z)
    : option EnhancedBeatData :=
  let barDuration := endTime bar - startTime bar in
  let stepsPerPattern := List.length (t_steps template) in
  let patternProgress := qnat stepIndex / qnat stepsPerPattern in
  let repeatProgress := qnat rep / inject_Z repeatCount in
  let totalProgress := repeatProgress + patternProgress / inject_Z repeatCount in
  let time0 := startTime bar + totalProgress * barDuration in
  let nearestOnset := findNearestOnset (bar_onsets bar) time0 0.15 in
  let t := match nearestOnset with Some o => o_time o | None => time0 end in
  if qlt t (endTime bar) then
    let isHoldStep :=
      match t_holdSteps template with
      | Some hs => existsb (Nat.eqb stepIndex) hs
      | None => false
      end in
    let nextStepTime :=
      if Nat.ltb (stepIndex + 1) stepsPerPattern
      then startTime bar + ((repeatProgress +
             (qnat (stepIndex + 1) / qnat stepsPerPattern / inject_Z repeatCount)) * barDuration)
      else endTime bar in
    let hd :=
      if isHoldStep then
        let sustainedOnsets := findSustainedOnsets (bar_onsets bar) t 0.3 in
        if Nat.ltb 0 (List.length sustainedOnsets) then
          Some (Qmin (Qmin (fold_left (fun mx o => Qmax mx (o_intensity o * 2)) sustainedOnsets 0.5)
                           (barDuration - (t - startTime bar))) 3)
        else
          let baseHoldDuration := (nextStepTime - t) * 1.2 in
          let energyMultiplier := 0.8 + bar_energy bar * 0.6 in
          Some (Qmin (baseHoldDuration * energyMultiplier) (barDuration - (t - startTime bar)))
      else None in
    let finalLane :=
      if isHoldStep && Nat.ltb 0 rep then
        nth (rep mod 4) (match sec with Chorus => [0; 2; 1; 3] | _ => [1; 3; 0; 2] end)%Z 0%Z
      else ln in
    let inten := match nearestOnset with
                 | Some o => o_intensity o
                 | None => getIntensityForOnset (bar_onsets bar) t
                 end in
    Some (mkEB t inten (getFrequencyForOnset (bar_onsets bar) t) (getBeatTypeForSection sec)
           None finalLane Template sec
           (Some (Nat.eqb stepIndex 0 || qlt 0.8 inten))
           (Some isHoldStep) hd (Some (t_name template)) (Some barIdx))
  else None.

(** [generateTemplateBasedPattern] with the current template already
    chosen ([beatDuration] is computed there but never read). *)
Definition generateTemplateBasedPattern (template : PatternTemplate) (bar : Bar)
    (sec : SongSection) (barIdx : nat) : list EnhancedBeatData :=
  let repeatCount := Z.max 1 (Qfloor (beatsPerBar / t_duration template)) in
  flat_map (fun rep =>
      flat_map (fun '(stepIndex, ln) =>
          match templateStep template bar sec barIdx repeatCount rep stepIndex ln with
          | Some b => [b]
          | None => []
          end)
        (combine (seq 0 (List.length (t_steps template))) (t_steps template)))
    (seq 0 (Z.to_nat repeatCount)).

(* ------------------------------------------------------------------ *)
(** ** The generator instance (constructor, [calculateSpeedMultiplier]) *)

Inductive DifficultyLevel := Easy | Medium | Hard.

(** [DifficultySettings] ([description] and [icon] are display text and
    are left out). *)
Record DifficultySettings := mkDifficulty {
  level : DifficultyLevel;
  speedMultiplier : Q;
  noteCapacity : Q;
  timingWindow : Q;
  holdNoteFrequency : Q;
  complexPatterns : bool
}.

(** [calculateSpeedMultiplier].  For [energy = []] the mean is [0 / 0]:
    NaN in JavaScript, 0 in [Q]; both fail the tests [> 0.8] and [> 0.6], so
    the result is the same. *)
Definition calculateSpeedMultiplier (a : AudioAnalysisResult) (ds : DifficultySettings) : Q :=
  let avgEnergy := sumQ (energy a) / qnat (List.length (energy a)) in
  let m0 := speedMultiplier ds in
  let m1 := if qlt 140 (bpm a) then m0 + 0.15
            else if qlt 120 (bpm a) then m0 + 0.1
            else if qlt (bpm a) 80 then m0 + 0.05
            else m0 in
  let m2 := if qlt 0.8 avgEnergy then m1 + 0.1
            else if qlt 0.6 avgEnergy then m1 + 0.05
            else m1 in
  Qmax 0.8 (Qmin 1.4 m2).

(** The fixed parts of a [BeatmapGenerator] built by its constructor. *)
Record BeatmapGenerator := mkGenerator {
  audioAnalysis : AudioAnalysisResult;
  difficultySettings : DifficultySettings;
  gen_speedMultiplier : Q;
  morphConfig : MorphingConfig
}.

Definition newBeatmapGenerator (a : AudioAnalysisResult) (ds : DifficultySettings)
    : BeatmapGenerator :=
  mkGenerator a ds (calculateSpeedMultiplier a ds)
    (mkMorphCfg 15 true (complexPatterns ds) true true).

(** The mutable fields of the instance, and the position in the random
    stream. *)
Record GenState := mkGenState {
  currentTemplate : option PatternTemplate;
  templateRotationIndex : nat;
  lastSectionType : option SongSection;
  patternMemory : PatternMemory;
  rnd : nat
}.

Definition initialState : GenState :=
  mkGenState None 0 None (mkPM [] 0 generatorMemoryConfig) 0.

(** [noveltyBudget] *)
Definition noveltyBudget (sec : SongSection) : Q :=
  match sec with
  | Intro => 0.3 | Verse => 0.5 | Chorus => 0.8 | Bridge => 0.9 | Outro => 0.4
  end.

(** [getSectionForTime] *)
Definition getSectionForTime (t : Q) (structure : list Section) : SongSection :=
  match find_first (fun s => qle (s_start s) t && qlt t (s_end s)) structure with
  | Some s => s_type s
  | None => Verse
  end.

(** [getSectionEnergy] *)
Definition getSectionEnergy (a : AudioAnalysisResult) (t : Q) : Q :=
  match energy a with
  | [] => 0.5
  | en =>
      let len := Z.of_nat (List.length en) in
      let energyIndex := Qfloor ((t / duration a) * inject_Z len) in
      let safeIndex := Z.max 0 (Z.min energyIndex (len - 1)) in
      or_num (nth (Z.to_nat safeIndex) en 0) 0.5
  end.

(** One round of [bars.forEach] in [generateBeatmap]: the beats of the bar
    are appended to [beatmap].  [calculateHarmonicContour] is left out: its
    result only goes to [applyAdaptiveMorphing], which ignores it. *)
Definition bar_step (g : BeatmapGenerator) (rng : nat -> Q) (structure : list Section)
    (acc : list EnhancedBeatData * GenState) (bi : Bar * nat)
    : list EnhancedBeatData * GenState :=
  let '(beatmap, st) := acc in
  let '(bar, barIdx) := bi in
  let sec := getSectionForTime (startTime bar) structure in
  let sectionEnergy := getSectionEnergy (audioAnalysis g) (startTime bar) in
  let '(tmpl, rot, last) :=
    match lastSectionType st with
    | Some s => if SongSection_eqb sec s
                then (currentTemplate st, templateRotationIndex st, lastSectionType st)
                else let '(t, r) := selectNewTemplateForSection sec (bar_energy bar)
                                      (templateRotationIndex st) in (Some t, r, Some sec)
    | None => let '(t, r) := selectNewTemplateForSection sec (bar_energy bar)
                               (templateRotationIndex st) in (Some t, r, Some sec)
    end in
  let '(template, rot') :=
    match tmpl with
    | Some t => (t, rot)
    | None => selectNewTemplateForSection sec (bar_energy bar) rot
    end in
  let barBeats := generateTemplateBasedPattern template bar sec barIdx in
  let noveltyRatio := or_num (noveltyBudget sec) 0.5 in
  let '(barBeats1, r1) :=
    if qlt (rng (rnd st)) noveltyRatio
    then applyRhythmicVariance (morphConfig g) rng (S (rnd st)) barBeats
    else (barBeats, S (rnd st)) in
  let barBeats2 := antiRepetitionStep (patternMemory st) barBeats1 sec in
  let mem := recordPattern (patternMemory st) barBeats2 sec sectionEnergy in
  (beatmap ++ barBeats2, mkGenState (Some template) rot' last mem r1).

(* ------------------------------------------------------------------ *)
(** ** Post-processing: [postProcessWithHolds] *)

(** [list[j] = f(list[j])] on the shared beat objects, addressed by index. *)
Fixpoint update_nth {A} (j : nat) (f : A -> A) (l : list A) : list A :=
  match l, j with
  | [], _ => []
  | x :: r, O => f x :: r
  | x :: r, S j' => x :: update_nth j' f r
  end.

Definition beat_at (l : list EnhancedBeatData) (j : nat) : option EnhancedBeatData :=
  nth_error l j.
Definition time_at (l : list EnhancedBeatData) (j : nat) : Q :=
  match nth_error l j with Some b => eb_time b | None => 0 end.

(** The minimum-spacing filter: [beatmap.filter((beat, index) => ...)],
    reading the previous element of the sorted array. *)
Fixpoint spacing_filter (prev : option EnhancedBeatData) (l : list EnhancedBeatData)
    : list EnhancedBeatData :=
  match l with
  | [] => []
  | b :: r =>
      let keep := match prev with
                  | None => true
                  | Some p => truthy (isHold b) || truthy (isHold p) ||
                              qle 0.1 (eb_time b - eb_time p)
                  end in
      (if keep then [b] else []) ++ spacing_filter (Some b) r
  end.

(** [recentHoldLanes.push(l); if (length > 3) shift()] *)
Definition push_recent (recent : list Z) (l : Z) : list Z :=
  let r := recent ++ [l] in
  if Nat.ltb 3 (List.length r) then tl r else r.

Definition mem_Z (x : Z) (l : list Z) : bool := existsb (Z.eqb x) l.

Definition complexHoldPatterns : list (list Z * string) :=
  [([0; 3; 0; 3]%Z, "LeftRightHolds"%string); ([0; 1; 2; 3]%Z, "DiagonalSweep"%string);
   ([0; 2; 1; 3]%Z, "CrossPattern"%string); ([1; 2; 1; 2]%Z, "UpDownFlow"%string);
   ([0; 3; 1; 2; 0; 3]%Z, "MixedComplex"%string)].

(** [createComplexHoldPattern] on the beats at the indices [idxs]. *)
Definition createComplexHoldPattern (rng : nat -> Q) (bm : list EnhancedBeatData)
    (idxs : list nat) (dur : Q) (recent : list Z) (r : nat)
    : list EnhancedBeatData * list Z * nat :=
  let available := filter (fun p => negb (forallb (fun l => mem_Z l recent) (fst p)))
                          complexHoldPatterns in
  match available with
  | [] => (bm, recent, r)
  | _ =>
      let k := Z.to_nat (Qfloor (rng r * qnat (List.length available))) in
      let '(lanes, name) := nth k available ([], EmptyString) in
      let toModify := combine (firstn (Nat.min (List.length idxs) (List.length lanes)) idxs)
                              (seq 0 (List.length idxs)) in
      let '(bm', recent') :=
        fold_left (fun acc '(j, index) =>
            let '(bm0, rec0) := acc in
            let l := nth index lanes 0%Z in
            let bm1 := update_nth j (fun b =>
                         set_hold (set_lane b l) (Some true) (Some (Qmin (dur * 0.6) 1.5))
                                  (Some name)) bm0 in
            (bm1, if mem_Z l rec0 then rec0 else rec0 ++ [l]))
          toModify (bm, recent) in
      (bm', recent', S r)
  end.

(** The body of the melody-gap loop of [addSustainedHolds] for one pair of
    consecutive melody onsets. *)
Definition sustained_step (ds : DifficultySettings) (rng : nat -> Q)
    (acc : list EnhancedBeatData * list Z * nat) (pair : BeatData * BeatData)
    : list EnhancedBeatData * list Z * nat :=
  let '(bm, recent, r) := acc in
  let '(current, next) := pair in
  let gap := time next - time current in
  if qlt 1 gap && qlt gap 4 then
    let sustained :=
      filter (fun j => let t := time_at bm j in
                       qle (time current) t && qle t (time next) &&
                       qlt (Qabs (t - time current)) (gap * 0.7))
             (seq 0 (List.length bm)) in
    let shouldAddHold := qlt (rng r) (holdNoteFrequency ds) in
    let r1 := S r in
    match sustained with
    | j :: _ =>
        if shouldAddHold then
          if complexPatterns ds && Nat.leb 3 (List.length sustained) then
            createComplexHoldPattern rng bm sustained gap recent r1
          else
            match beat_at bm j with
            | Some hb =>
                if truthy (isHold hb) then (bm, recent, r1)
                else
                  let availableLanes := filter (fun l => negb (mem_Z l recent)) [0; 1; 2; 3]%Z in
                  let '(newLane, r2) :=
                    match availableLanes with
                    | [] => (lane hb, r1)
                    | _ => (nth (Z.to_nat (Qfloor (rng r1 * qnat (List.length availableLanes))))
                                availableLanes 0%Z, S r1)
                    end in
                  let bm' := update_nth j (fun b =>
                               set_hold (set_lane b newLane) (Some true)
                                        (Some (Qmin (gap * 0.8) 2)) (templateName b)) bm in
                  (bm', push_recent recent newLane, r2)
            | None => (bm, recent, r1)
            end
        else (bm, recent, r1)
    | [] => (bm, recent, r1)
    end
  else (bm, recent, r).

(** The grouping loop of [addRepeatingHoldPatterns]: runs of beats whose
    successive gaps lie in (0.4, 0.8), as lists of indices. *)
Definition repeating_groups (bm : list EnhancedBeatData) : list (list nat) :=
  let '(groups, cur) :=
    fold_left (fun acc i =>
        let '(gs, cg) := acc in
        let timeDiff := time_at bm (S i) - time_at bm i in
        if qlt 0.4 timeDiff && qlt timeDiff 0.8 then
          (gs, (match cg with [] => [i] | _ => cg end) ++ [S i])
        else
          ((if Nat.leb 4 (List.length cg) then gs ++ [cg] else gs), []))
      (seq 0 (List.length bm - 1)) ([], []) in
  if Nat.leb 4 (List.length cur) then groups ++ [cur] else groups.

Definition repeatingPatterns : list (list Z * string) :=
  [([0; 0; 0; 1]%Z, "RepeatingLeft"%string); ([3; 3; 3; 2]%Z, "RepeatingRight"%string);
   ([1; 1; 2; 2]%Z, "RepeatingUpDown"%string); ([0; 3; 0; 3]%Z, "RepeatingLeftRight"%string);
   ([1; 2; 1; 2; 0; 3]%Z, "RepeatingMixed"%string)].

(** [addRepeatingHoldPatterns] *)
Definition addRepeatingHoldPatterns (ds : DifficultySettings) (rng : nat -> Q)
    (bm : list EnhancedBeatData) (r : nat) : list EnhancedBeatData * nat :=
  let groups := repeating_groups bm in
  fold_left (fun acc '(group, groupIndex) =>
      let '(bm0, r0) := acc in
      if qlt (rng r0) (holdNoteFrequency ds * 0.8) then
        let '(lanes, name) := nth (groupIndex mod 5) repeatingPatterns ([], EmptyString) in
        let bm1 :=
          fold_left (fun bmx '(j, beatIndex) =>
              let patternIndex := beatIndex mod List.length lanes in
              let nextJ := nth (Nat.min (beatIndex + 1) (List.length group - 1)) group j in
              let hd := Qmin 1.2 ((time_at bmx nextJ - time_at bmx j) * 0.8) in
              update_nth j (fun b =>
                  let b1 := set_lane b (nth patternIndex lanes 0%Z) in
                  if Nat.eqb patternIndex 0 ||
                     (complexPatterns ds && Nat.eqb (patternIndex mod 2) 0)
                  then set_hold b1 (Some true) (Some hd) (Some name)
                  else b1) bmx)
            (combine group (seq 0 (List.length group))) bm0 in
        (bm1, S r0)
      else (bm0, S r0))
    (combine groups (seq 0 (List.length groups))) (bm, r).

(** [addSustainedHolds] *)
Definition addSustainedHolds (a : AudioAnalysisResult) (ds : DifficultySettings)
    (rng : nat -> Q) (bm : list EnhancedBeatData) (r : nat) : list EnhancedBeatData * nat :=
  let melodyOnsets := filter (fun b => qle 300 (frequency b) && qlt (frequency b) 3000) (beats a) in
  let pairs := combine melodyOnsets (tl melodyOnsets) in
  let '(bm1, recent, r1) := fold_left (sustained_step ds rng) pairs (bm, [], r) in
  addRepeatingHoldPatterns ds rng bm1 r1.

(** The lane-variety loop: three equal lanes in a row move the middle one. *)
Definition laneVariety (bm : list EnhancedBeatData) : list EnhancedBeatData :=
  fold_left (fun l i =>
      match nth_error l (i - 1), nth_error l i, nth_error l (S i) with
      | Some p, Some c, Some n =>
          if Z.eqb (lane p) (lane c) && Z.eqb (lane c) (lane n)
          then update_nth i (fun b => set_lane b (js_mod (lane b + 1) 4)) l
          else l
      | _, _, _ => l
      end)
    (seq 1 (List.length bm - 2)) bm.

(** [postProcessWithHolds] *)
Definition postProcessWithHolds (g : BeatmapGenerator) (rng : nat -> Q)
    (beatmap : list EnhancedBeatData) (r : nat) : list EnhancedBeatData * nat :=
  let sorted := sort_by eb_time beatmap in
  let filtered := spacing_filter None sorted in
  let '(withHolds, r1) := addSustainedHolds (audioAnalysis g) (difficultySettings g) rng filtered r in
  (laneVariety withHolds, r1).

(** [enhanceSectionTransitions] returns its argument. *)
Definition enhanceSectionTransitions (bm : list EnhancedBeatData) (structure : list Section)
    : list EnhancedBeatData := bm.

(** [generateBeatmap].  The analytics computed at the end are only logged
    and do not change the result; they are modelled in [JSNum] below.
    [None] means the bar loop did not finish within [fuel] rounds. *)
Definition generateBeatmap (fuel : nat) (g : BeatmapGenerator) (st : GenState)
    (rng : nat -> Q) : option (list EnhancedBeatData * GenState) :=
  let a := audioAnalysis g in
  let st0 := mkGenState (currentTemplate st) (templateRotationIndex st)
               (lastSectionType st) (resetMemory (patternMemory st)) (rnd st) in
  let onsets := detectMusicalOnsets (beats a) in
  match segmentIntoBars fuel a onsets with
  | None => None
  | Some bars =>
      let songStructure := analyzeSongStructure (duration a) (energy a) in
      let '(beatmap, st1) :=
        fold_left (bar_step g rng songStructure)
          (combine bars (seq 0 (List.length bars))) ([], st0) in
      let '(beatmap1, r1) := postProcessWithHolds g rng beatmap (rnd st1) in
      let beatmap2 := enhanceSectionTransitions beatmap1 songStructure in
      Some (sort_by eb_time beatmap2,
            mkGenState (currentTemplate st1) (templateRotationIndex st1)
              (lastSectionType st1) (patternMemory st1) r1)
  end.

(* ------------------------------------------------------------------ *)
(** ** Beatmap analyzer over JavaScript numbers (beatmapAnalytics.ts) *)

Module JSNum.

(** A JavaScript number: a finite value, an infinity or NaN (the sign of
    zero is not tracked: a zero divisor counts as +0). *)
Inductive num := Fin (q : Q) | PInf | NInf | NaN.

Definition zero : num := Fin 0.
Definition one : num := Fin 1.
Definition nat_num (n : nat) : num := Fin (qnat n).

Definition neg (x : num) : num :=
  match x with Fin a => Fin (- a) | PInf => NInf | NInf => PInf | NaN => NaN end.

Definition add (x y : num) : num :=
  match x, y with
  | Fin a, Fin b => Fin (a + b)
  | NaN, _ | _, NaN => NaN
  | PInf, NInf | NInf, PInf => NaN
  | PInf, _ | _, PInf => PInf
  | NInf, _ | _, NInf => NInf
  end.

Definition sub (x y : num) : num := add x (neg y).

(** The sign of a finite value: 1, 0 or -1. *)
Definition qsign (a : Q) : Z := if qlt 0 a then 1%Z else if qlt a 0 then (-1)%Z else 0%Z.

Definition inf_of_sign (s : Z) : num :=
  match s with Z0 => NaN | Zpos _ => PInf | Zneg _ => NInf end.

Definition sign (x : num) : Z :=
  match x with Fin a => qsign a | PInf => 1 | NInf => -1 | NaN => 0 end.

Definition mul (x y : num) : num :=
  match x, y with
  | Fin a, Fin b => Fin (a * b)
  | NaN, _ | _, NaN => NaN
  | _, _ => inf_of_sign (sign x * sign y)
  end.

Definition div (x y : num) : num :=
  match x, y with
  | Fin a, Fin b => if Qeq_bool b 0 then inf_of_sign (qsign a) else Fin (a / b)
  | NaN, _ | _, NaN => NaN
  | Fin _, _ => Fin 0
  | _, Fin b => if Qeq_bool b 0 then x else inf_of_sign (sign x * qsign b)
  | _, _ => NaN
  end.

(** [x < y]: false as soon as one side is NaN. *)
Definition lt (x y : num) : bool :=
  match x, y with
  | Fin a, Fin b => qlt a b
  | NaN, _ | _, NaN => false
  | NInf, NInf | PInf, PInf => false
  | NInf, _ => true
  | _, PInf => true
  | _, _ => false
  end.

Definition is_nan (x : num) : bool := match x with NaN => true | _ => false end.

(** [Math.min(x, y)] and [Math.max(x, y)]. *)
Definition min (x y : num) : num :=
  if is_nan x || is_nan y then NaN else if lt y x then y else x.
Definition max (x y : num) : num :=
  if is_nan x || is_nan y then NaN else if lt x y then y else x.

Definition abs (x : num) : num :=
  match x with Fin a => Fin (Qabs a) | NInf => PInf | y => y end.

Definition floor (x : num) : num :=
  match x with Fin a => Fin (inject_Z (Qfloor a)) | y => y end.

(** [Math.round]: the nearest integer, halves rounded up. *)
Definition round (x : num) : num :=
  match x with Fin a => Fin (inject_Z (Qfloor (a + (1 # 2)))) | y => y end.

(** [Math.log2] on a positive finite value: the integer part, then 53
    fractional bits by repeated squaring in fixed point (2^60 scale), so the
    result is exact on powers of two. *)
Definition fix_scale : Z := 2 ^ 60.

Fixpoint log2_bits (fuel : nat) (y : Z) (acc : Z) : Z :=
  match fuel with
  | O => acc
  | S f =>
      let y2 := (y * y / fix_scale)%Z in
      if (2 * fix_scale <=? y2)%Z then log2_bits f (y2 / 2) (2 * acc + 1)
      else log2_bits f y2 (2 * acc)
  end.

Definition log2_pos (a : Q) : Q :=
  let k0 := (Z.log2 (Qnum a) - Z.log2 (Zpos (Qden a)))%Z in
  let k := if qlt a (Qpower 2 k0) then (k0 - 1)%Z else k0 in
  let y := Qfloor (a / Qpower 2 k * inject_Z fix_scale) in
  inject_Z k + inject_Z (log2_bits 53 y 0) / inject_Z (2 ^ 53).

Definition log2 (x : num) : num :=
  match x with
  | Fin a => if qlt 0 a then Fin (log2_pos a)
             else if Qeq_bool a 0 then NInf else NaN
  | PInf => PInf
  | NInf | NaN => NaN
  end.

Definition sum (xs : list num) : num := fold_left add xs zero.

Definition fin (q : Q) : num := Fin q.

(** [`${b.lane}-${b.pattern}-${b.isHold ? 'H' : 'T'}`] joined by ['|'] over
    [beats.slice(i, i + n)], for [i <= beats.length - n]. *)
Definition extractNGrams (bs : list EnhancedBeatData) (n : nat) : list string :=
  if Nat.leb n (List.length bs)
  then map (fun i => String.concat "|" (map beat_key (firstn n (skipn i bs))))
           (seq 0 (List.length bs - n + 1))
  else [].

(** [new Set(xs).size] *)
Definition set_size (xs : list string) : nat := List.length (nodup string_dec xs).

(** A [Map] from keys to values in insertion order, as an association
    list. *)
Fixpoint map_update (k : string) (f : option nat -> nat) (m : list (string * nat))
    : list (string * nat) :=
  match m with
  | [] => [(k, f None)]
  | (k', v) :: r => if String.eqb k k' then (k', f (Some v)) :: r
                    else (k', v) :: map_update k f r
  end.

Fixpoint map_push (k : string) (x : nat) (m : list (string * list nat))
    : list (string * list nat) :=
  match m with
  | [] => [(k, [x])]
  | (k', v) :: r => if String.eqb k k' then (k', v ++ [x]) :: r
                    else (k', v) :: map_push k x r
  end.

(** [indices[i] - indices[i-1]] for [i >= 1]. *)
Fixpoint gaps (l : list nat) : list num :=
  match l with
  | x :: ((y :: _) as r) => Fin (qnat y - qnat x) :: gaps r
  | _ => []
  end.

Record DiversityMetrics := mkDiv {
  patternEntropy : num; ngramDiversity : num; repetitionDistance : num;
  laneBalance : num; holdVariety : num
}.
Record ErgonomicsMetrics := mkErg {
  handAlternation : num; jumpDistance : num; restFrequency : num;
  staminaLoad : num; readabilityScore : num
}.
Record MusicalityMetrics := mkMus {
  beatAlignment : num; accentEmphasis : num; phraseCoherence : num; dynamicRange : num
}.
Record PerformanceMetrics := mkPerf {
  complexity : num; peakIntensity : num; learningCurve : num; replayability : num
}.
Record BeatmapAnalytics := mkAnalytics {
  diversityMetrics : DiversityMetrics;
  ergonomicsMetrics : ErgonomicsMetrics;
  musicalityMetrics : MusicalityMetrics;
  performanceMetrics : PerformanceMetrics
}.

(** [laneDistribution[beat.lane]++] on [[0, 0, 0, 0]], then the [reduce] of
    [laneBalance]: a lane [k >= 4] creates the element [k] as NaN
    ([undefined + 1]), which the reduce then meets; other keys (negative
    lanes) are not array elements and are skipped. *)
Definition laneDeviation (bs : list EnhancedBeatData) (idealRatio : num) : num :=
  if existsb (fun b => Z.leb 4 (lane b)) bs then NaN
  else sum (map (fun k => abs (sub (nat_num (count_occ Z.eq_dec (map lane bs) k)) idealRatio))
                [0; 1; 2; 3]%Z).

(** [analyzeDiversity] *)
Definition analyzeDiversity (bs : list EnhancedBeatData) : DiversityMetrics :=
  let ngrams := extractNGrams bs 4 in
  let uniqueNGrams := set_size ngrams in
  let patternCounts := fold_left (fun m g => map_update g (fun v =>
                          match v with Some c => S c | None => 1%nat end) m) ngrams [] in
  let totalPatterns := List.length ngrams in
  let entropy := fold_left (fun e kc =>
                   let probability := div (nat_num (snd kc)) (nat_num totalPatterns) in
                   sub e (mul probability (log2 probability))) patternCounts zero in
  let patternIndices := fold_left (fun m ig => map_push (snd ig) (fst ig) m)
                          (combine (seq 0 (List.length ngrams)) ngrams) [] in
  let repetitionDistances := flat_map (fun kv => gaps (snd kv)) patternIndices in
  let avgRepetitionDistance :=
    match repetitionDistances with
    | [] => PInf
    | _ => div (sum repetitionDistances) (nat_num (List.length repetitionDistances))
    end in
  let idealRatio := div (nat_num (List.length bs)) (Fin 4) in
  let laneBalance_ := sub one (div (laneDeviation bs idealRatio) (nat_num (List.length bs))) in
  let holdPatterns :=
    map (fun b => (Z_to_string (lane b) ++ "-" ++
                   match floor (mul (Fin (or_opt_num (holdDuration b) 0)) (Fin 10)) with
                   | Fin q => Z_to_string (Qfloor q)
                   | _ => "NaN"
                   end)%string)
        (filter (fun b => truthy (isHold b)) bs) in
  let holdVariety_ :=
    match holdPatterns with
    | [] => zero
    | _ => div (nat_num (set_size holdPatterns)) (nat_num (List.length holdPatterns))
    end in
  mkDiv (div entropy (log2 (min (nat_num totalPatterns) (Fin 16))))
        (div (nat_num uniqueNGrams) (max (nat_num (List.length ngrams)) one))
        (min (div avgRepetitionDistance (Fin 16)) one)
        laneBalance_ holdVariety_.

(** Consecutive pairs [(beats[i-1], beats[i])] for [i >= 1]. *)
Definition pairs {A} (l : list A) : list (A * A) := combine l (tl l).

Definition hand_left (b : EnhancedBeatData) : bool := Z.ltb (lane b) 2.

(** [slice(i, i + w)] for every [i <= len - w]. *)
Definition windows {A} (w : nat) (l : list A) : list (list A) :=
  if Nat.leb w (List.length l)
  then map (fun i => firstn w (skipn i l)) (seq 0 (List.length l - w + 1))
  else [].

Definition last_time (l : list EnhancedBeatData) : Q :=
  match rev l with b :: _ => eb_time b | [] => 0 end.
Definition first_time (l : list EnhancedBeatData) : Q :=
  match l with b :: _ => eb_time b | [] => 0 end.

(** [analyzeErgonomics] *)
Definition analyzeErgonomics (bs : list EnhancedBeatData) : ErgonomicsMetrics :=
  if Nat.ltb (List.length bs) 2 then mkErg one zero one zero one
  else
    let ps := pairs bs in
    let n := nat_num (List.length bs) in
    let n1 := nat_num (List.length bs - 1) in
    let alternationCount :=
      List.length (filter (fun p => negb (Bool.eqb (hand_left (fst p)) (hand_left (snd p)))) ps) in
    let handAlternation_ := div (nat_num alternationCount) n1 in
    let jumpDistances := map (fun p => Fin (inject_Z (Z.abs (lane (snd p) - lane (fst p))))) ps in
    let avgJumpDistance := div (sum jumpDistances) (nat_num (List.length jumpDistances)) in
    let restPeriods := filter (fun p => qlt 0.5 (eb_time (snd p) - eb_time (fst p))) ps in
    let restFrequency_ := div (nat_num (List.length restPeriods)) n in
    let maxStaminaLoad :=
      fold_left (fun mx w =>
          let windowDuration := Fin (last_time w - first_time w) in
          max mx (div (nat_num (List.length w)) (max windowDuration (Fin 0.1))))
        (windows 10 bs) zero in
    let readabilityFactors :=
      map (fun p =>
          let timeDiff := Fin (eb_time (snd p) - eb_time (fst p)) in
          let laneDiff := Fin (inject_Z (Z.abs (lane (snd p) - lane (fst p)))) in
          let timingScore := min (div timeDiff (Fin 0.2)) one in
          let laneScore := sub one (div laneDiff (Fin 3)) in
          div (add timingScore laneScore) (Fin 2)) ps in
    let readabilityScore_ := div (sum readabilityFactors) (nat_num (List.length readabilityFactors)) in
    mkErg handAlternation_ (min (div avgJumpDistance (Fin 3)) one)
          (min (mul restFrequency_ (Fin 5)) one)
          (min (div maxStaminaLoad (Fin 10)) one) readabilityScore_.

(** [findSectionChanges] *)
Definition findSectionChanges (bs : list EnhancedBeatData) : list nat :=
  match bs with
  | [] => []
  | b0 :: _ =>
      fst (fold_left (fun acc ib =>
               let '(changes, cur) := acc in
               if SongSection_eqb (section (snd ib)) cur then acc
               else (changes ++ [fst ib], section (snd ib)))
             (combine (seq 0 (List.length bs)) bs) ([], section b0))
  end.

(** [analyzeMusicality]; [Math.max(...[])] is [-Infinity] and
    [Math.min(...[])] is [+Infinity]. *)
Definition analyzeMusicality (bs : list EnhancedBeatData) : MusicalityMetrics :=
  let n := nat_num (List.length bs) in
  let sectionChanges := findSectionChanges bs in
  let strongBeats := filter (fun b => match eb_type b with Bass => true | _ => false end ||
                                      qlt 0.7 (eb_intensity b)) bs in
  let accentBeats := filter (fun b => truthy (isAccent b) || qlt 0.8 (eb_intensity b)) bs in
  let avgPhraseLength := div n (max (nat_num (List.length sectionChanges)) one) in
  let intensities := map (fun b => Fin (eb_intensity b)) bs in
  let maxIntensity := fold_left max intensities NInf in
  let minIntensity := fold_left min intensities PInf in
  mkMus (div (nat_num (List.length strongBeats)) (max n one))
        (div (nat_num (List.length accentBeats)) (max n one))
        (min (div avgPhraseLength (Fin 16)) one)
        (sub maxIntensity minIntensity).

(** [calculateVariance] *)
Definition calculateVariance (values : list num) : num :=
  match values with
  | [] => zero
  | _ =>
      let len := nat_num (List.length values) in
      let mean := div (sum values) len in
      div (fold_left (fun s v => add s (mul (sub v mean) (sub v mean))) values zero) len
  end.

(** [calculateTimingComplexity] *)
Definition calculateTimingComplexity (bs : list EnhancedBeatData) : num :=
  if Nat.ltb (List.length bs) 2 then zero
  else
    let intervals := map (fun p => Fin (eb_time (snd p) - eb_time (fst p))) (pairs bs) in
    let avgInterval := div (sum intervals) (nat_num (List.length intervals)) in
    min (div (calculateVariance intervals) avgInterval) one.

Definition laneChangeCount (bs : list EnhancedBeatData) : nat :=
  List.length (filter (fun p => negb (Z.eqb (lane (snd p)) (lane (fst p)))) (pairs bs)).

(** [calculateWindowDifficulty] *)
Definition calculateWindowDifficulty (w : list EnhancedBeatData) : num :=
  match w with
  | [] => zero
  | _ =>
      let len := nat_num (List.length w) in
      let avgIntensity := div (sum (map (fun b => Fin (eb_intensity b)) w)) len in
      let holdRatio := div (nat_num (List.length (filter (fun b => truthy (isHold b)) w))) len in
      div (add (add avgIntensity (div (nat_num (laneChangeCount w)) len)) holdRatio) (Fin 3)
  end.

(** [calculateDifficultyProgression]: windows of 30 beats every 15 beats. *)
Definition calculateDifficultyProgression (bs : list EnhancedBeatData) : list num :=
  if Nat.leb 30 (List.length bs)
  then map (fun k => calculateWindowDifficulty (firstn 30 (skipn (15 * k) bs)))
           (seq 0 ((List.length bs - 30) / 15 + 1))
  else [].

(** [new Set(values).size] on pattern kinds and on the truthy template
    names. *)
Definition patternTypeCount (bs : list EnhancedBeatData) : nat :=
  set_size (map (fun b => pattern_to_string (pattern b)) bs).
Definition templateVarietyCount (bs : list EnhancedBeatData) : nat :=
  set_size (flat_map (fun b => match templateName b with
                               | Some s => if String.eqb s "" then [] else [s]
                               | None => []
                               end) bs).

(** [analyzePerformance] *)
Definition analyzePerformance (bs : list EnhancedBeatData) : PerformanceMetrics :=
  let n := nat_num (List.length bs) in
  let holdComplexity := div (nat_num (List.length (filter (fun b => truthy (isHold b)) bs))) n in
  let timingComplexity := calculateTimingComplexity bs in
  let complexity_ := div (add (add (div (nat_num (laneChangeCount bs)) n) holdComplexity)
                              timingComplexity) (Fin 3) in
  let peakIntensity_ :=
    fold_left (fun pk w =>
        max pk (div (sum (map (fun b => Fin (eb_intensity b)) w)) (nat_num (List.length w))))
      (windows 20 bs) zero in
  let learningCurve_ := sub one (calculateVariance (calculateDifficultyProgression bs)) in
  let replayability_ := div (nat_num (patternTypeCount bs + templateVarietyCount bs))
                            (mul n (Fin 0.1)) in
  mkPerf (min complexity_ one) peakIntensity_ (max learningCurve_ zero) (min replayability_ one).

(** [analyze] *)
Definition analyze (bs : list EnhancedBeatData) : BeatmapAnalytics :=
  mkAnalytics (analyzeDiversity bs) (analyzeErgonomics bs)
              (analyzeMusicality bs) (analyzePerformance bs).

(** [generateQualityScore] *)
Definition generateQualityScore (a : BeatmapAnalytics) : num :=
  let d := diversityMetrics a in
  let e := ergonomicsMetrics a in
  let m := musicalityMetrics a in
  let p := performanceMetrics a in
  let diversityScore :=
    add (add (add (mul (patternEntropy d) (Fin 0.3)) (mul (ngramDiversity d) (Fin 0.3)))
             (mul (repetitionDistance d) (Fin 0.2))) (mul (laneBalance d) (Fin 0.2)) in
  let ergonomicsScore :=
    add (add (add (add (mul (handAlternation e) (Fin 0.3))
                       (mul (sub one (jumpDistance e)) (Fin 0.2)))
                  (mul (restFrequency e) (Fin 0.2)))
             (mul (sub one (staminaLoad e)) (Fin 0.15)))
        (mul (readabilityScore e) (Fin 0.15)) in
  let musicalityScore :=
    add (add (add (mul (beatAlignment m) (Fin 0.3)) (mul (accentEmphasis m) (Fin 0.25)))
             (mul (phraseCoherence m) (Fin 0.25))) (mul (dynamicRange m) (Fin 0.2)) in
  let performanceScore :=
    add (add (add (mul (complexity p) (Fin 0.25)) (mul (peakIntensity p) (Fin 0.25)))
             (mul (learningCurve p) (Fin 0.25))) (mul (replayability p) (Fin 0.25)) in
  let totalScore :=
    add (add (add (mul diversityScore (Fin 0.25)) (mul ergonomicsScore (Fin 0.25)))
             (mul musicalityScore (Fin 0.25))) (mul performanceScore (Fin 0.25)) in
  round (mul totalScore (Fin 100)).

(** The score is an integer between 0 and 100. *)
Definition is_score (x : num) : Prop :=
  exists z : Z, x = Fin (inject_Z z) /\ (0 <= z <= 100)%Z.

End JSNum.

(* ------------------------------------------------------------------ *)
(** ** The frequency bands as the specification lists them *)

(** The onset tags the specification gives a beat of frequency [f]: one
    per band that contains [f], in the order drum, snare, melody, accent. *)
Definition bands_of (f : Q) : list OnsetType :=
  (if qlt f 250 then [Drum] else []) ++
  (if qle 150 f && qlt f 500 then [Drum] else []) ++
  (if qle 300 f && qlt f 3000 then [Melody] else []) ++
  (if qle 2000 f then [Accent] else []).

(* ------------------------------------------------------------------ *)
(** ** A sample song *)

(** An 8-second song at 120 BPM with four detected beats and a flat
    energy profile, medium difficulty, and a periodic random stream. *)
Definition sample_analysis : AudioAnalysisResult :=
  mkAnalysis 120
    [mkBeatData 0.5 0.9 100 Kick None; mkBeatData 1 0.7 400 Kick None;
     mkBeatData 3 0.8 2500 Kick None; mkBeatData 5.2 0.5 1000 Kick None]
    8 (repeat (1#2) 16).

Definition sample_settings : DifficultySettings := mkDifficulty Medium 1 6 100 (1#2) true.

Definition sample_generator : BeatmapGenerator :=
  newBeatmapGenerator sample_analysis sample_settings.

Definition sample_rng (n : nat) : Q := inject_Z (Z.of_nat (Nat.modulo n 7)) / 7.

(** A bar of four beats, lanes 0 to 3, at the start of an intro. *)
Definition sample_beat (t : Q) (l : Z) : EnhancedBeatData :=
  mkEB t 0.8 200 Kick None l Template Intro None (Some false) None (Some "IntroGentle"%string)
       (Some 0%nat).

Definition sample_bar : list EnhancedBeatData :=
  [sample_beat 0 0; sample_beat 0.5 1; sample_beat 1 2; sample_beat 1.5 3].

(** The generator's memory after recording [sample_bar] once. *)
Definition sample_memory : PatternMemory :=
  recordPattern (mkPM [] 0 generatorMemoryConfig) sample_bar Intro 0.5.

(** The morphing configuration the generator builds, with complex
    patterns on. *)
Definition sample_morph : MorphingConfig := mkMorphCfg 15 true true true true.

(** A verse hold beat whose hold duration is recorded as 0. *)
Definition zero_hold_beat : EnhancedBeatData :=
  mkEB 0 0.8 200 Kick None 0 Template Verse None (Some true) (Some 0) None (Some 0%nat).

(* ------------------------------------------------------------------ *)
(** ** Properties of beat lists *)

(** A beat on one of the four lanes 0..3. *)
Definition lane_ok (b : EnhancedBeatData) : Prop := (0 <= lane b <= 3)%Z.

(** The template a generator state holds, if any, only uses lanes 0..3. *)
Definition tmpl_lanes_ok (t : PatternTemplate) : Prop :=
  Forall (fun l => (0 <= l <= 3)%Z) (t_steps t).
Definition state_tmpl_ok (st : GenState) : Prop :=
  match currentTemplate st with Some t => tmpl_lanes_ok t | None => True end.

(** No three consecutive beats share a lane. *)
Definition no_triple (l : list EnhancedBeatData) : Prop :=
  forall j a b c, nth_error l j = Some a -> nth_error l (S j) = Some b ->
    nth_error l (S (S j)) = Some c -> ~ (lane a = lane b /\ lane b = lane c).

(** The same, for the triples whose middle index is at most [k]. *)
Definition no_triple_upto (k : nat) (l : list EnhancedBeatData) : Prop :=
  forall j a b c, (S j <= k)%nat -> nth_error l j = Some a -> nth_error l (S j) = Some b ->
    nth_error l (S (S j)) = Some c -> ~ (lane a = lane b /\ lane b = lane c).

(* ------------------------------------------------------------------ *)
(** ** Pattern memory queries (patternMemory.ts) *)

(** [Math.max(...xs)]: [-Infinity] on an empty list. *)
Definition js_max_list (xs : list JSNum.num) : JSNum.num := fold_left JSNum.max xs JSNum.NInf.

(** [getDiversityScore] *)
Definition getDiversityScore (m : PatternMemory) : JSNum.num :=
  let h := patternHistory m in
  if Nat.ltb (List.length h) 5 then JSNum.one
  else
    let totalPatterns := JSNum.nat_num (List.length h) in
    let uniquePatterns := JSNum.nat_num (JSNum.set_size (map sequence h)) in
    let entropyScore := JSNum.div uniquePatterns totalPatterns in
    let frequencies := map (fun p => JSNum.Fin (inject_Z (pfrequency p))) h in
    let maxFreq := js_max_list frequencies in
    let avgFreq := JSNum.div (fold_left JSNum.add frequencies JSNum.zero)
                             (JSNum.nat_num (List.length frequencies)) in
    let balanceScore := JSNum.sub JSNum.one (JSNum.div (JSNum.sub maxFreq avgFreq) maxFreq) in
    JSNum.add (JSNum.mul entropyScore (JSNum.Fin 0.7)) (JSNum.mul balanceScore (JSNum.Fin 0.3)).

(** [getCooldownPatterns]: a [Set] in insertion order. *)
Definition getCooldownPatterns (m : PatternMemory) : list String.string :=
  fold_left (fun acc p =>
      if Z.ltb (beatCounter m - lastUsed p) (minRepetitionDistance (pm_config m))
      then (if existsb (String.eqb (sequence p)) acc then acc else acc ++ [sequence p])
      else acc)
    (patternHistory m) [].

Record MemoryAnalytics := mkMemAnalytics {
  totalPatterns : nat;
  uniquePatterns : nat;
  diversityScore : JSNum.num;
  avgFrequency : JSNum.num;
  cooldownCount : nat
}.

(** [getAnalytics] *)
Definition getAnalytics (m : PatternMemory) : MemoryAnalytics :=
  let h := patternHistory m in
  mkMemAnalytics (List.length h) (JSNum.set_size (map sequence h)) (getDiversityScore m)
    (JSNum.div (fold_left (fun s p => JSNum.add s (JSNum.Fin (inject_Z (pfrequency p)))) h JSNum.zero)
               (JSNum.nat_num (List.length h)))
    (List.length (getCooldownPatterns m)).

(** The history invariant: distinct keys, frequencies at least 1, and at
    most [maxHistorySize] records. *)
Definition pm_inv (m : PatternMemory) : Prop :=
  NoDup (map sequence (patternHistory m)) /\
  Forall (fun p => (1 <= pfrequency p)%Z) (patternHistory m) /\
  (Z.of_nat (List.length (patternHistory m)) <= maxHistorySize (pm_config m))%Z.

(** A pattern memory with five distinct records of unequal frequency. *)
Definition sample_history_memory : PatternMemory :=
  mkPM [mkNGram "0-verse-T|1-verse-T" 1 0 Verse 0.5; mkNGram "1-verse-T|2-verse-T" 3 4 Verse 0.5;
        mkNGram "2-chorus-H|3-chorus-T" 2 8 Chorus 0.9; mkNGram "3-intro-T|0-intro-T" 1 12 Intro 0.3;
        mkNGram "0-bridge-T|2-bridge-T" 4 16 Bridge 0.6] 20 generatorMemoryConfig.

(* ------------------------------------------------------------------ *)
(** ** Adaptive morpher: the other transformations *)

(** [{ ...beat, intensity }] *)
Definition set_intensity (b : EnhancedBeatData) (i : Q) : EnhancedBeatData :=
  mkEB (eb_time b) i (eb_frequency b) (eb_type b) (eb_duration b) (lane b)
       (pattern b) (section b) (isAccent b) (isHold b) (holdDuration b)
       (templateName b) (barIndex b).

(** [arr[i]] for an integer [i]: [undefined] ([None]) below 0 or past the end. *)
Definition js_index {A} (l : list A) (i : Z) : option A :=
  if Z.ltb i 0 then None else nth_error l (Z.to_nat i).

(** The variant argument ['mirror' | 'rotate' | 'invert']. *)
Inductive SpatialVariant := Mirror | Rotate | Invert.

(** [applySpatialRotation] *)
Definition applySpatialRotation (cfg : MorphingConfig) (bs : list EnhancedBeatData)
    (variant : SpatialVariant) : list EnhancedBeatData :=
  if negb (spatialRotation cfg) then bs
  else
    map (fun beat =>
      let newLane :=
        match variant with
        | Mirror => 3 - lane beat
        | Rotate => js_mod (lane beat + 1) 4
        | Invert => js_mod (lane beat + 2) 4
        end%Z in
      set_lane beat newLane) bs.

(** The beat pushed by [addDensityBurst] after [baseBeat]. *)
Definition burstBeat (baseBeat : EnhancedBeatData) : EnhancedBeatData :=
  mkEB (eb_time baseBeat + 0.1) (Qmin (eb_intensity baseBeat * 0.8) 1)
       (eb_frequency baseBeat) (eb_type baseBeat) (eb_duration baseBeat)
       (js_mod (lane baseBeat + 1) 4) Dense (section baseBeat) (isAccent baseBeat)
       (isHold baseBeat) (holdDuration baseBeat) (templateName baseBeat)
       (barIndex baseBeat).

(** The loop of [addDensityBurst]: one [Math.random()] draw per iteration,
    read from [rng] at the counter [r].  Reading [.time] of an [undefined]
    entry throws a TypeError: [None]. *)
Fixpoint burst_loop (rng : nat -> Q) (beats : list EnhancedBeatData) (k : nat) (r : nat)
    (burstBeats : list EnhancedBeatData) : option (list EnhancedBeatData * nat) :=
  match k with
  | O => Some (burstBeats, r)
  | S k' =>
      let baseIndex := Qfloor (rng r * (qnat (List.length beats) - 1)) in
      match js_index beats baseIndex, js_index beats (baseIndex + 1) with
      | Some baseBeat, Some nextBeat =>
          if qlt 0.2 (eb_time nextBeat - eb_time baseBeat)
          then burst_loop rng beats k' (S r) (burstBeats ++ [burstBeat baseBeat])
          else burst_loop rng beats k' (S r) burstBeats
      | _, _ => None
      end
  end.

(** [addDensityBurst] *)
Definition addDensityBurst (cfg : MorphingConfig) (rng : nat -> Q) (r : nat)
    (beats : list EnhancedBeatData) (burstIntensity : Q)
    : option (list EnhancedBeatData * nat) :=
  if negb (densityBursts cfg) || Nat.ltb (List.length beats) 2 then Some (beats, r)
  else
    let burstCount := Qfloor (qnat (List.length beats) * burstIntensity) in
    match burst_loop rng beats (Z.to_nat burstCount) r beats with
    | Some (burstBeats, r') => Some (sort_by eb_time burstBeats, r')
    | None => None
    end.

(** The body of [beats.map] in [applyLaneChoreography] for the beat at
    [index]; the draws of [Math.random()] in the order the code makes them. *)
Definition choreographBeat (rng : nat -> Q) (energyLevel : Q) (harmonicContour : list Q)
    (index : nat) (beat : EnhancedBeatData) (r : nat) : EnhancedBeatData * nat :=
  let '(newLane, r1) :=
    match nth_error harmonicContour index with
    | Some contourValue =>
        if qlt contourValue 0.3 then ((if qlt (rng r) 0.7 then 0 else 1)%Z, S r)
        else if qlt 0.7 contourValue then ((if qlt (rng r) 0.7 then 3 else 2)%Z, S r)
        else ((if qlt (rng r) 0.5 then 1 else 2)%Z, S r)
    | None => (lane beat, r)
    end in
  let '(newLane', r2) :=
    if qlt 0.7 energyLevel then
      if qlt (rng r1) 0.6 then ((if qlt (rng (S r1)) 0.5 then 0 else 3)%Z, S (S r1))
      else (newLane, S r1)
    else if qlt energyLevel 0.3 then
      if qlt (rng r1) 0.8 then ((if qlt (rng (S r1)) 0.5 then 1 else 2)%Z, S (S r1))
      else (newLane, S r1)
    else (newLane, r1) in
  (set_lane beat newLane', r2).

Fixpoint choreograph_loop (rng : nat -> Q) (energyLevel : Q) (harmonicContour : list Q)
    (index : nat) (bs : list EnhancedBeatData) (r : nat) : list EnhancedBeatData * nat :=
  match bs with
  | [] => ([], r)
  | beat :: rest =>
      let '(beat', r1) := choreographBeat rng energyLevel harmonicContour index beat r in
      let '(rest', r2) := choreograph_loop rng energyLevel harmonicContour (S index) rest r1 in
      (beat' :: rest', r2)
  end.

(** [applyLaneChoreography] *)
Definition applyLaneChoreography (cfg : MorphingConfig) (rng : nat -> Q) (r : nat)
    (beats : list EnhancedBeatData) (energyLevel : Q) (harmonicContour : list Q)
    : list EnhancedBeatData * nat :=
  if negb (laneChoreography cfg) then (beats, r)
  else choreograph_loop rng energyLevel harmonicContour 0 beats r.

(** [(fromBeats[i]?.intensity || 0.5) * w + (toBeats[i]?.intensity || 0.5) * (1 - w)]
    with [w = Math.abs(i - midPoint) / 2]. *)
Definition crossfadeIntensity (fromBeats toBeats : list EnhancedBeatData) (midPoint i : Z) : Q :=
  let transitionWeight := inject_Z (Z.abs (i - midPoint)) / 2 in
  let fi := match js_index fromBeats i with Some b => or_num (eb_intensity b) 0.5 | None => 0.5 end in
  let ti := match js_index toBeats i with Some b => or_num (eb_intensity b) 0.5 | None => 0.5 end in
  fi * transitionWeight + ti * (1 - transitionWeight).

(** [crossfadeTemplates] *)
Definition crossfadeTemplates (fromBeats toBeats : list EnhancedBeatData) (crossfadeRatio : Q)
    : list EnhancedBeatData :=
  let midPoint := Qfloor (qnat (List.length fromBeats) * crossfadeRatio) in
  let crossfadedBeats := js_slice_to fromBeats midPoint ++ js_slice_from toBeats midPoint in
  fold_left (fun acc i =>
      if Z.leb 0 i && Z.ltb i (Z.of_nat (List.length acc))
         && Z.ltb i (Z.of_nat (List.length fromBeats))
      then update_nth (Z.to_nat i)
             (fun b => set_intensity b (crossfadeIntensity fromBeats toBeats midPoint i)) acc
      else acc)
    [midPoint - 1; midPoint; midPoint + 1]%Z crossfadedBeats.

(** [[0, 1, 2, 3].find(lane => !usedLanes.has(lane)) || 1] when there are
    nearby beats, and [1] otherwise; [|| 1] also replaces a found lane 0. *)
Definition anticipationLaneOf (nearbyBeats : list EnhancedBeatData) : Z :=
  if Nat.ltb 0 (List.length nearbyBeats) then
    match find_first (fun l => negb (mem_Z l (map lane nearbyBeats))) [0; 1; 2; 3]%Z with
    | Some l => if Z.eqb l 0 then 1%Z else l
    | None => 1%Z
    end
  else 1%Z.

(** [addAnticipationNotes] *)
Definition addAnticipationNotes (beats : list EnhancedBeatData) (sectionChangeTime : Q)
    : list EnhancedBeatData :=
  let anticipationTime := sectionChangeTime - 0.5 in
  let nearbyBeats := filter (fun b => qlt (Qabs (eb_time b - anticipationTime)) 0.3) beats in
  let anticipationLane := anticipationLaneOf nearbyBeats in
  let anticipationBeat :=
    mkEB anticipationTime 0.3 150 Bass None anticipationLane Sparse Bridge None
         (Some false) (Some 0) (Some "anticipation"%string) None in
  sort_by eb_time (beats ++ [anticipationBeat]).

(* ------------------------------------------------------------------ *)
(** ** Fixed bar patterns: [generateBarPattern] and its builders *)

(** [generateEuclideanRhythm] *)
Fixpoint euclid_loop (hits steps : Q) (n : nat) (bucket : Q) : list bool :=
  match n with
  | O => []
  | S n' =>
      let bucket' := bucket + hits in
      if qle steps bucket' then true :: euclid_loop hits steps n' (bucket' - steps)
      else false :: euclid_loop hits steps n' bucket'
  end.

Definition generateEuclideanRhythm (hits : Q) (steps : nat) : list bool :=
  if qle (qnat steps) hits then repeat true steps
  else euclid_loop hits (qnat steps) steps 0.

(** [selectLaneForEuclidean] *)
Definition selectLaneForEuclidean (step : nat) (hits : Q) (steps : nat) : Z :=
  js_mod (Qfloor (qnat step * 4 / qnat steps)) 4.

(** [getDenseLanePattern] *)
Definition getDenseLanePattern (index : nat) : Z :=
  let patterns := [[0; 1; 2; 3; 2; 1; 0; 3]; [0; 2; 1; 3; 0; 2; 1; 3];
                   [0; 3; 1; 2; 3; 0; 2; 1]]%Z in
  nth (index mod 8) (nth ((index / 8) mod 3) patterns []) 0%Z.

(** The object literal [{ time, intensity, frequency: 440, type, lane,
    pattern, section[, isAccent] }] of the builders. *)
Definition patternBeat (time inten : Q) (sec : SongSection) (ln : Z) (p : PatternType)
    (acc : option bool) : EnhancedBeatData :=
  mkEB time inten 440 (getBeatTypeForSection sec) None ln p sec acc None None None None.

(** [createEuclideanPattern] *)
Definition createEuclideanPattern (g : BeatmapGenerator) (bar : Bar) (sec : SongSection)
    : list EnhancedBeatData :=
  let maxNotes := Qmin (noteCapacity (difficultySettings g)) 8 in
  let hits :=
    if SongSection_eqb sec Chorus && qlt 0.7 (bar_energy bar) then Qmin maxNotes 7
    else if SongSection_eqb sec Intro || SongSection_eqb sec Outro then Qmin maxNotes 3
    else Qmin maxNotes 5 in
  let steps := 16%nat in
  let pattern := generateEuclideanRhythm hits steps in
  let stepDuration := (endTime bar - startTime bar) / qnat steps in
  flat_map (fun '((step, isHit) : nat * bool) =>
      if isHit then
        [patternBeat (startTime bar + qnat step * stepDuration) 0.8 sec
           (selectLaneForEuclidean step hits steps) Euclidean None]
      else [])
    (combine (seq 0 (List.length pattern)) pattern).

(** [createZigzagPattern] *)
Definition createZigzagPattern (g : BeatmapGenerator) (bar : Bar) (sec : SongSection)
    : list EnhancedBeatData :=
  let numBeats := Z.min 6 (Z.max 2 (Qfloor (bar_energy bar * 8))) in
  let beatInterval := (endTime bar - startTime bar) / inject_Z numBeats in
  let lanePattern := [0; 3; 1; 2]%Z in
  map (fun i =>
      patternBeat (startTime bar + qnat i * beatInterval) 0.7 sec
        (nth (i mod List.length lanePattern) lanePattern 0%Z) Zigzag None)
    (seq 0 (Z.to_nat numBeats)).

(** [(60 / this.bpm) / this.speedMultiplier], where [this.bpm] is the
    analysis BPM and [this.speedMultiplier] the constructor's
    [calculateSpeedMultiplier()], at least 0.8.  For [bpm = 0] it is
    [+Infinity] ([None]): then every candidate time is [+Infinity] or [NaN]
    and no comparison [time < bar.endTime] holds. *)
Definition patternBeatDuration (g : BeatmapGenerator) : option Q :=
  if Qeq_bool (bpm (audioAnalysis g)) 0 then None
  else Some (60 / bpm (audioAnalysis g) / gen_speedMultiplier g).

(** [createSyncopatedPattern] *)
Definition createSyncopatedPattern (g : BeatmapGenerator) (bar : Bar) (sec : SongSection)
    : list EnhancedBeatData :=
  match patternBeatDuration g with
  | None => []
  | Some beatDuration =>
      let offBeatTimes := [0.25; 0.75; 1.5; 2.25; 3.0] in
      flat_map (fun '((index, offset) : nat * Q) =>
          let time := startTime bar + offset * beatDuration in
          if qlt time (endTime bar) then
            [patternBeat time 0.6 sec (nth (index mod 5) [1; 2; 0; 3; 1]%Z 0%Z) Syncopated
               (Some (Nat.eqb (index mod 2) 0))]
          else [])
        (combine (seq 0 (List.length offBeatTimes)) offBeatTimes)
  end.

(** [createTripletPattern]: [i = 0, 2] and [j = 0, 1, 2]. *)
Definition createTripletPattern (g : BeatmapGenerator) (bar : Bar) (sec : SongSection)
    : list EnhancedBeatData :=
  match patternBeatDuration g with
  | None => []
  | Some beatDuration =>
      let tripletDuration := beatDuration * 2 / 3 in
      flat_map (fun i =>
          flat_map (fun j =>
              let time := startTime bar + qnat i * beatDuration + qnat j * tripletDuration in
              if qlt time (endTime bar) then
                [patternBeat time (if Nat.eqb j 0 then 0.8 else 0.6) sec
                   (Z.of_nat ((i + j) mod 4)) Triplet (Some (Nat.eqb j 0))]
              else [])
            (seq 0 3))
        [0; 2]%nat
  end.

(** [createSparsePattern] *)
Definition createSparsePattern (g : BeatmapGenerator) (bar : Bar) (sec : SongSection)
    : list EnhancedBeatData :=
  match patternBeatDuration g with
  | None => []
  | Some beatDuration =>
      flat_map (fun '((arrayIndex, beatIndex) : nat * nat) =>
          let time := startTime bar + qnat beatIndex * beatDuration in
          if qlt time (endTime bar) then
            [patternBeat time 0.7 sec (Z.of_nat (arrayIndex * 2)) Sparse None]
          else [])
        (combine (seq 0 2) [0; 2]%nat)
  end.

(** [createDensePattern] *)
Definition createDensePattern (g : BeatmapGenerator) (bar : Bar) (sec : SongSection)
    : list EnhancedBeatData :=
  match patternBeatDuration g with
  | None => []
  | Some beatDuration =>
      let subdivisions := 8%nat in
      flat_map (fun i =>
          let time := startTime bar + qnat i * beatDuration / 2 in
          if qlt time (endTime bar) then
            [patternBeat time (if Nat.eqb (i mod 2) 0 then 0.8 else 0.6) sec
               (getDenseLanePattern i) Dense (Some (Nat.eqb (i mod 4) 0))]
          else [])
        (seq 0 subdivisions)
  end.

(** [generateBarPattern] *)
Definition generateBarPattern (g : BeatmapGenerator) (bar : Bar) (patternType : PatternType)
    (sec : SongSection) : list EnhancedBeatData :=
  match patternType with
  | Euclidean => createEuclideanPattern g bar sec
  | Zigzag => createZigzagPattern g bar sec
  | Syncopated => createSyncopatedPattern g bar sec
  | Triplet => createTripletPattern g bar sec
  | Sparse => createSparsePattern g bar sec
  | Dense => createDensePattern g bar sec
  | Template => createEuclideanPattern g bar sec
  end.

(** A beat a bar pattern may produce: lane 0..3, time inside the bar,
    the bar's section. *)
Definition bar_beat_ok (bar : Bar) (sec : SongSection) (b : EnhancedBeatData) : Prop :=
  lane_ok b /\ startTime bar <= eb_time b < endTime bar /\ section b = sec.

(** A bar as [segmentIntoBars] builds it for the song [a]: inside
    [0 .. duration a], with onsets that come from the song's beats and do
    not start before the bar. *)
Definition bar_ok (a : AudioAnalysisResult) (bar : Bar) : Prop :=
  0 <= startTime bar /\ startTime bar <= endTime bar /\ endTime bar <= duration a /\
  Forall (fun o => startTime bar <= o_time o /\ In (o_beat o) (beats a)) (bar_onsets bar).

(** The numeric fields of a beat generated for the song [a], with a
    timing jitter of at most [j]: the time within [j] of [0 .. duration a],
    the intensity and the frequency those of a beat of the song or the
    defaults 0.5 and 440, the hold duration at most [max 3 (duration a)]. *)
Definition beat_fields_ok (a : AudioAnalysisResult) (j : Q) (b : EnhancedBeatData) : Prop :=
  - j <= eb_time b /\ eb_time b <= duration a + j /\
  (eb_intensity b = 0.5 \/ exists x, In x (beats a) /\ eb_intensity b = intensity x) /\
  (eb_frequency b = 440 \/ exists x, In x (beats a) /\ eb_frequency b = frequency x) /\
  (forall h, holdDuration b = Some h -> h <= Qmax 3 (duration a)).

(* ------------------------------------------------------------------ *)
(** * Proofs *)

(** ** Comparisons *)

Lemma qlt_true (a b : Q) : qlt a b = true <-> a < b.
Proof.
  unfold qlt. rewrite negb_true_iff. split.
  - intro H. apply Qnot_le_lt. intro H'. apply Qle_bool_iff in H'. congruence.
  - intro H. destruct (Qle_bool b a) eqn:E; [|reflexivity].
    apply Qle_bool_iff in E. exfalso. apply (Qlt_not_le a b); assumption.
Qed.

Lemma qlt_false (a b : Q) : qlt a b = false <-> b <= a.
Proof.
  unfold qlt. rewrite negb_false_iff. apply Qle_bool_iff.
Qed.

Lemma qle_true (a b : Q) : qle a b = true <-> a <= b.
Proof. apply Qle_bool_iff. Qed.

Lemma qle_false (a b : Q) : qle a b = false <-> b < a.
Proof.
  unfold qle. split.
  - intro H. apply Qnot_le_lt. intro H'. apply Qle_bool_iff in H'. congruence.
  - intro H. destruct (Qle_bool a b) eqn:E; [|reflexivity].
    apply Qle_bool_iff in E. exfalso. apply (Qlt_not_le b a); assumption.
Qed.

Lemma qnat_S (n : nat) : qnat (S n) == qnat n + 1.
Proof. unfold qnat. rewrite Nat2Z.inj_succ, <- Z.add_1_r, inject_Z_plus. reflexivity. Qed.

Lemma qnat_nonneg (n : nat) : 0 <= qnat n.
Proof. unfold qnat. change 0 with (inject_Z 0). rewrite <- Zle_Qle. lia. Qed.

Lemma qnat_lt (m n : nat) : (m < n)%nat -> qnat m < qnat n.
Proof. intro H. unfold qnat. rewrite <- Zlt_Qlt. lia. Qed.

(** ** The insertion sort sorts *)

Section SortBy.
Variable A : Type.
Variable key : A -> Q.

Definition key_le (x y : A) : Prop := key x <= key y.

Lemma insert_by_hd (y x : A) (r : list A) :
  key_le y x -> HdRel key_le y r -> HdRel key_le y (insert_by key x r).
Proof.
  intros Hyx Hr. destruct r as [|z r']; simpl.
  - constructor. exact Hyx.
  - destruct (qlt (key x) (key z)); constructor; [exact Hyx|].
    inversion Hr; assumption.
Qed.

Lemma insert_by_sorted (x : A) (l : list A) :
  Sorted key_le l -> Sorted key_le (insert_by key x l).
Proof.
  induction l as [|y r IH]; intro Hs; simpl.
  - repeat constructor.
  - inversion Hs as [|? ? Hr Hhd]; subst.
    destruct (qlt (key x) (key y)) eqn:E.
    + apply qlt_true in E. constructor; [exact Hs|].
      constructor. unfold key_le. apply Qlt_le_weak. exact E.
    + apply qlt_false in E. constructor; [apply IH; exact Hr|].
      apply insert_by_hd; assumption.
Qed.

Lemma sort_by_sorted (l : list A) : Sorted key_le (sort_by key l).
Proof.
  unfold sort_by.
  assert (G : forall acc, Sorted key_le acc ->
            Sorted key_le (fold_left (fun acc x => insert_by key x acc) l acc)).
  { induction l as [|x r IH]; intros acc Hacc; simpl; [exact Hacc|].
    apply IH. apply insert_by_sorted. exact Hacc. }
  apply G. constructor.
Qed.

Lemma sorted_adjacent (l : list A) :
  Sorted key_le l ->
  forall i a b, nth_error l i = Some a -> nth_error l (S i) = Some b -> key a <= key b.
Proof.
  induction l as [|x r IH]; intros Hs i a b Ha Hb; [destruct i; discriminate|].
  inversion Hs as [|? ? Hr Hhd]; subst.
  destruct i as [|i]; simpl in Ha, Hb.
  - injection Ha as <-. destruct r as [|y r']; [discriminate|].
    simpl in Hb. injection Hb as <-. inversion Hhd; assumption.
  - eapply IH; eassumption.
Qed.

End SortBy.

(** ** C2: the generated beatmap is in time order *)

(** C2: whenever [generateBeatmap] returns a beat list, every beat's time
    is at most the time of the next beat in the list. *)
Theorem generateBeatmap_sorted (fuel : nat) (g : BeatmapGenerator) (st : GenState)
    (rng : nat -> Q) (bm : list EnhancedBeatData) (st' : GenState)
    (H : generateBeatmap fuel g st rng = Some (bm, st')) :
  forall i a b, nth_error bm i = Some a -> nth_error bm (S i) = Some b ->
    eb_time a <= eb_time b.
Proof.
  unfold generateBeatmap in H.
  destruct (segmentIntoBars fuel (audioAnalysis g) (detectMusicalOnsets (beats (audioAnalysis g))));
    [|discriminate].
  repeat match type of H with
  | context [let '(_, _) := ?p in _] => destruct p
  end.
  injection H as <- _.
  apply sorted_adjacent, sort_by_sorted.
Qed.

Lemma generateBeatmap_sorted_witness :
  exists bm st', generateBeatmap 10 sample_generator initialState sample_rng = Some (bm, st') /\
    (forall i a b, nth_error bm i = Some a -> nth_error bm (S i) = Some b ->
       eb_time a <= eb_time b).
Proof.
  eexists. eexists. split.
  - vm_compute. reflexivity.
  - eapply (generateBeatmap_sorted 10 sample_generator initialState sample_rng).
    vm_compute. reflexivity.
Defined.

(** ** C10: the four frequency bands of the onset classifier *)

Lemma map_filter_cons {A B} (f : A -> B) (p : A -> bool) (x : A) (l : list A) :
  map f (filter p (x :: l)) = (if p x then [f x] else []) ++ map f (filter p l).
Proof. simpl. destruct (p x); reflexivity. Qed.

Lemma perm_interleave4 {A} (a1 a2 a3 a4 x1 x2 x3 x4 : list A) :
  Permutation ((a1 ++ x1) ++ (a2 ++ x2) ++ (a3 ++ x3) ++ (a4 ++ x4))
              ((a1 ++ a2 ++ a3 ++ a4) ++ (x1 ++ x2 ++ x3 ++ x4)).
Proof.
  repeat rewrite <- app_assoc. apply Permutation_app_head.
  eapply perm_trans; [apply Permutation_app_swap_app|]. apply Permutation_app_head.
  rewrite (app_assoc x1 x2).
  eapply perm_trans; [apply Permutation_app_swap_app|]. apply Permutation_app_head.
  rewrite (app_assoc (x1 ++ x2) x3).
  eapply perm_trans; [apply Permutation_app_swap_app|]. apply Permutation_app_head.
  repeat rewrite <- app_assoc. apply Permutation_refl.
Qed.

Lemma bands_of_nonempty (f : Q) : bands_of f <> [].
Proof.
  unfold bands_of.
  destruct (qlt f 250) eqn:E1; [discriminate|]. apply qlt_false in E1.
  destruct (qlt f 500) eqn:E2.
  - rewrite (proj2 (qle_true 150 f))
      by (eapply Qle_trans; [|exact E1]; apply Qle_bool_iff; reflexivity).
    discriminate.
  - apply qlt_false in E2.
    rewrite (proj2 (qle_true 300 f))
      by (eapply Qle_trans; [|exact E2]; apply Qle_bool_iff; reflexivity).
    destruct (qlt f 3000) eqn:E3.
    + destruct (qle 150 f), (qle 2000 f); discriminate.
    + apply qlt_false in E3.
      rewrite (proj2 (qle_true 2000 f))
        by (eapply Qle_trans; [|exact E3]; apply Qle_bool_iff; reflexivity).
      destruct (qle 150 f); discriminate.
Qed.

(** C10: the onsets are, up to order, the input beats each tagged once per
    band that contains its frequency (below 250 Hz: drum; [150, 500): drum;
    [300, 3000): melody; from 2000 Hz: accent); every input beat yields at
    least one onset; a 200 Hz beat yields two drum onsets, and a 400 Hz beat
    a drum onset and a melody onset, so the onset list can be longer than
    the input. *)
Theorem detectMusicalOnsets_bands (raw : list BeatData) :
  Permutation (detectMusicalOnsets raw)
              (flat_map (fun b => map (mkOnset b) (bands_of (frequency b))) raw) /\
  (forall b, In b raw -> exists ty, In (mkOnset b ty) (detectMusicalOnsets raw)) /\
  (forall t i ty d, detectMusicalOnsets [mkBeatData t i 200 ty d] =
     [mkOnset (mkBeatData t i 200 ty d) Drum; mkOnset (mkBeatData t i 200 ty d) Drum]) /\
  (forall t i ty d, detectMusicalOnsets [mkBeatData t i 400 ty d] =
     [mkOnset (mkBeatData t i 400 ty d) Drum; mkOnset (mkBeatData t i 400 ty d) Melody]).
Proof.
  assert (P : forall raw, Permutation (detectMusicalOnsets raw)
              (flat_map (fun b => map (mkOnset b) (bands_of (frequency b))) raw)).
  { induction raw0 as [|b r IH]; [apply perm_nil|].
    unfold detectMusicalOnsets in *. cbv zeta in *.
    rewrite !map_filter_cons. simpl flat_map.
    eapply perm_trans; [apply perm_interleave4|].
    apply Permutation_app; [|exact IH].
    unfold bands_of. rewrite !map_app.
    destruct (qlt (frequency b) 250), (qle 150 (frequency b) && qlt (frequency b) 500),
             (qle 300 (frequency b) && qlt (frequency b) 3000), (qle 2000 (frequency b));
      apply Permutation_refl. }
  split; [apply P|]. split; [|split; reflexivity].
  intros b Hb.
  destruct (bands_of (frequency b)) as [|ty tys] eqn:E;
    [exfalso; exact (bands_of_nonempty _ E)|].
  exists ty. eapply Permutation_in; [apply Permutation_sym, P|].
  apply in_flat_map. exists b. split; [exact Hb|]. rewrite E. left. reflexivity.
Qed.

Lemma detectMusicalOnsets_bands_witness :
  In (mkBeatData 1 1 400 Kick None) [mkBeatData 1 1 400 Kick None] /\
  exists ty, In (mkOnset (mkBeatData 1 1 400 Kick None) ty)
                (detectMusicalOnsets [mkBeatData 1 1 400 Kick None]).
Proof.
  split; [left; reflexivity|].
  apply (proj1 (proj2 (detectMusicalOnsets_bands [mkBeatData 1 1 400 Kick None]))).
  left. reflexivity.
Defined.

(** ** C6: the repetition test of the pattern memory *)

(** C6: for a bar of at least [ngramSize] beats whose key (its first
    [ngramSize] beats) is recorded in the memory, the bar is flagged as
    repetitive when the record was last used one beat ago and the minimum
    distance exceeds 1, and it is not flagged when the record was last used
    [minRepetitionDistance + 1] beats ago and has been used once. *)
Theorem wouldBeRepetitive_distance (m : PatternMemory) (bs : list EnhancedBeatData)
    (p : PatternNGram)
    (Hlen : (ngramSize (pm_config m) <= List.length bs)%nat)
    (Hfound : find_first (fun q => String.eqb (sequence q) (createSequenceKey (pm_config m) bs))
                (patternHistory m) = Some p) :
  ((beatCounter m - lastUsed p = 1)%Z -> (1 < minRepetitionDistance (pm_config m))%Z ->
     wouldBeRepetitive m bs = true) /\
  ((beatCounter m - lastUsed p = minRepetitionDistance (pm_config m) + 1)%Z ->
     pfrequency p = 1%Z -> wouldBeRepetitive m bs = false).
Proof.
  unfold wouldBeRepetitive.
  destruct (Nat.ltb_spec (List.length bs) (ngramSize (pm_config m))) as [Hlt|_]; [lia|].
  cbv zeta. rewrite Hfound. split.
  - intros Hd Hmin. rewrite Hd. apply orb_true_iff. left. apply Z.ltb_lt. exact Hmin.
  - intros Hd Hf. rewrite Hd, Hf. apply orb_false_iff. split.
    + apply Z.ltb_ge. lia.
    + reflexivity.
Qed.

Lemma wouldBeRepetitive_distance_witness :
  (wouldBeRepetitive (mkPM (patternHistory sample_memory) 1 generatorMemoryConfig) sample_bar
     = true) /\
  (wouldBeRepetitive (mkPM (patternHistory sample_memory) 17 generatorMemoryConfig) sample_bar
     = false).
Proof.
  split.
  - eapply (proj1 (wouldBeRepetitive_distance
                     (mkPM (patternHistory sample_memory) 1 generatorMemoryConfig) sample_bar
                     (mkNGram (createSequenceKey generatorMemoryConfig sample_bar) 1 0 Intro 0.5)
                     ltac:(vm_compute; lia) ltac:(vm_compute; reflexivity)));
      vm_compute; reflexivity.
  - eapply (proj2 (wouldBeRepetitive_distance
                     (mkPM (patternHistory sample_memory) 17 generatorMemoryConfig) sample_bar
                     (mkNGram (createSequenceKey generatorMemoryConfig sample_bar) 1 0 Intro 0.5)
                     ltac:(vm_compute; lia) ltac:(vm_compute; reflexivity)));
      vm_compute; reflexivity.
Defined.

(** ** The bar loop *)

Section BarsLoop.
Variable onsets : list Onset.
Variable dur : Q.

(** With a non-positive bar length, a loop that has started never stops. *)
Lemma bars_loop_stuck (d : Q) (Hd : d <= 0) :
  forall fuel t, t < dur -> bars_loop fuel onsets (Some d) dur t = None.
Proof.
  induction fuel as [|f IH]; intros t Ht; [reflexivity|].
  simpl. rewrite (proj2 (qlt_true t dur) Ht).
  rewrite IH; [reflexivity|].
  apply Qle_lt_trans with t; [|exact Ht].
  rewrite <- (Qplus_0_r t) at 2. apply Qplus_le_r. exact Hd.
Qed.

(** With a positive bar length, [n + 1] rounds suffice once [n] bars reach
    the duration. *)
Lemma bars_loop_terminates (d : Q) (Hd : 0 < d) :
  forall n t, dur <= t + qnat n * d ->
    exists bars, bars_loop (S n) onsets (Some d) dur t = Some bars.
Proof.
  induction n as [|n IH]; intros t Ht.
  - simpl. replace (qlt t dur) with false; [eexists; reflexivity|].
    symmetry. apply qlt_false. eapply Qle_trans; [exact Ht|].
    unfold qnat. simpl. rewrite Qmult_0_l, Qplus_0_r. apply Qle_refl.
  - destruct (IH (t + d)) as [bars Hb].
    + eapply Qle_trans; [exact Ht|]. rewrite qnat_S. apply Qle_lteq. right. ring.
    + remember (S n) as k. simpl. rewrite Hb.
      destruct (qlt t dur); eexists; reflexivity.
Qed.

Lemma chain_start (a a' b : Q) (l : list (Q * Q)) :
  a == a' -> chain a l b -> chain a' l b.
Proof.
  intros Ha H. destruct l as [|[s e] r]; simpl in *.
  - rewrite <- Ha. exact H.
  - destruct H as (H1 & H2 & H3). split; [rewrite H1; exact Ha|]. split; assumption.
Qed.

(** The bars of a finished loop with a positive bar length: the k-th one
    starts at [t + k d] and ends at [min (start + d) dur], and when [t] is
    before [dur] their windows partition [[t, dur]]. *)
Lemma bars_loop_shape (d : Q) (Hd : 0 < d) :
  forall fuel t bars, bars_loop fuel onsets (Some d) dur t = Some bars ->
    (t < dur -> partitions t dur (map bar_window bars)) /\
    (forall k b, nth_error bars k = Some b ->
       startTime b == t + qnat k * d /\ endTime b = Qmin (startTime b + d) dur).
Proof.
  induction fuel as [|f IH]; intros t bars H; [discriminate|].
  simpl in H. destruct (qlt t dur) eqn:Et.
  - apply qlt_true in Et.
    destruct (bars_loop f onsets (Some d) dur (t + d)) as [rest|] eqn:Er; [|discriminate].
    injection H as <-. destruct (IH _ _ Er) as [IHp IHn]. split.
    + intros _. split; [discriminate|]. simpl. split; [apply Qeq_refl|]. split.
      * apply Q.min_glb_lt; [|exact Et].
        rewrite <- (Qplus_0_r t) at 1. apply Qplus_lt_r. exact Hd.
      * destruct (Q.min_spec (t + d) dur) as [[Hlt Hm]|[Hle Hm]].
        -- apply chain_start with (t + d); [rewrite Hm; apply Qeq_refl|].
           apply IHp. exact Hlt.
        -- destruct f as [|f']; [discriminate|].
           simpl in Er. rewrite (proj2 (qlt_false _ _) Hle) in Er.
           injection Er as <-. simpl. exact Hm.
    + intros k b Hk. destruct k as [|k]; simpl in Hk.
      * injection Hk as <-. simpl. split; [|reflexivity].
        unfold qnat. simpl. ring.
      * destruct (IHn _ _ Hk) as [H1 H2]. split; [|exact H2].
        rewrite H1, qnat_S. ring.
  - injection H as <-. split.
    + intro Ht. apply qlt_true in Ht. congruence.
    + intros k b Hk. destruct k; discriminate.
Qed.

End BarsLoop.

Lemma bar_length_pos (b : Q) : 0 < b -> 0 < (60 / b) * beatsPerBar.
Proof.
  intro Hb. unfold beatsPerBar, Qdiv. apply Qmult_lt_0_compat; [|reflexivity].
  apply Qmult_lt_0_compat; [reflexivity|]. apply Qinv_lt_0_compat. exact Hb.
Qed.

Lemma bar_length_neg (b : Q) : b < 0 -> (60 / b) * beatsPerBar <= 0.
Proof.
  intro Hb. unfold beatsPerBar, Qdiv.
  assert (Hi : 0 < / - b) by (apply Qinv_lt_0_compat; rewrite <- (Qopp_opp 0);
                              apply Qopp_lt_compat; exact Hb).
  assert (Hnz : ~ b == 0) by (intro Hz; rewrite Hz in Hb; apply (Qlt_irrefl 0); exact Hb).
  assert (E : 60 * / b * 4 == - (240 * / - b)).
  { field. exact Hnz. }
  rewrite E. rewrite <- (Qopp_opp 0). apply Qopp_le_compat.
  apply Qlt_le_weak. apply Qmult_lt_0_compat; [reflexivity|exact Hi].
Qed.

Lemma barDurationOf_pos (b : Q) : 0 < b -> barDurationOf b beatsPerBar = Some ((60 / b) * beatsPerBar).
Proof.
  intro Hb. unfold barDurationOf. destruct (Qeq_bool b 0) eqn:E; [|reflexivity].
  apply Qeq_bool_iff in E. rewrite E in Hb. discriminate.
Qed.

Lemma barDurationOf_neg (b : Q) : b < 0 -> barDurationOf b beatsPerBar = Some ((60 / b) * beatsPerBar).
Proof.
  intro Hb. unfold barDurationOf. destruct (Qeq_bool b 0) eqn:E; [|reflexivity].
  apply Qeq_bool_iff in E. rewrite E in Hb. discriminate.
Qed.

(** Enough rounds for the loop from 0 with a positive bar length. *)
Lemma bars_enough (d dur : Q) (Hd : 0 < d) :
  dur <= 0 + qnat (Z.to_nat (Qceiling (dur / d))) * d \/ dur <= 0.
Proof.
  destruct (Qlt_le_dec 0 dur) as [Hp|Hn]; [left|right; exact Hn].
  rewrite Qplus_0_l.
  assert (Hc : (0 <= Qceiling (dur / d))%Z).
  { rewrite Zle_Qle. eapply Qle_trans; [|apply Qle_ceiling].
    apply Qlt_le_weak. unfold Qdiv. apply Qmult_lt_0_compat; [exact Hp|].
    apply Qinv_lt_0_compat. exact Hd. }
  unfold qnat. rewrite Z2Nat.id by exact Hc.
  apply Qle_trans with ((dur / d) * d).
  - unfold Qdiv. rewrite <- Qmult_assoc, (Qmult_comm (/ d)), Qmult_inv_r.
    + rewrite Qmult_1_r. apply Qle_refl.
    + intro E. rewrite E in Hd. discriminate.
  - apply Qmult_le_r; [exact Hd|]. apply Qle_ceiling.
Qed.

(** A finished loop has one result, whatever the fuel. *)
Lemma bars_loop_det (onsets : list Onset) (bd : option Q) (dur : Q) :
  forall f1 f2 t r1 r2, bars_loop f1 onsets bd dur t = Some r1 ->
    bars_loop f2 onsets bd dur t = Some r2 -> r1 = r2.
Proof.
  induction f1 as [|f1 IH]; intros f2 t r1 r2 H1 H2; [discriminate|].
  destruct f2 as [|f2]; [discriminate|]. simpl in H1, H2.
  destruct (qlt t dur); [|congruence].
  destruct bd as [d|]; [|congruence].
  destruct (bars_loop f1 onsets (Some d) dur (t + d)) eqn:E1; [|discriminate].
  destruct (bars_loop f2 onsets (Some d) dur (t + d)) eqn:E2; [|discriminate].
  rewrite (IH _ _ _ _ E1 E2) in H1. congruence.
Qed.

(** ** C4: the bars cover the song *)

(** C4: for BPM > 0 and duration > 0 the bar loop finishes; the k-th bar
    starts at [k * (60 / BPM) * 4] and ends one bar length later, cut at
    the duration, so the bar windows follow each other without gap or
    overlap from 0 to the duration; at 120 BPM over 8 s the bars are
    exactly [0, 2), [2, 4), [4, 6), [6, 8). *)
Theorem segmentIntoBars_cover (a : AudioAnalysisResult) (onsets : list Onset)
    (Hbpm : 0 < bpm a) (Hdur : 0 < duration a) :
  (exists fuel bars, segmentIntoBars fuel a onsets = Some bars) /\
  (forall fuel bars, segmentIntoBars fuel a onsets = Some bars ->
     partitions 0 (duration a) (map bar_window bars) /\
     (forall k b, nth_error bars k = Some b ->
        startTime b == qnat k * ((60 / bpm a) * beatsPerBar) /\
        endTime b = Qmin (startTime b + (60 / bpm a) * beatsPerBar) (duration a))) /\
  (forall bs en fuel bars, segmentIntoBars fuel (mkAnalysis 120 bs 8 en) onsets = Some bars ->
     map (fun b => (Qred (startTime b), Qred (endTime b))) bars = [(0, 2); (2, 4); (4, 6); (6, 8)]).
Proof.
  pose proof (bar_length_pos _ Hbpm) as Hd.
  unfold segmentIntoBars. rewrite (barDurationOf_pos _ Hbpm).
  split; [|split].
  - destruct (bars_enough ((60 / bpm a) * beatsPerBar) (duration a) Hd) as [H|H].
    + destruct (bars_loop_terminates onsets (duration a) _ Hd _ 0 H) as [bars Hb].
      exists (S (Z.to_nat (Qceiling (duration a / ((60 / bpm a) * beatsPerBar))))), bars.
      exact Hb.
    + exfalso. apply (Qlt_not_le _ _ Hdur H).
  - intros fuel bars Hb. destruct (bars_loop_shape onsets (duration a) _ Hd _ _ _ Hb) as [P N].
    split; [apply P; exact Hdur|].
    intros k b Hk. destruct (N k b Hk) as [N1 N2]. split; [|exact N2].
    rewrite N1. ring.
  - intros bs en fuel bars Hb.
    assert (H5 : exists r, bars_loop 5 onsets (barDurationOf 120 beatsPerBar) 8 0 = Some r)
      by (eexists; reflexivity).
    destruct H5 as [r Hr].
    rewrite (bars_loop_det _ _ _ _ _ _ _ _ Hb Hr).
    revert Hr. vm_compute. intro Hr. injection Hr as <-. reflexivity.
Qed.

Lemma segmentIntoBars_cover_witness :
  exists fuel bars, segmentIntoBars fuel sample_analysis [] = Some bars.
Proof.
  exact (proj1 (segmentIntoBars_cover sample_analysis [] ltac:(reflexivity) ltac:(reflexivity))).
Defined.

(** ** C1: degenerate inputs *)

Lemma sustained_fold_nil (ds : DifficultySettings) (rng : nat -> Q) :
  forall pairs recent r, fst (fst (fold_left (sustained_step ds rng) pairs ([], recent, r))) = [].
Proof.
  induction pairs as [|[cur nxt] rest IH]; intros recent r; [reflexivity|].
  simpl fold_left. unfold sustained_step at 1. simpl.
  destruct (qlt 1 (time nxt - time cur) && qlt (time nxt - time cur) 4); apply IH.
Qed.

Lemma postProcess_nil (g : BeatmapGenerator) (rng : nat -> Q) (r : nat) :
  fst (postProcessWithHolds g rng [] r) = [].
Proof.
  unfold postProcessWithHolds, addSustainedHolds. simpl sort_by. simpl spacing_filter.
  match goal with |- context [fold_left (sustained_step ?ds ?rng) ?ps ([], [], ?r)] =>
    pose proof (sustained_fold_nil ds rng ps [] r) as E;
    destruct (fold_left (sustained_step ds rng) ps ([], [], r)) as [[bm recent] r1]
  end.
  simpl in E. subst bm. reflexivity.
Qed.

(** Once the bars are there, [generateBeatmap] returns. *)
Lemma generateBeatmap_some (fuel : nat) (g : BeatmapGenerator) (st : GenState)
    (rng : nat -> Q) (bars : list Bar) :
  segmentIntoBars fuel (audioAnalysis g) (detectMusicalOnsets (beats (audioAnalysis g)))
    = Some bars ->
  exists res, generateBeatmap fuel g st rng = Some res.
Proof.
  intro H. unfold generateBeatmap. rewrite H.
  repeat match goal with
  | |- context [let '(_, _) := ?p in _] => destruct p
  end.
  eexists. reflexivity.
Qed.

(** A song of 8 s at -120 BPM with no beats and no energy values. *)
Definition negative_bpm_generator : BeatmapGenerator :=
  newBeatmapGenerator (mkAnalysis (-120) [] 8 []) sample_settings.

(** A negative BPM, which neither analyzer produces (both clamp the BPM
    to 60..200), makes the bar loop of a song of positive duration run
    forever: [generateBeatmap] then returns for no amount of fuel. *)
Lemma generateBeatmap_negative_bpm_diverges :
  ~ exists fuel res, generateBeatmap fuel negative_bpm_generator initialState sample_rng = Some res.
Proof.
  intros (fuel & res & H). unfold generateBeatmap, segmentIntoBars in H.
  simpl audioAnalysis in H. simpl bpm in H. simpl duration in H.
  rewrite (barDurationOf_neg (-120)) in H by reflexivity.
  rewrite (bars_loop_stuck _ 8 _ (bar_length_neg (-120) ltac:(reflexivity)) fuel 0 ltac:(reflexivity))
    in H.
  discriminate.
Qed.

(** ** Chains of intervals *)

Lemma chain_app (a m b : Q) (l1 l2 : list (Q * Q)) :
  chain a l1 m -> chain m l2 b -> chain a (l1 ++ l2) b.
Proof.
  revert a. induction l1 as [|[s e] r IH]; intros a H1 H2; simpl in *.
  - apply chain_start with m; [apply Qeq_sym; exact H1|exact H2].
  - destruct H1 as (Hs & Hse & Hr). split; [exact Hs|]. split; [exact Hse|].
    apply IH; assumption.
Qed.

(** In a chain the intervals start in strictly increasing order. *)
Lemma chain_sorted (a b : Q) (l : list (Q * Q)) :
  chain a l b -> Sorted (fun x y => fst x < fst y) l.
Proof.
  revert a. induction l as [|[s e] r IH]; intros a H; [constructor|].
  simpl in H. destruct H as (_ & Hse & Hr). constructor; [apply (IH e); exact Hr|].
  destruct r as [|[s' e'] r']; constructor. simpl in *.
  destruct Hr as (Hs' & _). rewrite Hs'. exact Hse.
Qed.

(** ** C3: the sections partition the song *)

Lemma frac_lt (x y : nat) (len : nat) (d : Q) :
  (x < y)%nat -> (0 < len)%nat -> 0 < d ->
  qnat x / qnat len * d < qnat y / qnat len * d.
Proof.
  intros Hxy Hl Hd. apply Qmult_lt_r; [exact Hd|].
  unfold Qdiv. apply Qmult_lt_r; [|apply qnat_lt; exact Hxy].
  apply Qinv_lt_0_compat. apply (qnat_lt 0). exact Hl.
Qed.

Lemma frac_zero (len : nat) (d : Q) : qnat 0 / qnat len * d == 0.
Proof. unfold qnat, Qdiv. simpl. ring. Qed.

Lemma frac_one (len : nat) (d : Q) : (0 < len)%nat -> qnat len / qnat len * d == d.
Proof.
  intro Hl. unfold Qdiv. rewrite Qmult_inv_r; [ring|].
  intro E. pose proof (qnat_lt 0 len Hl) as H. rewrite E in H.
  apply (Qlt_irrefl 0). exact H.
Qed.

Section Structure.
Variable energy_ : list Q.
Variable dur : Q.
Hypothesis Hdur : 0 < dur.
Variable w : nat.
Hypothesis Hw : (0 < w)%nat.

(** The sections closed so far run from 0 to the current start, which is 0
    or the time position of an index already visited. *)
Definition struct_inv (i : nat) (st : StructState) : Prop :=
  chain 0 (map section_window (ss_sections st)) (ss_start st) /\
  (ss_start st == 0 \/
   exists j, (j < i)%nat /\ (j < List.length energy_)%nat /\
             ss_start st == qnat j / qnat (List.length energy_) * dur).

Lemma struct_inv_step (i : nat) (st : StructState) :
  (0 < i)%nat -> (i < List.length energy_ - w)%nat -> struct_inv i st ->
  struct_inv (i + w) (structure_step energy_ dur w i st).
Proof.
  intros Hi Hlt [Hc Hs]. set (len := List.length energy_) in *.
  assert (Hlen : (0 < len)%nat) by lia.
  unfold structure_step. fold len.
  destruct (qlt energyThreshold _).
  - split.
    + simpl. rewrite map_app. apply chain_app with (ss_start st); [exact Hc|].
      simpl. split; [apply Qeq_refl|]. split; [|apply Qeq_refl].
      destruct Hs as [H0|(j & Hj & _ & Hjs)].
      * rewrite H0, <- (frac_zero len dur). apply frac_lt; [exact Hi|exact Hlen|exact Hdur].
      * rewrite Hjs. apply frac_lt; [exact Hj|exact Hlen|exact Hdur].
    + right. exists i. simpl. split; [lia|]. split; [lia|]. apply Qeq_refl.
  - split; [exact Hc|].
    destruct Hs as [H0|(j & Hj & Hjl & Hjs)]; [left; exact H0|].
    right. exists j. split; [lia|]. split; assumption.
Qed.

Lemma struct_inv_loop :
  forall fuel i st, (0 < i)%nat -> struct_inv i st ->
    exists i', struct_inv i' (structure_loop fuel energy_ dur w i st).
Proof.
  induction fuel as [|f IH]; intros i st Hi Hinv; [exists i; exact Hinv|].
  simpl. destruct (Nat.ltb_spec i (List.length energy_ - w)) as [Hlt|_];
    [|exists i; exact Hinv].
  apply IH; [lia|]. apply struct_inv_step; assumption.
Qed.

Lemma struct_inv_before_end (i : nat) (st : StructState) :
  struct_inv i st -> ss_start st < dur.
Proof.
  intros [_ [H0|(j & _ & Hj & Hjs)]].
  - rewrite H0. exact Hdur.
  - rewrite Hjs. rewrite <- (frac_one (List.length energy_) dur) at 2 by lia.
    apply frac_lt; [exact Hj|lia|exact Hdur].
Qed.

End Structure.

(** C3: for a positive duration, the sections of [analyzeSongStructure]
    follow each other without gap or overlap: the first starts at 0, each
    one starts where the previous one ends, each is non-empty, the last
    ends at the duration, and their start times increase. *)
Theorem analyzeSongStructure_partition (duration_ : Q) (energy_ : list Q)
    (Hdur : 0 < duration_) :
  partitions 0 duration_ (map section_window (analyzeSongStructure duration_ energy_)) /\
  Sorted (fun x y => fst x < fst y) (map section_window (analyzeSongStructure duration_ energy_)).
Proof.
  assert (P : partitions 0 duration_ (map section_window (analyzeSongStructure duration_ energy_))).
  { unfold analyzeSongStructure. cbv zeta.
    set (w := Nat.max 10 (List.length energy_ / 20)).
    assert (Hw : (0 < w)%nat) by lia.
    destruct (struct_inv_loop energy_ duration_ Hdur w Hw (List.length energy_) w
                (mkSS [] 0 Intro (windowMean energy_ 0 w)) Hw)
      as [i' Hinv].
    { split; [apply Qeq_refl|left; apply Qeq_refl]. }
    set (st := structure_loop _ _ _ _ _ _) in *.
    rewrite map_app. split.
    - intro E. apply app_eq_nil in E. destruct E as [_ E]. discriminate.
    - apply chain_app with (ss_start st); [apply Hinv|].
      simpl. split; [apply Qeq_refl|]. split; [|apply Qeq_refl].
      eapply struct_inv_before_end; eassumption. }
  split; [exact P|]. eapply chain_sorted. apply P.
Qed.

Lemma analyzeSongStructure_partition_witness :
  partitions 0 40 (map section_window (analyzeSongStructure 40 (repeat (1#2) 40))).
Proof.
  apply (proj1 (analyzeSongStructure_partition 40 (repeat (1#2) 40) ltac:(reflexivity))).
Defined.

(** ** C5: a flat energy profile *)

Lemma skipn_repeat_eq {A} (x : A) : forall i n, skipn i (repeat x n) = repeat x (n - i).
Proof.
  induction i as [|i IH]; intro n; [rewrite Nat.sub_0_r; reflexivity|].
  destruct n as [|n]; [reflexivity|]. simpl. apply IH.
Qed.

Lemma firstn_repeat_eq {A} (x : A) : forall w n, firstn w (repeat x n) = repeat x (Nat.min w n).
Proof.
  induction w as [|w IH]; intro n; [reflexivity|].
  destruct n as [|n]; [reflexivity|]. simpl. f_equal. apply IH.
Qed.

Lemma fold_plus_repeat (x : Q) : forall k acc, fold_left Qplus (repeat x k) acc == acc + qnat k * x.
Proof.
  induction k as [|k IH]; intro acc; simpl.
  - unfold qnat. simpl. ring.
  - rewrite IH, qnat_S. ring.
Qed.

Lemma windowMean_repeat (x : Q) (n i w : nat) :
  (0 < w)%nat -> (i + w <= n)%nat -> windowMean (repeat x n) i w == x.
Proof.
  intros Hw Hn. unfold windowMean, sumQ.
  rewrite skipn_repeat_eq, firstn_repeat_eq.
  replace (Nat.min w (n - i)) with w by lia.
  rewrite fold_plus_repeat. unfold Qdiv. rewrite Qplus_0_l.
  rewrite (Qmult_comm (qnat w)), <- Qmult_assoc, Qmult_inv_r; [ring|].
  intro E. pose proof (qnat_lt 0 w Hw) as H. rewrite E in H. apply (Qlt_irrefl 0). exact H.
Qed.

Lemma structure_loop_flat (x d : Q) (n w : nat) (Hw : (0 < w)%nat) :
  forall fuel i,
    structure_loop fuel (repeat x n) d w i (mkSS [] 0 Intro (windowMean (repeat x n) 0 w))
    = mkSS [] 0 Intro (windowMean (repeat x n) 0 w).
Proof.
  induction fuel as [|f IH]; intro i; [reflexivity|].
  simpl. destruct (Nat.ltb_spec i (List.length (repeat x n) - w)) as [Hlt|_]; [|reflexivity].
  rewrite repeat_length in Hlt.
  unfold structure_step at 1. cbn [ss_lastEnergy].
  replace (qlt energyThreshold _) with false; [apply IH|].
  symmetry. apply qlt_false.
  rewrite (windowMean_repeat x n i w Hw) by lia.
  rewrite (windowMean_repeat x n 0 w Hw) by lia.
  setoid_replace (x - x) with 0 by ring. apply Qle_bool_iff. reflexivity.
Qed.

(** C5 fails: a 40 s song with 40 energy values all 0.5 gets a single
    section, not an intro, a verse and an outro. *)
Lemma analyzeSongStructure_flat_not_three :
  ~ exists s1 s2 s3,
      analyzeSongStructure 40 (repeat (1#2) 40) = [s1; s2; s3] /\
      s_type s1 = Intro /\ s_type s2 = Verse /\ s_type s3 = Outro.
Proof.
  intros (s1 & s2 & s3 & H & _). vm_compute in H. discriminate.
Qed.

(** C5 (amended): over a 40 s song whose energy values are all 0.5, of any
    number, [analyzeSongStructure] yields one section, from 0 to 40,
    classified intro. *)
Theorem analyzeSongStructure_flat (n : nat) :
  map (fun s => (s_start s, s_end s, s_type s)) (analyzeSongStructure 40 (repeat (1#2) n))
  = [(0, 40, Intro)].
Proof.
  unfold analyzeSongStructure. cbv zeta.
  rewrite structure_loop_flat by lia. reflexivity.
Qed.

Lemma analyzeSongStructure_flat_witness :
  map (fun s => (s_start s, s_end s, s_type s)) (analyzeSongStructure 40 (repeat (1#2) 40))
  = [(0, 40, Intro)].
Proof. exact (analyzeSongStructure_flat 40). Defined.

(** ** C8: the anti-repetition variation *)

(** C8 code bug: [applyAntiRepetitionVariations] ignores its [section]
    argument.  The intro bar [sample_bar], flagged by the memory that
    recorded it, gets in every section the same lane rotation: no timing
    jitter (intro, outro), no beat insertion or removal (chorus, bridge),
    no hold/tap flip (bridge); times, hold flags and the bar length are
    kept and the lanes 0, 1, 2, 3 become 1, 2, 3, 0. *)
Theorem antiRepetition_ignores_section :
  wouldBeRepetitive sample_memory sample_bar = true /\
  forall sec,
    map eb_time (antiRepetitionStep sample_memory sample_bar sec) = map eb_time sample_bar /\
    map isHold (antiRepetitionStep sample_memory sample_bar sec) = map isHold sample_bar /\
    map lane (antiRepetitionStep sample_memory sample_bar sec) = [1; 2; 3; 0]%Z /\
    antiRepetitionStep sample_memory sample_bar sec =
      antiRepetitionStep sample_memory sample_bar Intro.
Proof.
  split; [vm_compute; reflexivity|].
  intro sec. destruct sec; vm_compute; repeat split.
Qed.

(** ** C9: hold variations *)

Lemma mapi_from_length {A B} (f : nat -> A -> B) :
  forall l k, List.length (mapi_from f k l) = List.length l.
Proof. induction l as [|x r IH]; intro k; simpl; [reflexivity|]. rewrite IH. reflexivity. Qed.

Lemma mapi_from_nth {A B} (f : nat -> A -> B) :
  forall l k i, nth_error (mapi_from f k l) i = option_map (f (k + i)%nat) (nth_error l i).
Proof.
  induction l as [|x r IH]; intros k i; [destruct i; reflexivity|].
  destruct i as [|i]; simpl.
  - rewrite Nat.add_0_r. reflexivity.
  - rewrite IH. f_equal. f_equal. lia.
Qed.

(** C9 fails: a verse hold beat whose hold duration is 0 comes out with a
    hold duration of 0.5, not [min(0, 2) = 0]. *)
Lemma applyHoldVariations_zero_hold :
  ~ exists d, map holdDuration (applyHoldVariations sample_morph [zero_hold_beat]) = [Some d] /\
              d == Qmin 0 2.
Proof.
  intros (d & H & Hd). vm_compute in H. injection H as <-.
  vm_compute in Hd. discriminate.
Qed.

(** C9 (amended): with hold variations on, the list keeps its length; a
    beat that is not a hold beat is unchanged; a hold beat keeps every field
    but its hold duration and template name, and its hold duration becomes
    [min(d * 1.2, 2)] in a chorus or bridge and [min(d, 2)] elsewhere, where
    [d] is its previous hold duration when that is set and not 0, and 0.5
    when it is unset or 0; so no hold beat comes out with a hold duration
    above 2. *)
Theorem applyHoldVariations_durations (cfg : MorphingConfig) (bs : list EnhancedBeatData)
    (Hon : holdVariations cfg = true) :
  List.length (applyHoldVariations cfg bs) = List.length bs /\
  forall i b, nth_error bs i = Some b ->
    exists b', nth_error (applyHoldVariations cfg bs) i = Some b' /\
      (truthy (isHold b) = false -> b' = b) /\
      (truthy (isHold b) = true ->
         isHold b' = isHold b /\
         set_hold b' (isHold b) (holdDuration b) (templateName b) = b /\
         exists d,
           ((holdDuration b = None \/ (exists h, holdDuration b = Some h /\ h == 0)) /\ d = 0.5 \/
            (holdDuration b = Some d /\ ~ d == 0)) /\
           holdDuration b' = Some (match section b with
                                   | Chorus | Bridge => Qmin (d * 1.2) 2
                                   | _ => Qmin d 2
                                   end) /\
           exists h', holdDuration b' = Some h' /\ h' <= 2).
Proof.
  unfold applyHoldVariations, mapi. rewrite Hon. simpl negb. cbv iota.
  split; [apply mapi_from_length|].
  intros i b Hb. rewrite mapi_from_nth, Hb. simpl option_map.
  eexists. split; [reflexivity|]. simpl plus.
  split; [intro Hh; rewrite Hh; reflexivity|].
  intro Hh. rewrite Hh.
  split; [reflexivity|].
  split; [destruct b; reflexivity|].
  exists (or_opt_num (holdDuration b) 0.5). split; [|split].
  - unfold or_opt_num, or_num. destruct (holdDuration b) as [h|].
    + destruct (Qeq_bool h 0) eqn:E.
      * left. split; [right; exists h; split; [reflexivity|apply Qeq_bool_iff; exact E]|reflexivity].
      * right. split; [reflexivity|]. intro E'. apply Qeq_bool_iff in E'. congruence.
    + left. split; [left; reflexivity|reflexivity].
  - simpl. destruct (section b); reflexivity.
  - eexists. split; [reflexivity|]. apply Q.le_min_r.
Qed.

Lemma applyHoldVariations_durations_witness :
  exists b', nth_error (applyHoldVariations sample_morph [zero_hold_beat]) 0 = Some b' /\
    (truthy (isHold zero_hold_beat) = false -> b' = zero_hold_beat) /\
    (truthy (isHold zero_hold_beat) = true ->
       isHold b' = isHold zero_hold_beat /\
       set_hold b' (isHold zero_hold_beat) (holdDuration zero_hold_beat)
         (templateName zero_hold_beat) = zero_hold_beat /\
       exists d,
         ((holdDuration zero_hold_beat = None \/
           (exists h, holdDuration zero_hold_beat = Some h /\ h == 0)) /\ d = 0.5 \/
          (holdDuration zero_hold_beat = Some d /\ ~ d == 0)) /\
         holdDuration b' = Some (match section zero_hold_beat with
                                 | Chorus | Bridge => Qmin (d * 1.2) 2
                                 | _ => Qmin d 2
                                 end) /\
         exists h', holdDuration b' = Some h' /\ h' <= 2).
Proof.
  apply (proj2 (applyHoldVariations_durations sample_morph [zero_hold_beat] eq_refl) 0%nat).
  reflexivity.
Defined.

(** ** C7: the quality score of an empty beatmap *)

(** C7 fails on the empty beat list: the lane balance divides 0 by
    [beats.length = 0], the NaN reaches the total, and the quality score is
    NaN, not an integer in [0, 100]. *)
Theorem generateQualityScore_empty_nan :
  JSNum.generateQualityScore (JSNum.analyze []) = JSNum.NaN /\
  ~ JSNum.is_score (JSNum.generateQualityScore (JSNum.analyze [])).
Proof.
  assert (E : JSNum.generateQualityScore (JSNum.analyze []) = JSNum.NaN)
    by (vm_compute; reflexivity).
  split; [exact E|]. rewrite E. intros (z & Hz & _). discriminate.
Qed.

(* ------------------------------------------------------------------ *)
(** * Further properties of the generator *)

(** ** List helpers *)

Lemma update_nth_Forall {A} (P : A -> Prop) (f : A -> A) :
  (forall x, P x -> P (f x)) -> forall j l, Forall P l -> Forall P (update_nth j f l).
Proof.
  intros Hf j l. revert j. induction l as [|x r IH]; intros j Hl; [destruct j; constructor|].
  inversion Hl; subst. destruct j; simpl; constructor; auto.
Qed.

Lemma update_nth_map {A B} (g : A -> B) (f : A -> A) :
  (forall x, g (f x) = g x) -> forall j l, map g (update_nth j f l) = map g l.
Proof.
  intros Hf j l. revert j. induction l as [|x r IH]; intro j; [destruct j; reflexivity|].
  destruct j; simpl; [rewrite Hf|rewrite IH]; reflexivity.
Qed.

Lemma update_nth_length {A} (f : A -> A) :
  forall j (l : list A), List.length (update_nth j f l) = List.length l.
Proof.
  intros j l. revert j. induction l as [|x r IH]; intro j; [destruct j; reflexivity|].
  destruct j; simpl; [reflexivity|rewrite IH; reflexivity].
Qed.

Lemma update_nth_nth_other {A} (f : A -> A) :
  forall j k (l : list A), j <> k -> nth_error (update_nth j f l) k = nth_error l k.
Proof.
  induction j as [|j IH]; intros k l Hjk; destruct l as [|x r]; try reflexivity;
    destruct k as [|k]; simpl; try reflexivity; [lia|].
  apply IH. lia.
Qed.

Lemma update_nth_nth_same {A} (f : A -> A) :
  forall j (l : list A), nth_error (update_nth j f l) j = option_map f (nth_error l j).
Proof.
  induction j as [|j IH]; intro l; destruct l as [|x r]; try reflexivity.
  simpl. apply IH.
Qed.

Lemma nth_Forall {A} (P : A -> Prop) (l : list A) (d : A) (n : nat) :
  Forall P l -> P d -> P (nth n l d).
Proof.
  intros Hl Hd. revert n. induction Hl as [|x r Hx Hr IH]; intro n; destruct n; simpl; auto.
Qed.

Lemma insert_by_perm {A} (key : A -> Q) (x : A) (l : list A) :
  Permutation (insert_by key x l) (x :: l).
Proof.
  induction l as [|y r IH]; simpl; [apply Permutation_refl|].
  destruct (qlt (key x) (key y)); [apply Permutation_refl|].
  eapply perm_trans; [apply perm_skip, IH|]. apply perm_swap.
Qed.

Lemma sort_by_perm {A} (key : A -> Q) (l : list A) : Permutation (sort_by key l) l.
Proof.
  unfold sort_by.
  assert (G : forall acc, Permutation (fold_left (fun acc x => insert_by key x acc) l acc)
                                      (rev l ++ acc)).
  { induction l as [|x r IH]; intro acc; simpl; [apply Permutation_refl|].
    eapply perm_trans; [apply IH|]. rewrite <- app_assoc. simpl.
    apply Permutation_app_head. apply insert_by_perm. }
  eapply perm_trans; [apply G|]. rewrite app_nil_r. apply Permutation_sym, Permutation_rev.
Qed.

(** A stable insertion into a list whose keys are all at most [key x]
    appends [x]. *)
Lemma insert_by_last {A} (key : A -> Q) (x : A) (l : list A) :
  Forall (fun y => key y <= key x) l -> insert_by key x l = l ++ [x].
Proof.
  induction l as [|y r IH]; intro H; [reflexivity|].
  inversion H; subst. simpl. rewrite (proj2 (qlt_false _ _) H2). f_equal. apply IH. assumption.
Qed.

(** Sorting a list already in key order changes nothing. *)
Lemma sort_by_sorted_id {A} (key : A -> Q) (l : list A) :
  StronglySorted (key_le A key) l -> sort_by key l = l.
Proof.
  unfold sort_by. intro H.
  assert (G : forall acc, Forall (fun y => Forall (fun x => key y <= key x) l) acc ->
            fold_left (fun acc x => insert_by key x acc) l acc = acc ++ l).
  { induction H as [|x r Hr IH Hx]; intros acc Hacc; simpl; [rewrite app_nil_r; reflexivity|].
    rewrite insert_by_last.
    - rewrite IH; [rewrite <- app_assoc; reflexivity|].
      apply Forall_app. split.
      + eapply Forall_impl; [|exact Hacc]. intros y Hy. inversion Hy; assumption.
      + constructor; [|constructor]. exact Hx.
    - eapply Forall_impl; [|exact Hacc]. intros y Hy. inversion Hy; assumption. }
  apply G. constructor.
Qed.

Lemma js_mod_succ_range (l : Z) : (0 <= l)%Z -> (0 <= js_mod (l + 1) 4 <= 3)%Z.
Proof.
  intro H. unfold js_mod. rewrite Z.rem_mod_nonneg by lia.
  pose proof (Z.mod_pos_bound (l + 1) 4). lia.
Qed.

Lemma js_mod_succ_neq (l : Z) : js_mod (l + 1) 4 <> l.
Proof.
  unfold js_mod. intro E. pose proof (Z.rem_eq (l + 1) 4 ltac:(lia)). lia.
Qed.

(** ** Lanes stay in 0..3 *)

Lemma Forall_filter_of {A} (P : A -> Prop) (f : A -> bool) (l : list A) :
  Forall P l -> Forall P (filter f l).
Proof.
  rewrite !Forall_forall. intros H x Hx. apply filter_In in Hx. apply H, Hx.
Qed.

Lemma lane_ok_map (l1 l2 : list EnhancedBeatData) :
  map lane l1 = map lane l2 -> Forall lane_ok l1 -> Forall lane_ok l2.
Proof.
  revert l2. induction l1 as [|x r IH]; intros l2 E H; destruct l2 as [|y r2]; try discriminate;
    [constructor|].
  simpl in E. injection E as E1 E2. inversion H; subst. constructor.
  - unfold lane_ok in *. rewrite <- E1. assumption.
  - apply IH; assumption.
Qed.

Lemma templates_lanes_ok : Forall tmpl_lanes_ok PATTERN_TEMPLATES.
Proof.
  assert (B : forallb (fun t => forallb (fun l => (0 <=? l)%Z && (l <=? 3)%Z) (t_steps t))
                PATTERN_TEMPLATES = true) by (vm_compute; reflexivity).
  apply Forall_forall. intros t Ht. rewrite forallb_forall in B.
  specialize (B t Ht). apply Forall_forall. intros l Hl. rewrite forallb_forall in B.
  specialize (B l Hl). apply andb_true_iff in B. destruct B as [B1 B2].
  apply Z.leb_le in B1. apply Z.leb_le in B2. lia.
Qed.

Lemma selectNewTemplate_lanes_ok (sec : SongSection) (e : Q) (rot : nat) :
  tmpl_lanes_ok (fst (selectNewTemplateForSection sec e rot)).
Proof.
  unfold selectNewTemplateForSection.
  pose proof templates_lanes_ok as T.
  set (st := filter (section_filter sec) PATTERN_TEMPLATES).
  assert (Hst : Forall tmpl_lanes_ok st) by (apply Forall_filter_of, T).
  set (wh := filter has_holds st).
  assert (Hwh : Forall tmpl_lanes_ok wh) by (apply Forall_filter_of, Hst).
  set (ef := if qlt 0.6 e then (if Nat.ltb 0 (List.length wh) then wh else st) else st).
  assert (Hef : Forall tmpl_lanes_ok ef)
    by (unfold ef; destruct (qlt 0.6 e); [destruct (Nat.ltb 0 (List.length wh))|]; assumption).
  clearbody ef.
  set (av := if Nat.ltb 0 (List.length ef) then ef else _).
  assert (Hav : Forall tmpl_lanes_ok av)
    by (unfold av; destruct (Nat.ltb 0 (List.length ef)); [exact Hef|apply Forall_filter_of, T]).
  apply nth_Forall; [exact Hav|repeat constructor; cbn; lia].
Qed.

Lemma templateStep_lane_ok (template : PatternTemplate) (bar : Bar) (sec : SongSection)
    (barIdx : nat) (rc : Z) (rep si : nat) (ln : Z) (b : EnhancedBeatData) :
  (0 <= ln <= 3)%Z -> templateStep template bar sec barIdx rc rep si ln = Some b -> lane_ok b.
Proof.
  intros Hln H. unfold templateStep in H. cbv zeta in H.
  match type of H with (if ?c then _ else _) = _ => destruct c end; [|discriminate].
  injection H as <-. unfold lane_ok. simpl lane.
  match goal with |- context [if ?c then _ else ln] => destruct c end; [|exact Hln].
  apply (nth_Forall (fun l => (0 <= l <= 3)%Z)); [|lia].
  destruct sec; repeat constructor; lia.
Qed.

Lemma generateTemplateBasedPattern_lanes_ok (template : PatternTemplate) (bar : Bar)
    (sec : SongSection) (barIdx : nat) :
  tmpl_lanes_ok template -> Forall lane_ok (generateTemplateBasedPattern template bar sec barIdx).
Proof.
  intro Ht. apply Forall_forall. intros b Hb. unfold generateTemplateBasedPattern in Hb.
  apply in_flat_map in Hb. destruct Hb as (rep & _ & Hb).
  apply in_flat_map in Hb. destruct Hb as ([si ln] & Hin & Hb).
  destruct (templateStep _ _ _ _ _ _ _ _) eqn:E; [|destruct Hb].
  destruct Hb as [<-|[]]. eapply templateStep_lane_ok; [|exact E].
  apply in_combine_r in Hin. unfold tmpl_lanes_ok in Ht. rewrite Forall_forall in Ht.
  apply Ht, Hin.
Qed.

Lemma jitter_beats_lanes (rng : nat -> Q) (var : Q) :
  forall bs r, map lane (fst (jitter_beats rng var r bs)) = map lane bs.
Proof.
  induction bs as [|b rest IH]; intro r; [reflexivity|].
  simpl. specialize (IH (S r)).
  destruct (jitter_beats rng var (S r) rest) as [rest' r']. simpl in *. rewrite IH. reflexivity.
Qed.

Lemma applyRhythmicVariance_lanes (cfg : MorphingConfig) (rng : nat -> Q) (r : nat) bs :
  map lane (fst (applyRhythmicVariance cfg rng r bs)) = map lane bs.
Proof.
  unfold applyRhythmicVariance. destruct (Qeq_bool _ _); [reflexivity|]. apply jitter_beats_lanes.
Qed.

Lemma antiRepetitionStep_lanes_ok (m : PatternMemory) (bs : list EnhancedBeatData) sec :
  Forall lane_ok bs -> Forall lane_ok (antiRepetitionStep m bs sec).
Proof.
  intro H. unfold antiRepetitionStep. destruct (wouldBeRepetitive m bs); [|exact H].
  unfold applyAntiRepetitionVariations. apply Forall_map.
  eapply Forall_impl; [|exact H]. intros b Hb. unfold lane_ok in *. simpl.
  apply js_mod_succ_range. lia.
Qed.

Ltac rhythm_case :=
  match goal with
  | |- context [applyRhythmicVariance ?cfg ?rng ?r ?pat] =>
      let El := fresh "El" in
      pose proof (applyRhythmicVariance_lanes cfg rng r pat) as El;
      destruct (applyRhythmicVariance cfg rng r pat) as [? ?]; cbn [fst] in El;
      pose proof (lane_ok_map _ _ (eq_sym El) ltac:(assumption))
  end.

Ltac bar_tail T HT :=
  match goal with
  | |- context [generateTemplateBasedPattern T ?bar ?sec ?bi] =>
      let Hp := fresh "Hp" in
      pose proof (generateTemplateBasedPattern_lanes_ok T bar sec bi HT) as Hp;
      revert Hp; generalize (generateTemplateBasedPattern T bar sec bi); intros ? ?
  end;
  destruct (qlt _ _); [rhythm_case|idtac];
  (cbv beta iota zeta; cbn [fst snd currentTemplate]; unfold state_tmpl_ok; cbn [currentTemplate];
   split; [apply Forall_app; split; [assumption|apply antiRepetitionStep_lanes_ok; assumption]
          |exact HT]).

Lemma bar_step_lanes_ok (g : BeatmapGenerator) (rng : nat -> Q) (structure : list Section)
    (acc : list EnhancedBeatData * GenState) (bi : Bar * nat) :
  Forall lane_ok (fst acc) -> state_tmpl_ok (snd acc) ->
  Forall lane_ok (fst (bar_step g rng structure acc bi)) /\
  state_tmpl_ok (snd (bar_step g rng structure acc bi)).
Proof.
  destruct acc as [beatmap st], bi as [bar barIdx]. cbn [fst snd]. intros Hbm Hst.
  unfold bar_step. cbv beta iota zeta.
  generalize (getSectionForTime (startTime bar) structure) as sec. intro sec.
  destruct (lastSectionType st) as [s|]; [destruct (SongSection_eqb sec s)|];
    cbv beta iota zeta.
  - destruct (currentTemplate st) as [t|] eqn:Ect.
    + assert (HT : tmpl_lanes_ok t) by (unfold state_tmpl_ok in Hst; rewrite Ect in Hst; exact Hst).
      cbv beta iota zeta. bar_tail t HT.
    + destruct (selectNewTemplateForSection sec (bar_energy bar) (templateRotationIndex st))
        as [t r] eqn:Es.
      assert (HT : tmpl_lanes_ok t)
        by (pose proof (selectNewTemplate_lanes_ok sec (bar_energy bar) (templateRotationIndex st))
              as H; rewrite Es in H; exact H).
      cbv beta iota zeta. bar_tail t HT.
  - destruct (selectNewTemplateForSection sec (bar_energy bar) (templateRotationIndex st))
      as [t r] eqn:Es.
    assert (HT : tmpl_lanes_ok t)
      by (pose proof (selectNewTemplate_lanes_ok sec (bar_energy bar) (templateRotationIndex st))
            as H; rewrite Es in H; exact H).
    cbv beta iota zeta. bar_tail t HT.
  - destruct (selectNewTemplateForSection sec (bar_energy bar) (templateRotationIndex st))
      as [t r] eqn:Es.
    assert (HT : tmpl_lanes_ok t)
      by (pose proof (selectNewTemplate_lanes_ok sec (bar_energy bar) (templateRotationIndex st))
            as H; rewrite Es in H; exact H).
    cbv beta iota zeta. bar_tail t HT.
Qed.

Lemma fold_left_inv {A B} (P : A -> Prop) (f : A -> B -> A) (l : list B) (a : A) :
  P a -> (forall acc x, P acc -> P (f acc x)) -> P (fold_left f l a).
Proof.
  revert a. induction l as [|x r IH]; intros a Ha Hf; simpl; [exact Ha|].
  apply IH; [apply Hf, Ha|exact Hf].
Qed.

Lemma lane_set_hold b h d tn : lane (set_hold b h d tn) = lane b.
Proof. destruct b; reflexivity. Qed.

Lemma lane_set_lane b l : lane (set_lane b l) = l.
Proof. destruct b; reflexivity. Qed.

Lemma Forall_perm_sort (P : EnhancedBeatData -> Prop) (l : list EnhancedBeatData) :
  Forall P l -> Forall P (sort_by eb_time l).
Proof.
  rewrite !Forall_forall. intros H x Hx. apply H.
  apply (Permutation_in _ (sort_by_perm eb_time l)), Hx.
Qed.

Lemma spacing_filter_incl (l : list EnhancedBeatData) :
  forall prev x, In x (spacing_filter prev l) -> In x l.
Proof.
  induction l as [|b r IH]; intros prev x Hx; [exact Hx|].
  simpl in Hx. apply in_app_or in Hx. destruct Hx as [Hx|Hx].
  - destruct (match prev with None => true | Some p => _ end); [|destruct Hx].
    destruct Hx as [<-|[]]. left; reflexivity.
  - right. eapply IH, Hx.
Qed.

Definition lanes_ok (lanes : list Z) : Prop := Forall (fun l => (0 <= l <= 3)%Z) lanes.

Lemma complexHoldPatterns_ok : Forall (fun p => lanes_ok (fst p)) complexHoldPatterns.
Proof. repeat constructor; cbn; lia. Qed.

Lemma repeatingPatterns_ok : Forall (fun p => lanes_ok (fst p)) repeatingPatterns.
Proof. repeat constructor; cbn; lia. Qed.

Lemma update_lane_ok (l : Z) (g : EnhancedBeatData -> EnhancedBeatData) :
  (0 <= l <= 3)%Z -> (forall b, lane (g b) = l) ->
  forall j bm, Forall lane_ok bm -> Forall lane_ok (update_nth j g bm).
Proof.
  intros Hl Hg. apply update_nth_Forall. intros x _. unfold lane_ok. rewrite Hg. exact Hl.
Qed.

Lemma createComplexHoldPattern_lanes_ok rng bm idxs dur recent r :
  Forall lane_ok bm -> Forall lane_ok (fst (fst (createComplexHoldPattern rng bm idxs dur recent r))).
Proof.
  intro Hbm. unfold createComplexHoldPattern.
  set (available := filter _ complexHoldPatterns).
  assert (Ha : Forall (fun p => lanes_ok (fst p)) available)
    by (apply Forall_filter_of, complexHoldPatterns_ok).
  destruct available as [|p0 ps] eqn:Eav; [exact Hbm|]. rewrite <- Eav in *.
  set (k := Z.to_nat _).
  pose proof (nth_Forall _ available ([], EmptyString) k Ha ltac:(constructor)) as Hn.
  destruct (nth k available ([], EmptyString)) as [lanes name]. simpl in Hn.
  set (F := fun acc '(j, index) => _).
  assert (G : forall acc xs, Forall lane_ok (fst acc) ->
             Forall lane_ok (fst (fold_left F xs acc))).
  { intros acc xs HA. apply (fold_left_inv (fun a => Forall lane_ok (fst a))); [exact HA|].
    intros [bm0 rec0] [j index] H0. simpl in *.
    apply (update_lane_ok (nth index lanes 0%Z)); [| |exact H0].
    - apply (nth_Forall (fun l => (0 <= l <= 3)%Z)); [exact Hn|lia].
    - intro b. rewrite lane_set_hold, lane_set_lane. reflexivity. }
  specialize (G (bm, recent) (combine (firstn (Nat.min (List.length idxs) (List.length lanes)) idxs)
                                      (seq 0 (List.length idxs))) Hbm).
  destruct (fold_left F _ (bm, recent)) as [bm' recent']. exact G.
Qed.

Lemma sustained_step_lanes_ok ds rng acc pair :
  Forall lane_ok (fst (fst acc)) -> Forall lane_ok (fst (fst (sustained_step ds rng acc pair))).
Proof.
  destruct acc as [[bm recent] r], pair as [current next]. cbn [fst]. intro Hbm.
  unfold sustained_step.
  destruct (qlt 1 _ && qlt _ 4); [|exact Hbm].
  destruct (filter _ _) as [|j js] eqn:Es; [exact Hbm|].
  destruct (qlt (rng r) _); [|exact Hbm].
  destruct (complexPatterns ds && _); [apply createComplexHoldPattern_lanes_ok, Hbm|].
  destruct (beat_at bm j) as [hb|] eqn:Eb; [|exact Hbm].
  destruct (truthy (isHold hb)); [exact Hbm|].
  assert (Hhb : lane_ok hb).
  { rewrite Forall_forall in Hbm. apply Hbm. eapply nth_error_In, Eb. }
  set (av := filter (fun l => negb (mem_Z l recent)) [0; 1; 2; 3]%Z).
  assert (Hav : lanes_ok av) by (apply Forall_filter_of; repeat constructor; lia).
  assert (Hnl : exists nl r2, (0 <= nl <= 3)%Z /\
     (match av with
      | [] => (lane hb, S r)
      | _ => (nth (Z.to_nat (Qfloor (rng (S r) * qnat (List.length av)))) av 0%Z, S (S r))
      end) = (nl, r2)).
  { destruct av as [|a0 ar].
    - exists (lane hb), (S r). split; [exact Hhb|reflexivity].
    - eexists _, _. split; [|reflexivity].
      apply (nth_Forall (fun l => (0 <= l <= 3)%Z)); [exact Hav|lia]. }
  destruct Hnl as (nl & r2 & Hnl & E). rewrite E. simpl.
  eapply update_lane_ok; [exact Hnl| |exact Hbm].
  intro b. rewrite lane_set_hold, lane_set_lane. reflexivity.
Qed.

Lemma addRepeatingHoldPatterns_lanes_ok ds rng bm r :
  Forall lane_ok bm -> Forall lane_ok (fst (addRepeatingHoldPatterns ds rng bm r)).
Proof.
  intro Hbm. unfold addRepeatingHoldPatterns.
  apply (fold_left_inv (fun a => Forall lane_ok (fst a))); [exact Hbm|].
  intros [bm0 r0] [group gi] H0. simpl in H0.
  destruct (qlt _ _); [|exact H0].
  pose proof (nth_Forall _ repeatingPatterns ([], EmptyString) (gi mod 5)
                repeatingPatterns_ok ltac:(constructor)) as Hn.
  destruct (nth (gi mod 5) repeatingPatterns _) as [lanes name]. simpl in Hn |- *.
  apply (fold_left_inv (fun a => Forall lane_ok a)); [exact H0|].
  intros bmx [j beatIndex] Hx.
  apply update_nth_Forall; [|exact Hx]. intros b _. unfold lane_ok.
  assert (Hl : (0 <= nth (beatIndex mod List.length lanes) lanes 0 <= 3)%Z)
    by (apply (nth_Forall (fun l => (0 <= l <= 3)%Z)); [exact Hn|lia]).
  destruct (_ || _); [rewrite lane_set_hold|]; rewrite lane_set_lane; exact Hl.
Qed.

Lemma addSustainedHolds_lanes_ok a ds rng bm r :
  Forall lane_ok bm -> Forall lane_ok (fst (addSustainedHolds a ds rng bm r)).
Proof.
  intro Hbm. unfold addSustainedHolds.
  set (pairs := combine _ _).
  pose proof (fold_left_inv (fun acc => Forall lane_ok (fst (fst acc))) (sustained_step ds rng)
                pairs (bm, [], r) Hbm (sustained_step_lanes_ok ds rng)) as G.
  destruct (fold_left _ pairs _) as [[bm1 recent] r1]. apply addRepeatingHoldPatterns_lanes_ok, G.
Qed.

Lemma laneVariety_lanes_ok bm : Forall lane_ok bm -> Forall lane_ok (laneVariety bm).
Proof.
  intro Hbm. unfold laneVariety. apply (fold_left_inv (Forall lane_ok)); [exact Hbm|].
  intros l i Hl.
  destruct (nth_error l (i - 1)), (nth_error l i), (nth_error l (S i)); try exact Hl.
  destruct (_ && _); [|exact Hl].
  apply update_nth_Forall; [|exact Hl]. intros x Hx. unfold lane_ok in *.
  rewrite lane_set_lane. apply js_mod_succ_range. lia.
Qed.

Lemma postProcessWithHolds_lanes_ok g rng bm r :
  Forall lane_ok bm -> Forall lane_ok (fst (postProcessWithHolds g rng bm r)).
Proof.
  intro Hbm. unfold postProcessWithHolds.
  assert (Hf : Forall lane_ok (spacing_filter None (sort_by eb_time bm))).
  { apply Forall_forall. intros x Hx. apply spacing_filter_incl in Hx.
    rewrite Forall_forall in Hbm. apply Hbm.
    apply (Permutation_in _ (sort_by_perm eb_time bm)), Hx. }
  pose proof (addSustainedHolds_lanes_ok (audioAnalysis g) (difficultySettings g) rng _ r Hf) as H.
  destruct (addSustainedHolds _ _ _ _ _) as [wh r1]. apply laneVariety_lanes_ok, H.
Qed.

Lemma bar_loop_lanes_ok g rng structure xs (acc : list EnhancedBeatData * GenState) :
  Forall lane_ok (fst acc) -> state_tmpl_ok (snd acc) ->
  Forall lane_ok (fst (fold_left (bar_step g rng structure) xs acc)) /\
  state_tmpl_ok (snd (fold_left (bar_step g rng structure) xs acc)).
Proof.
  intros H1 H2.
  apply (fold_left_inv (fun a => Forall lane_ok (fst a) /\ state_tmpl_ok (snd a)));
    [split; assumption|].
  intros a x [Ha1 Ha2]. apply bar_step_lanes_ok; assumption.
Qed.

(** Every lane of a generated beatmap lies in 0..3, and the template kept
    in the generator state afterwards has only lanes in 0..3, provided the
    template held before the call does. *)
Theorem generateBeatmap_lanes_in_range (fuel : nat) (g : BeatmapGenerator) (st : GenState)
    (rng : nat -> Q) (bm : list EnhancedBeatData) (st' : GenState) :
  state_tmpl_ok st -> generateBeatmap fuel g st rng = Some (bm, st') ->
  Forall lane_ok bm /\ state_tmpl_ok st'.
Proof.
  intros Hst H. unfold generateBeatmap in H. cbv zeta in H.
  destruct (segmentIntoBars _ _ _) as [bars|]; [|discriminate].
  set (xs := combine bars _) in H. set (structure := analyzeSongStructure _ _) in H.
  set (st0 := mkGenState _ _ _ _ _) in H.
  destruct (bar_loop_lanes_ok g rng structure xs ([], st0) ltac:(constructor) Hst) as [G1 G2].
  destruct (fold_left _ xs ([], st0)) as [beatmap st1]. simpl in G1, G2.
  pose proof (postProcessWithHolds_lanes_ok g rng beatmap (rnd st1) G1) as G3.
  destruct (postProcessWithHolds _ _ _ _) as [bm1 r1]. simpl in G3.
  injection H as <- <-. split.
  - apply Forall_perm_sort. exact G3.
  - exact G2.
Qed.

Lemma generateBeatmap_lanes_in_range_witness :
  state_tmpl_ok initialState /\
  exists bm st', generateBeatmap 10 sample_generator initialState sample_rng = Some (bm, st') /\
    Forall lane_ok bm /\ state_tmpl_ok st'.
Proof.
  split; [exact I|].
  eexists. eexists. split; [vm_compute; reflexivity|].
  eapply (generateBeatmap_lanes_in_range 10 sample_generator initialState sample_rng);
    [exact I|vm_compute; reflexivity].
Defined.

(** ** No three consecutive equal lanes *)

Lemma fold_seq_inv {A} (P : nat -> A -> Prop) (F : A -> nat -> A) :
  (forall l i, (1 <= i)%nat -> P (i - 1)%nat l -> P i (F l i)) ->
  forall m s l, (1 <= s)%nat -> P (s - 1)%nat l -> P (s - 1 + m)%nat (fold_left F (seq s m) l).
Proof.
  intros Hstep m. induction m as [|m IH]; intros s l Hs Hl.
  - rewrite Nat.add_0_r. exact Hl.
  - simpl. replace (s - 1 + S m)%nat with (S s - 1 + m)%nat by lia.
    apply IH; [lia|]. replace (S s - 1)%nat with s by lia. apply Hstep; assumption.
Qed.

Lemma laneVariety_upto (bm : list EnhancedBeatData) :
  no_triple_upto (List.length bm - 2) (laneVariety bm).
Proof.
  unfold laneVariety.
  replace (List.length bm - 2)%nat with (1 - 1 + (List.length bm - 2))%nat at 1 by lia.
  apply fold_seq_inv; [|lia|intros j a b c Hj; lia].
  intros l i Hi Hl.
  destruct (nth_error l (i - 1)) as [p|] eqn:Ep;
    [|intros j a b c Hj Ha Hb Hc; destruct (Nat.eq_dec (S j) i) as [<-|Hne];
      [replace (S j - 1)%nat with j in Ep by lia; congruence
      |apply (Hl j a b c); [lia|assumption..]]].
  destruct (nth_error l i) as [cu|] eqn:Ecu;
    [|intros j a b c Hj Ha Hb Hc; destruct (Nat.eq_dec (S j) i) as [<-|Hne];
      [congruence|apply (Hl j a b c); [lia|assumption..]]].
  destruct (nth_error l (S i)) as [nx|] eqn:En;
    [|intros j a b c Hj Ha Hb Hc; destruct (Nat.eq_dec (S j) i) as [<-|Hne];
      [congruence|apply (Hl j a b c); [lia|assumption..]]].
  destruct (Z.eqb (lane p) (lane cu) && Z.eqb (lane cu) (lane nx)) eqn:Eq;
    intros j a b c Hj Ha Hb Hc.
  2:{ destruct (Nat.eq_dec (S j) i) as [<-|Hne]; [|apply (Hl j a b c); [lia|assumption..]].
      replace (S j - 1)%nat with j in Ep by lia.
      rewrite Ha in Ep. rewrite Hb in Ecu. rewrite Hc in En.
      injection Ep as <-. injection Ecu as <-. injection En as <-.
      intros [E1 E2]. rewrite E1, E2, !Z.eqb_refl in Eq. discriminate. }
  apply andb_true_iff in Eq. destruct Eq as [E1 E2]. apply Z.eqb_eq in E1, E2.
  set (f := fun b => set_lane b (js_mod (lane b + 1) 4)) in *.
  assert (Hnew : nth_error (update_nth i f l) i = Some (f cu))
    by (rewrite update_nth_nth_same, Ecu; reflexivity).
  assert (Hneq : lane (f cu) <> lane cu)
    by (unfold f; rewrite lane_set_lane; apply js_mod_succ_neq).
  destruct (Nat.eq_dec (S j) i) as [Ej|Ej].
  - (* the triple centred at [i] *)
    subst i. rewrite Hnew in Hb. injection Hb as <-.
    rewrite update_nth_nth_other in Ha by lia. replace (S j - 1)%nat with j in Ep by lia.
    rewrite Ha in Ep. injection Ep as <-. intros [F1 _]. apply Hneq. congruence.
  - destruct (Nat.eq_dec (S (S j)) i) as [Ej2|Ej2].
    + (* the triple ending at [i] *)
      subst i. rewrite Hnew in Hc. injection Hc as <-.
      rewrite update_nth_nth_other in Hb by lia.
      replace (S (S j) - 1)%nat with (S j) in Ep by lia. rewrite Hb in Ep. injection Ep as <-.
      intros [_ F2]. apply Hneq. congruence.
    + (* untouched triples *)
      rewrite update_nth_nth_other in Ha, Hb, Hc by lia.
      apply (Hl j a b c); [lia|assumption..].
Qed.

Lemma no_triple_of_upto (l : list EnhancedBeatData) :
  no_triple_upto (List.length l - 2) l -> no_triple l.
Proof.
  intros H j a b c Ha Hb Hc. apply (H j a b c); try assumption.
  assert (S (S j) < List.length l)%nat by (apply nth_error_Some; congruence). lia.
Qed.

Lemma laneVariety_length (bm : list EnhancedBeatData) :
  List.length (laneVariety bm) = List.length bm.
Proof.
  unfold laneVariety. apply (fold_left_inv (fun l => List.length l = List.length bm));
    [reflexivity|].
  intros l i Hl.
  destruct (nth_error l (i - 1)), (nth_error l i), (nth_error l (S i)); try exact Hl.
  destruct (_ && _); [|exact Hl]. rewrite update_nth_length. exact Hl.
Qed.

(** After the lane-variety pass no three consecutive beats share a lane. *)
Lemma laneVariety_no_triple (bm : list EnhancedBeatData) : no_triple (laneVariety bm).
Proof.
  apply no_triple_of_upto. rewrite laneVariety_length. apply laneVariety_upto.
Qed.

Lemma time_set_hold b h d tn : eb_time (set_hold b h d tn) = eb_time b.
Proof. destruct b; reflexivity. Qed.

Lemma time_set_lane b l : eb_time (set_lane b l) = eb_time b.
Proof. destruct b; reflexivity. Qed.

Lemma createComplexHoldPattern_times rng bm idxs dur recent r :
  map eb_time (fst (fst (createComplexHoldPattern rng bm idxs dur recent r))) = map eb_time bm.
Proof.
  unfold createComplexHoldPattern.
  destruct (filter _ complexHoldPatterns) as [|p0 ps]; [reflexivity|].
  destruct (nth _ _ _) as [lanes name].
  set (F := fun acc '(j, index) => _).
  assert (G : forall acc xs, map eb_time (fst acc) = map eb_time bm ->
             map eb_time (fst (fold_left F xs acc)) = map eb_time bm).
  { intros acc xs HA. apply (fold_left_inv (fun a => map eb_time (fst a) = map eb_time bm));
      [exact HA|].
    intros [bm0 rec0] [j index] H0. simpl in *. rewrite update_nth_map; [exact H0|].
    intro x. rewrite time_set_hold, time_set_lane. reflexivity. }
  specialize (G (bm, recent) (combine (firstn (Nat.min (List.length idxs) (List.length lanes)) idxs)
                                      (seq 0 (List.length idxs))) eq_refl).
  destruct (fold_left F _ (bm, recent)) as [bm' recent']. exact G.
Qed.

Lemma sustained_step_times ds rng acc pair :
  map eb_time (fst (fst (sustained_step ds rng acc pair))) = map eb_time (fst (fst acc)).
Proof.
  destruct acc as [[bm recent] r], pair as [current next]. cbn [fst]. unfold sustained_step.
  destruct (qlt 1 _ && qlt _ 4); [|reflexivity].
  destruct (filter _ _) as [|j js]; [reflexivity|].
  destruct (qlt (rng r) _); [|reflexivity].
  destruct (complexPatterns ds && _); [apply createComplexHoldPattern_times|].
  destruct (beat_at bm j) as [hb|]; [|reflexivity].
  destruct (truthy (isHold hb)); [reflexivity|].
  destruct (filter (fun l => negb (mem_Z l recent)) [0; 1; 2; 3]%Z); cbn [fst];
    apply update_nth_map; intro x; rewrite time_set_hold, time_set_lane; reflexivity.
Qed.

Lemma addRepeatingHoldPatterns_times ds rng bm r :
  map eb_time (fst (addRepeatingHoldPatterns ds rng bm r)) = map eb_time bm.
Proof.
  unfold addRepeatingHoldPatterns.
  apply (fold_left_inv (fun a => map eb_time (fst a) = map eb_time bm)); [reflexivity|].
  intros [bm0 r0] [group gi] H0. simpl in H0.
  destruct (qlt _ _); [|exact H0].
  destruct (nth (gi mod 5) repeatingPatterns _) as [lanes name]. simpl.
  apply (fold_left_inv (fun a => map eb_time a = map eb_time bm)); [exact H0|].
  intros bmx [j beatIndex] Hx. rewrite update_nth_map; [exact Hx|].
  intro b. destruct (_ || _); [rewrite time_set_hold|]; apply time_set_lane.
Qed.

Lemma addSustainedHolds_times a ds rng bm r :
  map eb_time (fst (addSustainedHolds a ds rng bm r)) = map eb_time bm.
Proof.
  unfold addSustainedHolds. set (pairs := combine _ _).
  pose proof (fold_left_inv (fun acc => map eb_time (fst (fst acc)) = map eb_time bm)
                (sustained_step ds rng) pairs (bm, [], r) eq_refl) as G.
  destruct (fold_left _ pairs _) as [[bm1 recent] r1].
  rewrite addRepeatingHoldPatterns_times. apply G.
  intros acc x Hacc. rewrite sustained_step_times. exact Hacc.
Qed.

Lemma laneVariety_times bm : map eb_time (laneVariety bm) = map eb_time bm.
Proof.
  unfold laneVariety. apply (fold_left_inv (fun l => map eb_time l = map eb_time bm));
    [reflexivity|].
  intros l i Hl.
  destruct (nth_error l (i - 1)), (nth_error l i), (nth_error l (S i)); try exact Hl.
  destruct (_ && _); [|exact Hl]. rewrite update_nth_map; [exact Hl|].
  intro x. apply time_set_lane.
Qed.

Lemma sorted_by_times (l1 l2 : list EnhancedBeatData) :
  map eb_time l1 = map eb_time l2 ->
  StronglySorted (key_le _ eb_time) l1 -> StronglySorted (key_le _ eb_time) l2.
Proof.
  revert l2. induction l1 as [|x r IH]; intros l2 E H; destruct l2 as [|y r2]; try discriminate;
    [constructor|].
  simpl in E. injection E as E1 E2. inversion H as [|? ? Hr Hf]; subst. constructor.
  - apply IH; assumption.
  - clear IH Hr H. revert r2 E2. induction Hf as [|z r' Hz Hr' IHf]; intros r2 E2;
      destruct r2 as [|w r2']; try discriminate; constructor.
    + simpl in E2. injection E2 as E3 _. unfold key_le in *. rewrite <- E1, <- E3. exact Hz.
    + simpl in E2. injection E2 as _ E4. apply IHf, E4.
Qed.

Lemma spacing_filter_sorted (l : list EnhancedBeatData) :
  forall prev, StronglySorted (key_le _ eb_time) l ->
  StronglySorted (key_le _ eb_time) (spacing_filter prev l).
Proof.
  induction l as [|b r IH]; intros prev H; [constructor|].
  inversion H as [|? ? Hr Hf]; subst. simpl.
  assert (Hs := IH (Some b) Hr).
  destruct (match prev with None => true | Some p => _ end); [|exact Hs].
  simpl. constructor; [exact Hs|]. apply Forall_forall. intros x Hx.
  rewrite Forall_forall in Hf. apply Hf. eapply spacing_filter_incl, Hx.
Qed.

Lemma key_le_trans : Transitive (key_le EnhancedBeatData eb_time).
Proof. intros x y z H1 H2. unfold key_le in *. eapply Qle_trans; eassumption. Qed.

(** The beat list built by the generator has no three consecutive beats on
    the same lane: the final sort leaves the output of the lane-variety pass
    in place. *)
Theorem generateBeatmap_no_triple (fuel : nat) (g : BeatmapGenerator) (st : GenState)
    (rng : nat -> Q) (bm : list EnhancedBeatData) (st' : GenState) :
  generateBeatmap fuel g st rng = Some (bm, st') -> no_triple bm.
Proof.
  intro H. unfold generateBeatmap in H. cbv zeta in H.
  destruct (segmentIntoBars _ _ _) as [bars|]; [|discriminate].
  destruct (fold_left _ _ _) as [beatmap st1].
  unfold postProcessWithHolds in H.
  set (filtered := spacing_filter None (sort_by eb_time beatmap)) in H.
  assert (Hf : StronglySorted (key_le _ eb_time) filtered).
  { apply spacing_filter_sorted, Sorted_StronglySorted;
      [apply key_le_trans|apply sort_by_sorted]. }
  pose proof (addSustainedHolds_times (audioAnalysis g) (difficultySettings g) rng filtered
                (rnd st1)) as Ht.
  destruct (addSustainedHolds _ _ _ _ _) as [wh r1]. simpl in Ht.
  injection H as <- _. unfold enhanceSectionTransitions.
  rewrite sort_by_sorted_id; [apply laneVariety_no_triple|].
  apply (sorted_by_times filtered); [|exact Hf].
  rewrite laneVariety_times, Ht. reflexivity.
Qed.

Lemma generateBeatmap_no_triple_witness :
  exists bm st', generateBeatmap 10 sample_generator initialState sample_rng = Some (bm, st') /\
    no_triple bm.
Proof.
  eexists. eexists. split; [vm_compute; reflexivity|].
  eapply (generateBeatmap_no_triple 10 sample_generator initialState sample_rng).
  vm_compute. reflexivity.
Defined.

(** ** Pattern memory *)

Lemma find_first_some {A} (p : A -> bool) (l : list A) (x : A) :
  find_first p l = Some x -> In x l /\ p x = true.
Proof.
  induction l as [|y r IH]; simpl; [discriminate|].
  destruct (p y) eqn:Ey; [intro E; injection E as <-; auto|].
  intro E. destruct (IH E). auto.
Qed.

Lemma find_first_none {A} (p : A -> bool) (l : list A) :
  find_first p l = None -> forall x, In x l -> p x = false.
Proof.
  induction l as [|y r IH]; simpl; [intros _ x []|].
  destruct (p y) eqn:Ey; [discriminate|]. intros E x [<-|Hx]; [exact Ey|apply IH; assumption].
Qed.

Lemma find_first_app_none {A} (p : A -> bool) (l : list A) (x : A) :
  find_first p l = None -> p x = true -> find_first p (l ++ [x]) = Some x.
Proof.
  induction l as [|y r IH]; simpl; [intros _ Hx; rewrite Hx; reflexivity|].
  destruct (p y); [discriminate|]. exact IH.
Qed.

Definition bumped (c : Z) (p : PatternNGram) : PatternNGram :=
  mkNGram (sequence p) (pfrequency p + 1) c (ctx_section p) (ctx_energy p).

Lemma bump_first_sequences s c l : map sequence (bump_first s c l) = map sequence l.
Proof.
  induction l as [|p r IH]; simpl; [reflexivity|].
  destruct (String.eqb (sequence p) s); simpl; [reflexivity|rewrite IH; reflexivity].
Qed.

Lemma bump_first_length s c l : List.length (bump_first s c l) = List.length l.
Proof. rewrite <- (length_map sequence), bump_first_sequences, length_map. reflexivity. Qed.

Lemma bump_first_freq s c l :
  Forall (fun p => (1 <= pfrequency p)%Z) l -> Forall (fun p => (1 <= pfrequency p)%Z) (bump_first s c l).
Proof.
  induction 1 as [|p r Hp Hr IH]; simpl; [constructor|].
  destruct (String.eqb (sequence p) s); constructor; simpl; auto; lia.
Qed.

Lemma bump_first_find s c l p :
  find_first (fun q => String.eqb (sequence q) s) l = Some p ->
  find_first (fun q => String.eqb (sequence q) s) (bump_first s c l) = Some (bumped c p).
Proof.
  induction l as [|q r IH]; simpl; [discriminate|].
  destruct (String.eqb (sequence q) s) eqn:Eq.
  - intro E. injection E as <-. simpl. rewrite Eq. reflexivity.
  - intro E. simpl. rewrite Eq. apply IH, E.
Qed.

Lemma pruneHistory_noop (m : PatternMemory) :
  (Z.of_nat (List.length (patternHistory m)) <= maxHistorySize (pm_config m))%Z ->
  pruneHistory m = m.
Proof.
  intro H. unfold pruneHistory. destruct (Z.ltb_spec (maxHistorySize (pm_config m))
    (Z.of_nat (List.length (patternHistory m)))); [lia|reflexivity].
Qed.

Lemma in_skipn_incl {A} (n : nat) (l : list A) x : In x (skipn n l) -> In x l.
Proof.
  revert l. induction n as [|n IH]; intros l H; [exact H|].
  destruct l as [|y r]; [exact H|]. right. apply IH, H.
Qed.

Lemma NoDup_skipn {A} (n : nat) (l : list A) : NoDup l -> NoDup (skipn n l).
Proof.
  intro H. rewrite <- (firstn_skipn n l) in H. eapply NoDup_app_remove_l, H.
Qed.

Lemma prune_keep_le_max (A : Type) (l : list A) (M : Z) :
  (2 <= M)%Z -> (M < Z.of_nat (List.length l))%Z ->
  (Z.of_nat (List.length (js_slice_from l (js_trunc (inject_Z (- M) * 0.8)))) <= M)%Z.
Proof.
  intros H2 Hlt. unfold js_slice_from, slice_index, js_trunc.
  assert (HM : inject_Z 2 <= inject_Z M) by (rewrite <- Zle_Qle; exact H2).
  change (inject_Z 2) with 2 in HM.
  assert (Hx : - (inject_Z (- M) * 0.8) == inject_Z M * 0.8) by (rewrite inject_Z_opp; ring).
  assert (Hneg : qlt (inject_Z (- M) * 0.8) 0 = true) by (apply qlt_true; rewrite inject_Z_opp; lra).
  rewrite Hneg.
  set (x := - (inject_Z (- M) * 0.8)) in *.
  assert (K1 : (1 <= Qfloor x)%Z).
  { change 1%Z with (Qfloor 1). apply Qfloor_resp_le. lra. }
  assert (K2 : (Qfloor x <= M)%Z).
  { rewrite <- (Qfloor_Z M). apply Qfloor_resp_le. lra. }
  destruct (Z.ltb_spec (- Qfloor x) 0) as [_|C]; [|lia].
  rewrite length_skipn. lia.
Qed.

Lemma skipn_map_comm {A B} (f : A -> B) (n : nat) (l : list A) :
  map f (skipn n l) = skipn n (map f l).
Proof.
  revert l. induction n as [|n IH]; intro l; [reflexivity|]. destruct l; simpl; [reflexivity|apply IH].
Qed.

Lemma pruneHistory_inv (h : list PatternNGram) (c : Z) (cfg : PatternMemoryConfig) :
  NoDup (map sequence h) -> Forall (fun p => (1 <= pfrequency p)%Z) h ->
  (2 <= maxHistorySize cfg)%Z ->
  pm_inv (pruneHistory (mkPM h c cfg)).
Proof.
  intros Hnd Hfr HM. unfold pruneHistory. cbn [patternHistory pm_config beatCounter].
  destruct (Z.ltb_spec (maxHistorySize cfg) (Z.of_nat (List.length h))) as [Hlt|Hge].
  - set (score := fun p : PatternNGram => _).
    pose proof (sort_by_perm score h) as Hp.
    set (sorted := sort_by score h) in *.
    unfold pm_inv. cbn [patternHistory pm_config]. split; [|split].
    + unfold js_slice_from. rewrite skipn_map_comm. apply NoDup_skipn.
      apply (Permutation_NoDup (Permutation_sym (Permutation_map sequence Hp))), Hnd.
    + apply Forall_forall. intros x Hx. unfold js_slice_from in Hx. apply in_skipn_incl in Hx.
      rewrite Forall_forall in Hfr. apply Hfr. apply (Permutation_in _ Hp), Hx.
    + apply prune_keep_le_max; [exact HM|].
      rewrite (Permutation_length Hp). exact Hlt.
  - unfold pm_inv. cbn [patternHistory pm_config]. auto.
Qed.

(** For a [maxHistorySize] of at least 2, [recordPattern] keeps the
    history invariant: the keys of the records stay pairwise distinct, every
    frequency stays at least 1, and the history never holds more than
    [maxHistorySize] records. *)
Theorem recordPattern_keeps_invariant (m : PatternMemory) (bs : list EnhancedBeatData)
    (sec : SongSection) (en : Q) :
  (2 <= maxHistorySize (pm_config m))%Z ->
  pm_inv m -> pm_inv (recordPattern m bs sec en).
Proof.
  intros HM (Hnd & Hfr & Hlen). unfold recordPattern.
  destruct (Nat.ltb (List.length bs) (ngramSize (pm_config m))); [repeat split; assumption|].
  set (key := createSequenceKey (pm_config m) bs).
  destruct (find_first (fun p => String.eqb (sequence p) key) (patternHistory m)) as [p|] eqn:Ef;
    apply pruneHistory_inv; try exact HM.
  - rewrite bump_first_sequences. exact Hnd.
  - apply bump_first_freq, Hfr.
  - rewrite map_app. simpl.
    apply (Permutation_NoDup (Permutation_cons_append _ _)). constructor; [|exact Hnd].
    intro Hin. apply in_map_iff in Hin. destruct Hin as (x & Ex & Hx).
    pose proof (find_first_none _ _ Ef x Hx) as Hb. cbv beta in Hb.
    rewrite Ex, String.eqb_refl in Hb. discriminate.
  - apply Forall_app. split; [exact Hfr|]. constructor; [simpl; lia|constructor].
Qed.

Lemma recordPattern_keeps_invariant_witness :
  (2 <= maxHistorySize (pm_config (mkPM [] 0 generatorMemoryConfig)))%Z /\
  pm_inv (mkPM [] 0 generatorMemoryConfig) /\
  pm_inv (recordPattern (mkPM [] 0 generatorMemoryConfig) sample_bar Intro 0.5).
Proof.
  assert (H2 : (2 <= maxHistorySize (pm_config (mkPM [] 0 generatorMemoryConfig)))%Z)
    by (vm_compute; discriminate).
  assert (H : pm_inv (mkPM [] 0 generatorMemoryConfig))
    by (split; [constructor|split; [constructor|vm_compute; discriminate]]).
  split; [exact H2|split; [exact H|]]. apply recordPattern_keeps_invariant; [exact H2|exact H].
Defined.

(** Right after a bar of [n] beats is recorded, the same bar is flagged as
    repetitive when [n] is at least the n-gram size and below the minimum
    repetition distance, as long as the history had room for one more
    record (so the record is not pruned away). *)
Theorem recordPattern_then_repetitive (m : PatternMemory) (bs : list EnhancedBeatData)
    (sec : SongSection) (en : Q) :
  (ngramSize (pm_config m) <= List.length bs)%nat ->
  (Z.of_nat (List.length bs) < minRepetitionDistance (pm_config m))%Z ->
  (Z.of_nat (List.length (patternHistory m)) < maxHistorySize (pm_config m))%Z ->
  wouldBeRepetitive (recordPattern m bs sec en) bs = true.
Proof.
  intros Hn Hd Hroom. unfold recordPattern.
  assert (Hl : Nat.ltb (List.length bs) (ngramSize (pm_config m)) = false)
    by (apply Nat.ltb_ge; exact Hn).
  rewrite Hl.
  set (key := createSequenceKey (pm_config m) bs).
  destruct (find_first (fun p => String.eqb (sequence p) key) (patternHistory m)) as [p|] eqn:Ef.
  - rewrite pruneHistory_noop
      by (cbn [patternHistory pm_config]; rewrite bump_first_length; lia).
    unfold wouldBeRepetitive. cbn [pm_config patternHistory beatCounter]. rewrite Hl. fold key.
    rewrite (bump_first_find _ _ _ _ Ef). cbn [bumped lastUsed].
    replace (beatCounter m + Z.of_nat (List.length bs) - beatCounter m)%Z
      with (Z.of_nat (List.length bs)) by lia.
    rewrite (proj2 (Z.ltb_lt _ _) Hd). reflexivity.
  - rewrite pruneHistory_noop
      by (cbn [patternHistory pm_config]; rewrite length_app; simpl; lia).
    unfold wouldBeRepetitive. cbn [pm_config patternHistory beatCounter]. rewrite Hl. fold key.
    rewrite (find_first_app_none _ _ _ Ef) by (cbn [sequence]; apply String.eqb_refl).
    cbn [lastUsed].
    replace (beatCounter m + Z.of_nat (List.length bs) - beatCounter m)%Z
      with (Z.of_nat (List.length bs)) by lia.
    rewrite (proj2 (Z.ltb_lt _ _) Hd). reflexivity.
Qed.

Lemma recordPattern_then_repetitive_witness :
  (ngramSize generatorMemoryConfig <= List.length sample_bar)%nat /\
  (Z.of_nat (List.length sample_bar) < minRepetitionDistance generatorMemoryConfig)%Z /\
  (Z.of_nat (List.length (patternHistory sample_memory)) < maxHistorySize generatorMemoryConfig)%Z /\
  wouldBeRepetitive (recordPattern sample_memory sample_bar Verse 0.5) sample_bar = true.
Proof.
  split; [vm_compute; lia|]. split; [vm_compute; reflexivity|].
  split; [vm_compute; reflexivity|].
  apply (recordPattern_then_repetitive sample_memory sample_bar Verse 0.5);
    vm_compute; [lia|reflexivity|reflexivity].
Defined.

Lemma existsb_eqb_in (x : String.string) (l : list String.string) :
  existsb (String.eqb x) l = true <-> In x l.
Proof.
  rewrite existsb_exists. split.
  - intros (y & Hy & E). apply String.eqb_eq in E. subst. exact Hy.
  - intro H. exists x. split; [exact H|apply String.eqb_refl].
Qed.

Lemma cooldown_fold (m : PatternMemory) (l : list PatternNGram) (acc : list String.string) :
  NoDup acc ->
  NoDup (fold_left (fun acc p =>
      if Z.ltb (beatCounter m - lastUsed p) (minRepetitionDistance (pm_config m))
      then (if existsb (String.eqb (sequence p)) acc then acc else acc ++ [sequence p])
      else acc) l acc) /\
  forall s, In s (fold_left (fun acc p =>
      if Z.ltb (beatCounter m - lastUsed p) (minRepetitionDistance (pm_config m))
      then (if existsb (String.eqb (sequence p)) acc then acc else acc ++ [sequence p])
      else acc) l acc) <->
    In s acc \/ exists p, In p l /\ sequence p = s /\
      (beatCounter m - lastUsed p < minRepetitionDistance (pm_config m))%Z.
Proof.
  revert acc. induction l as [|p r IH]; intros acc Hacc; simpl.
  - split; [exact Hacc|]. intro s. split; [auto|]. intros [H|(p & [] & _)]. exact H.
  - set (acc' := if Z.ltb _ _ then _ else acc).
    assert (Hacc' : NoDup acc' /\ forall s, In s acc' <-> In s acc \/
              (sequence p = s /\ (beatCounter m - lastUsed p < minRepetitionDistance (pm_config m))%Z)).
    { unfold acc'. destruct (Z.ltb_spec (beatCounter m - lastUsed p)
                             (minRepetitionDistance (pm_config m))) as [Hc|Hc].
      - destruct (existsb (String.eqb (sequence p)) acc) eqn:Ee.
        + apply existsb_eqb_in in Ee. split; [exact Hacc|].
          intro s. split; [auto|]. intros [H|[<- _]]; assumption.
        + split.
          * apply (Permutation_NoDup (Permutation_cons_append _ _)). constructor; [|exact Hacc].
            intro Hin. apply existsb_eqb_in in Hin. congruence.
          * intro s. rewrite in_app_iff. simpl. split.
            -- intros [H|[H|[]]]; [left; exact H|right; auto].
            -- intros [H|[H _]]; [left; exact H|right; left; exact H].
      - split; [exact Hacc|]. intro s. split; [auto|]. intros [H|[_ H]]; [exact H|lia]. }
    destruct Hacc' as [Hnd Hin]. destruct (IH acc' Hnd) as [IH1 IH2]. split; [exact IH1|].
    intro s. rewrite IH2, Hin. split.
    + intros [[H|[E Hc]]|(q & Hq & E & Hc)]; [left; exact H|right; exists p; auto|].
      right. exists q. auto.
    + intros [H|(q & [<-|Hq] & E & Hc)]; [left; left; exact H|left; right; auto|].
      right. exists q. auto.
Qed.

(** [getCooldownPatterns] returns, each exactly once, the keys of the
    records last used fewer than [minRepetitionDistance] beats ago. *)
Theorem getCooldownPatterns_spec (m : PatternMemory) :
  NoDup (getCooldownPatterns m) /\
  forall s, In s (getCooldownPatterns m) <->
    exists p, In p (patternHistory m) /\ sequence p = s /\
      (beatCounter m - lastUsed p < minRepetitionDistance (pm_config m))%Z.
Proof.
  destruct (cooldown_fold m (patternHistory m) [] (NoDup_nil _)) as [H1 H2].
  split; [exact H1|]. intro s. unfold getCooldownPatterns. rewrite H2.
  split; [intros [[]|H]; exact H|intro H; right; exact H].
Qed.

Lemma NoDup_map_inj {A B} (f : A -> B) (l : list A) (x y : A) :
  NoDup (map f l) -> In x l -> In y l -> f x = f y -> x = y.
Proof.
  induction l as [|z r IH]; intros Hnd Hx Hy E; [destruct Hx|].
  simpl in Hnd. inversion Hnd as [|? ? Hnin Hnd']; subst.
  destruct Hx as [<-|Hx], Hy as [<-|Hy]; try reflexivity.
  - exfalso. apply Hnin. rewrite E. apply in_map, Hy.
  - exfalso. apply Hnin. rewrite <- E. apply in_map, Hx.
  - apply IH; assumption.
Qed.

(** With distinct keys in the history (as [recordPattern] keeps them), a bar
    of at least [ngramSize] beats whose key is on cooldown is flagged as
    repetitive. *)
Theorem cooldown_then_repetitive (m : PatternMemory) (bs : list EnhancedBeatData) :
  NoDup (map sequence (patternHistory m)) ->
  (ngramSize (pm_config m) <= List.length bs)%nat ->
  In (createSequenceKey (pm_config m) bs) (getCooldownPatterns m) ->
  wouldBeRepetitive m bs = true.
Proof.
  intros Hnd Hn Hin.
  destruct (cooldown_fold m (patternHistory m) [] (NoDup_nil _)) as [_ H2].
  apply H2 in Hin. destruct Hin as [[]|(p & Hp & Ep & Hc)].
  unfold wouldBeRepetitive.
  rewrite (proj2 (Nat.ltb_ge _ _) Hn).
  destruct (find_first _ _) as [q|] eqn:Ef.
  - apply find_first_some in Ef. destruct Ef as [Hq Eq]. apply String.eqb_eq in Eq.
    assert (q = p) as -> by (apply (NoDup_map_inj sequence (patternHistory m)); congruence).
    rewrite (proj2 (Z.ltb_lt _ _) Hc). reflexivity.
  - pose proof (find_first_none _ _ Ef p Hp) as Hb. cbv beta in Hb.
    rewrite Ep, String.eqb_refl in Hb. discriminate.
Qed.

Lemma cooldown_then_repetitive_witness :
  NoDup (map sequence (patternHistory sample_memory)) /\
  (ngramSize (pm_config sample_memory) <= List.length sample_bar)%nat /\
  In (createSequenceKey (pm_config sample_memory) sample_bar) (getCooldownPatterns sample_memory) /\
  wouldBeRepetitive sample_memory sample_bar = true.
Proof.
  assert (H1 : NoDup (map sequence (patternHistory sample_memory)))
    by (vm_compute; repeat constructor; intros []).
  assert (H2 : (ngramSize (pm_config sample_memory) <= List.length sample_bar)%nat)
    by (vm_compute; lia).
  assert (H3 : In (createSequenceKey (pm_config sample_memory) sample_bar)
                  (getCooldownPatterns sample_memory)) by (vm_compute; left; reflexivity).
  split; [exact H1|]. split; [exact H2|]. split; [exact H3|].
  apply cooldown_then_repetitive; assumption.
Defined.

Lemma js_max_fold_fin (xs : list Q) (a : Q) :
  exists M, fold_left JSNum.max (map JSNum.Fin xs) (JSNum.Fin a) = JSNum.Fin M /\
    a <= M /\ Forall (fun x => x <= M) xs.
Proof.
  revert a. induction xs as [|x r IH]; intro a; simpl.
  - exists a. split; [reflexivity|]. split; [apply Qle_refl|constructor].
  - unfold JSNum.max at 2. simpl JSNum.is_nan. cbn [orb JSNum.lt].
    destruct (qlt a x) eqn:E.
    + apply qlt_true in E. destruct (IH x) as (M & HM & Hx & Hr). exists M.
      split; [exact HM|]. split; [apply Qlt_le_weak; eapply Qlt_le_trans; eassumption|].
      constructor; assumption.
    + apply qlt_false in E. destruct (IH a) as (M & HM & Ha & Hr). exists M.
      split; [exact HM|]. split; [exact Ha|]. constructor; [eapply Qle_trans; eassumption|exact Hr].
Qed.

Lemma js_sum_fold_fin (xs : list Q) (s : Q) :
  fold_left JSNum.add (map JSNum.Fin xs) (JSNum.Fin s) = JSNum.Fin (fold_left Qplus xs s).
Proof. revert s. induction xs as [|x r IH]; intro s; simpl; [reflexivity|apply IH]. Qed.

Lemma sum_bounds (xs : list Q) (M s : Q) :
  Forall (fun x => 1 <= x <= M) xs ->
  s + qnat (List.length xs) <= fold_left Qplus xs s <= s + qnat (List.length xs) * M.
Proof.
  revert s. induction xs as [|x r IH]; intros s H; simpl.
  - assert (Z0 : qnat 0 == 0) by reflexivity. rewrite Z0. lra.
  - inversion H as [|? ? Hx Hr]; subst. destruct (IH (s + x) Hr) as [H1 H2].
    rewrite qnat_S. lra.
Qed.

Lemma div_fin_nonzero (a b : Q) : ~ b == 0 -> JSNum.div (JSNum.Fin a) (JSNum.Fin b) = JSNum.Fin (a / b).
Proof.
  intro H. unfold JSNum.div. destruct (Qeq_bool b 0) eqn:E; [|reflexivity].
  apply Qeq_bool_iff in E. contradiction.
Qed.

(** For a history with distinct keys and frequencies at least 1 (as
    [recordPattern] keeps it), [getDiversityScore] is a finite number in
    (0.7, 1]: the unique-key share is always 1, so only the frequency
    balance lowers the score. *)
Theorem getDiversityScore_range (m : PatternMemory) :
  NoDup (map sequence (patternHistory m)) ->
  Forall (fun p => (1 <= pfrequency p)%Z) (patternHistory m) ->
  exists q, getDiversityScore m = JSNum.Fin q /\ 7 # 10 < q <= 1.
Proof.
  intros Hnd Hfr. unfold getDiversityScore.
  destruct (Nat.ltb (List.length (patternHistory m)) 5) eqn:Hlt.
  { exists 1. split; [reflexivity|]. lra. }
  apply Nat.ltb_ge in Hlt.
  destruct (patternHistory m) as [|p0 h] eqn:Eh; [simpl in Hlt; lia|].
  set (n := List.length (p0 :: h)).
  assert (Hn : 1 <= qnat n)
    by (unfold n; simpl List.length; rewrite qnat_S; pose proof (qnat_nonneg (List.length h)); lra).
  assert (Hset : JSNum.set_size (map sequence (p0 :: h)) = n).
  { unfold JSNum.set_size. rewrite nodup_fixed_point by exact Hnd. apply length_map. }
  rewrite Hset. unfold JSNum.nat_num. rewrite div_fin_nonzero by lra.
  set (xs := map (fun p => inject_Z (pfrequency p)) (p0 :: h)).
  assert (Hfs : map (fun p => JSNum.Fin (inject_Z (pfrequency p))) (p0 :: h) = map JSNum.Fin xs)
    by (unfold xs; rewrite map_map; reflexivity).
  rewrite Hfs, length_map.
  assert (Hxs1 : Forall (fun x => 1 <= x) xs).
  { unfold xs. apply Forall_map. eapply Forall_impl; [|exact Hfr]. intros p Hp.
    change 1 with (inject_Z 1). rewrite <- Zle_Qle. exact Hp. }
  destruct (js_max_fold_fin (List.tl xs) (List.hd 0 xs)) as (M & HM & Hx0 & Hxr).
  assert (Hmax : js_max_list (map JSNum.Fin xs) = JSNum.Fin M).
  { unfold js_max_list. destruct xs as [|x0 xr] eqn:Exs; [discriminate|]. exact HM. }
  assert (HxM : Forall (fun x => 1 <= x <= M) xs).
  { destruct xs as [|x0 xr]; [discriminate|]. simpl in Hx0, Hxr.
    inversion Hxs1 as [|? ? H0 Hr1]; subst. constructor; [lra|].
    apply Forall_forall. intros y Hy. rewrite Forall_forall in Hr1, Hxr. split; auto. }
  assert (HM1 : 1 <= M).
  { destruct xs as [|x0 xr]; [discriminate|]. inversion HxM as [|? ? H0 _]; subst. lra. }
  rewrite Hmax. unfold JSNum.zero. rewrite (js_sum_fold_fin xs 0).
  destruct (sum_bounds xs M 0 HxM) as [S1 S2].
  assert (Hlen : List.length xs = n) by (unfold xs, n; apply length_map).
  rewrite Hlen in S1, S2 |- *. set (S := fold_left Qplus xs 0) in *.
  rewrite div_fin_nonzero by lra.
  set (A := S / qnat n).
  assert (HA : 1 <= A <= M).
  { unfold A. split.
    - apply Qle_shift_div_l; lra.
    - apply Qle_shift_div_r; lra. }
  unfold JSNum.sub, JSNum.neg, JSNum.add, JSNum.one, JSNum.mul.
  rewrite div_fin_nonzero by lra.
  eexists. split; [reflexivity|].
  set (B := (M + - A) / M).
  assert (HB : B * M == M - A) by (unfold B; field; lra).
  assert (HB2 : 0 <= B < 1) by nra.
  setoid_replace (qnat n / qnat n) with 1 by (field; lra). lra.
Qed.

Lemma getDiversityScore_range_witness :
  NoDup (map sequence (patternHistory sample_history_memory)) /\
  Forall (fun p => (1 <= pfrequency p)%Z) (patternHistory sample_history_memory) /\
  exists q, getDiversityScore sample_history_memory = JSNum.Fin q /\ 7 # 10 < q <= 1.
Proof.
  assert (H1 : NoDup (map sequence (patternHistory sample_history_memory))).
  { assert (E : nodup string_dec (map sequence (patternHistory sample_history_memory)) =
                map sequence (patternHistory sample_history_memory)) by (vm_compute; reflexivity).
    rewrite <- E. apply NoDup_nodup. }
  assert (H2 : Forall (fun p => (1 <= pfrequency p)%Z) (patternHistory sample_history_memory))
    by (vm_compute; repeat constructor; discriminate).
  split; [exact H1|]. split; [exact H2|]. apply getDiversityScore_range; assumption.
Defined.

(* ------------------------------------------------------------------ *)
(** ** Adaptive morpher: spatial variants and anticipation notes *)

Lemma set_lane_set_lane b l1 l2 : set_lane (set_lane b l1) l2 = set_lane b l2.
Proof. destruct b; reflexivity. Qed.

Lemma set_lane_same b : set_lane b (lane b) = b.
Proof. destruct b; reflexivity. Qed.

Lemma lane_cases (b : EnhancedBeatData) :
  lane_ok b -> lane b = 0%Z \/ lane b = 1%Z \/ lane b = 2%Z \/ lane b = 3%Z.
Proof. unfold lane_ok. lia. Qed.

Lemma map_id_in {A} (f : A -> A) (l : list A) : (forall x, In x l -> f x = x) -> map f l = l.
Proof.
  intros H. rewrite <- (map_id l) at 2. apply map_ext_in. exact H.
Qed.

(** The spatial variants keep lanes 0..3 in range; mirroring and inverting
    undo themselves, and four rotations give back the original bar. *)
Theorem applySpatialRotation_lanes (cfg : MorphingConfig) (bs : list EnhancedBeatData) :
  Forall lane_ok bs ->
  (forall v, Forall lane_ok (applySpatialRotation cfg bs v)) /\
  applySpatialRotation cfg (applySpatialRotation cfg bs Mirror) Mirror = bs /\
  applySpatialRotation cfg (applySpatialRotation cfg bs Invert) Invert = bs /\
  applySpatialRotation cfg (applySpatialRotation cfg (applySpatialRotation cfg
    (applySpatialRotation cfg bs Rotate) Rotate) Rotate) Rotate = bs.
Proof.
  intros H. unfold applySpatialRotation.
  destruct (spatialRotation cfg); cbn [negb]; [|repeat split; auto].
  rewrite Forall_forall in H. rewrite !map_map.
  split; [|split; [|split]].
  - intros v. apply Forall_forall. intros y Hy. apply in_map_iff in Hy.
    destruct Hy as [x [<- Hx]]. unfold lane_ok. rewrite lane_set_lane.
    destruct (lane_cases x (H x Hx)) as [E|[E|[E|E]]]; rewrite E;
      destruct v; vm_compute; split; discriminate.
  - apply map_id_in. intros x Hx. rewrite lane_set_lane, set_lane_set_lane.
    replace (3 - (3 - lane x))%Z with (lane x) by lia. apply set_lane_same.
  - apply map_id_in. intros x Hx. rewrite lane_set_lane, set_lane_set_lane.
    destruct (lane_cases x (H x Hx)) as [E|[E|[E|E]]]; rewrite E; vm_compute;
      rewrite <- E; apply set_lane_same.
  - apply map_id_in. intros x Hx. rewrite !lane_set_lane, !set_lane_set_lane.
    destruct (lane_cases x (H x Hx)) as [E|[E|[E|E]]]; rewrite E; vm_compute;
      rewrite <- E; apply set_lane_same.
Qed.

Lemma applySpatialRotation_lanes_witness :
  Forall lane_ok sample_bar /\
  applySpatialRotation sample_morph (applySpatialRotation sample_morph sample_bar Invert) Invert
    = sample_bar.
Proof.
  assert (H : Forall lane_ok sample_bar)
    by (repeat constructor; unfold lane_ok; simpl; lia).
  split; [exact H|]. apply (applySpatialRotation_lanes sample_morph sample_bar H).
Defined.

Lemma mem_lane_true (x : Z) (L : list EnhancedBeatData) :
  mem_Z x (map lane L) = true -> exists b, In b L /\ lane b = x.
Proof.
  unfold mem_Z. intros H. apply existsb_exists in H. destruct H as [y [Hy E]].
  apply in_map_iff in Hy. destruct Hy as [b [<- Hb]]. apply Z.eqb_eq in E.
  exists b. split; [exact Hb|symmetry; exact E].
Qed.

Lemma mem_lane_false (x : Z) (L : list EnhancedBeatData) :
  mem_Z x (map lane L) = false -> forall b, In b L -> lane b <> x.
Proof.
  unfold mem_Z. intros H b Hb E. subst x.
  assert (T : existsb (Z.eqb (lane b)) (map lane L) = true).
  { apply existsb_exists. exists (lane b). split; [apply in_map, Hb|apply Z.eqb_refl]. }
  rewrite T in H. discriminate.
Qed.

(** [addAnticipationNotes] adds exactly one beat, 0.5 s before the section
    change, and returns the beats in time order.  Its lane is 1, 2 or 3 and
    never 0: it is 1 unless nearby beats (closer than 0.3 s) use both lane 0
    and lane 1, and a lane other than 1 is one no nearby beat uses. *)
Theorem addAnticipationNotes_spec (beats : list EnhancedBeatData) (t : Q) :
  exists ab,
    Permutation (addAnticipationNotes beats t) (ab :: beats) /\
    Sorted (key_le _ eb_time) (addAnticipationNotes beats t) /\
    eb_time ab = t - 0.5 /\ templateName ab = Some "anticipation"%string /\
    (1 <= lane ab <= 3)%Z /\
    (lane ab <> 1%Z ->
       (exists b0, In b0 beats /\ Qabs (eb_time b0 - (t - 0.5)) < 0.3 /\ lane b0 = 0%Z) /\
       (exists b1, In b1 beats /\ Qabs (eb_time b1 - (t - 0.5)) < 0.3 /\ lane b1 = 1%Z) /\
       (forall b, In b beats -> Qabs (eb_time b - (t - 0.5)) < 0.3 -> lane b <> lane ab)).
Proof.
  unfold addAnticipationNotes.
  set (L := filter (fun b => qlt (Qabs (eb_time b - (t - 0.5))) 0.3) beats).
  set (ab := mkEB (t - 0.5) 0.3 150 Bass None (anticipationLaneOf L) Sparse Bridge None
                  (Some false) (Some 0) (Some "anticipation"%string) None).
  exists ab. split; [|split; [|split; [reflexivity|split; [reflexivity|]]]].
  - eapply Permutation_trans; [apply sort_by_perm|].
    apply Permutation_sym, Permutation_cons_append.
  - apply sort_by_sorted.
  - assert (HL : forall b, In b L -> In b beats /\ Qabs (eb_time b - (t - 0.5)) < 0.3).
    { intros b Hb. unfold L in Hb. apply filter_In in Hb. destruct Hb as [Hb Hq].
      split; [exact Hb|apply qlt_true, Hq]. }
    assert (HL' : forall b, In b beats -> Qabs (eb_time b - (t - 0.5)) < 0.3 -> In b L).
    { intros b Hb Hq. unfold L. apply filter_In. split; [exact Hb|apply qlt_true, Hq]. }
    assert (Used : forall x, mem_Z x (map lane L) = true ->
              exists b, In b beats /\ Qabs (eb_time b - (t - 0.5)) < 0.3 /\ lane b = x).
    { intros x Hx. destruct (mem_lane_true x L Hx) as [b [Hb E]].
      destruct (HL b Hb). exists b. repeat split; assumption. }
    assert (Free : forall x, mem_Z x (map lane L) = false ->
              forall b, In b beats -> Qabs (eb_time b - (t - 0.5)) < 0.3 -> lane b <> x).
    { intros x Hx b Hb Hq. apply (mem_lane_false x L Hx), HL'; assumption. }
    cbn [lane ab]. unfold anticipationLaneOf.
    destruct (Nat.ltb 0 (List.length L)); [|split; [lia|intros C; lia]].
    cbn [find_first].
    destruct (mem_Z 0 (map lane L)) eqn:E0; cbn [negb];
      [|cbn [Z.eqb]; split; [lia|intros C; lia]].
    destruct (mem_Z 1 (map lane L)) eqn:E1; cbn [negb];
      [|cbn [Z.eqb]; split; [lia|intros C; lia]].
    destruct (mem_Z 2 (map lane L)) eqn:E2; cbn [negb].
    + destruct (mem_Z 3 (map lane L)) eqn:E3; cbn [negb]; [split; [lia|intros C; lia]|].
      cbn [Z.eqb]. split; [lia|]. intros _.
      split; [apply Used, E0|split; [apply Used, E1|apply Free, E3]].
    + cbn [Z.eqb]. split; [lia|]. intros _.
      split; [apply Used, E0|split; [apply Used, E1|apply Free, E2]].
Qed.

(** A draw of [Math.random()] in [0, 1) picks a base index with a successor. *)
Lemma burst_index (rng : nat -> Q) (n r : nat) :
  (forall m, 0 <= rng m < 1) -> (2 <= n)%nat ->
  (0 <= Qfloor (rng r * (qnat n - 1)) /\ Qfloor (rng r * (qnat n - 1)) + 1 < Z.of_nat n)%Z.
Proof.
  intros Hr Hn. destruct (Hr r) as [H0 H1].
  assert (Hq : inject_Z 2 <= qnat n) by (unfold qnat; rewrite <- Zle_Qle; lia).
  change (inject_Z 2) with 2 in Hq.
  set (x := rng r * (qnat n - 1)).
  assert (Hx0 : 0 <= x) by (unfold x; nra).
  assert (Hx1 : x < qnat n - 1) by (unfold x; nra).
  split.
  - pose proof (Qfloor_resp_le 0 x Hx0) as E. change (Qfloor 0) with 0%Z in E. exact E.
  - rewrite Zlt_Qlt. rewrite inject_Z_plus. change (inject_Z 1) with 1.
    pose proof (Qfloor_le x). unfold qnat in Hx1. lra.
Qed.

Lemma burst_loop_spec (rng : nat -> Q) (beats : list EnhancedBeatData) :
  (forall m, 0 <= rng m < 1) -> (2 <= List.length beats)%nat ->
  forall k r acc, exists ex,
    burst_loop rng beats k r acc = Some (acc ++ ex, (r + k)%nat) /\
    (List.length ex <= k)%nat /\
    Forall (fun e => exists j b b', nth_error beats j = Some b /\
              nth_error beats (S j) = Some b' /\ 0.2 < eb_time b' - eb_time b /\
              e = burstBeat b) ex.
Proof.
  intros Hr Hn. induction k as [|k IH]; intros r acc.
  - exists []. rewrite app_nil_r, Nat.add_0_r. split; [reflexivity|split; [apply Nat.le_refl|constructor]].
  - cbn [burst_loop].
    destruct (burst_index rng (List.length beats) r Hr Hn) as [Hlo Hhi].
    set (i := Qfloor (rng r * (qnat (List.length beats) - 1))) in *.
    unfold js_index.
    destruct (Z.ltb_spec i 0) as [C|_]; [lia|].
    destruct (Z.ltb_spec (i + 1) 0) as [C|_]; [lia|].
    replace (Z.to_nat (i + 1)) with (S (Z.to_nat i)) by lia.
    destruct (nth_error beats (Z.to_nat i)) as [b|] eqn:Eb;
      [|apply nth_error_None in Eb; lia].
    destruct (nth_error beats (S (Z.to_nat i))) as [b'|] eqn:Eb';
      [|apply nth_error_None in Eb'; lia].
    destruct (qlt 0.2 (eb_time b' - eb_time b)) eqn:Eq.
    + destruct (IH (S r) (acc ++ [burstBeat b])) as [ex [E1 [E2 E3]]].
      exists (burstBeat b :: ex). rewrite E1, <- app_assoc.
      replace (S r + k)%nat with (r + S k)%nat by lia.
      split; [reflexivity|split; [simpl; lia|]].
      constructor; [|exact E3].
      exists (Z.to_nat i), b, b'. split; [exact Eb|split; [exact Eb'|]].
      split; [apply qlt_true, Eq|reflexivity].
    + destruct (IH (S r) acc) as [ex [E1 [E2 E3]]].
      exists ex. rewrite E1. replace (S r + k)%nat with (r + S k)%nat by lia.
      split; [reflexivity|split; [lia|exact E3]].
Qed.

(** With density bursts on, a bar of at least two beats and [Math.random()]
    in [0, 1), [addDensityBurst] does not throw: it makes
    [floor(n * burstIntensity)] draws and returns, in time order, the input
    beats and at most that many added beats, each the copy [burstBeat b] of a
    beat [b] (0.1 s later, on the next lane, pattern dense) whose successor
    in the input is more than 0.2 s after it. *)
Theorem addDensityBurst_spec (cfg : MorphingConfig) (rng : nat -> Q) (r : nat)
    (beats : list EnhancedBeatData) (burstIntensity : Q) :
  (forall m, 0 <= rng m < 1) -> densityBursts cfg = true -> (2 <= List.length beats)%nat ->
  let k := Z.to_nat (Qfloor (qnat (List.length beats) * burstIntensity)) in
  exists out extras,
    addDensityBurst cfg rng r beats burstIntensity = Some (out, (r + k)%nat) /\
    Sorted (key_le _ eb_time) out /\ Permutation out (beats ++ extras) /\
    (List.length extras <= k)%nat /\
    Forall (fun e => exists j b b', nth_error beats j = Some b /\
              nth_error beats (S j) = Some b' /\ 0.2 < eb_time b' - eb_time b /\
              e = burstBeat b) extras.
Proof.
  intros Hr Hf Hn k. unfold addDensityBurst. rewrite Hf. cbn [negb orb].
  destruct (Nat.ltb_spec (List.length beats) 2) as [C|_]; [lia|].
  destruct (burst_loop_spec rng beats Hr Hn k r beats) as [ex [E1 [E2 E3]]].
  fold k. rewrite E1.
  exists (sort_by eb_time (beats ++ ex)), ex.
  split; [reflexivity|split; [apply sort_by_sorted|split; [apply sort_by_perm|]]].
  split; assumption.
Qed.

Lemma addDensityBurst_spec_witness :
  (forall m : nat, 0 <= (fun _ : nat => 1 # 2) m < 1) /\
  exists out extras,
    addDensityBurst sample_morph (fun _ => 1 # 2) 0 sample_bar 1 = Some (out, 4%nat) /\
    Sorted (key_le _ eb_time) out /\ Permutation out (sample_bar ++ extras) /\
    (List.length extras <= 4)%nat /\
    Forall (fun e => exists j b b', nth_error sample_bar j = Some b /\
              nth_error sample_bar (S j) = Some b' /\ 0.2 < eb_time b' - eb_time b /\
              e = burstBeat b) extras.
Proof.
  assert (H : forall m : nat, 0 <= (fun _ : nat => 1 # 2) m < 1)
    by (intros m; split; [vm_compute; intro C; discriminate C|reflexivity]).
  split; [exact H|].
  exact (addDensityBurst_spec sample_morph (fun _ => 1 # 2) 0 sample_bar 1 H
           eq_refl ltac:(simpl; lia)).
Defined.

Lemma choreographBeat_lane (rng : nat -> Q) (e : Q) (contour : list Q) (index : nat)
    (beat : EnhancedBeatData) (r : nat) :
  lane_ok beat \/ (index < List.length contour)%nat ->
  lane_ok (fst (choreographBeat rng e contour index beat r)) /\
  set_lane (fst (choreographBeat rng e contour index beat r)) 0 = set_lane beat 0.
Proof.
  intros H. unfold choreographBeat.
  destruct (nth_error contour index) as [cv|] eqn:En.
  - repeat (destruct (qlt _ _)); cbn [fst]; unfold lane_ok;
      rewrite lane_set_lane, set_lane_set_lane; split; (lia || reflexivity).
  - destruct H as [H|H]; [|apply nth_error_None in En; lia].
    unfold lane_ok in *.
    repeat (destruct (qlt _ _)); cbn [fst];
      rewrite lane_set_lane, set_lane_set_lane; split; (lia || reflexivity).
Qed.

Lemma choreograph_loop_lanes (rng : nat -> Q) (e : Q) (contour : list Q) :
  forall bs index r,
  Forall lane_ok bs \/ (index + List.length bs <= List.length contour)%nat ->
  Forall lane_ok (fst (choreograph_loop rng e contour index bs r)) /\
  map (fun b => set_lane b 0) (fst (choreograph_loop rng e contour index bs r)) =
  map (fun b => set_lane b 0) bs.
Proof.
  induction bs as [|b rest IH]; intros index r H; [split; [constructor|reflexivity]|].
  cbn [choreograph_loop].
  assert (Hb : lane_ok b \/ (index < List.length contour)%nat).
  { destruct H as [H|H]; [left; inversion H; assumption|right; simpl in H; lia]. }
  destruct (choreographBeat_lane rng e contour index b r Hb) as [L1 L2].
  destruct (choreographBeat rng e contour index b r) as [b' r1]. cbn [fst] in L1, L2.
  assert (Hr : Forall lane_ok rest \/ (S index + List.length rest <= List.length contour)%nat).
  { destruct H as [H|H]; [left; inversion H; assumption|right; simpl in H; lia]. }
  destruct (IH (S index) r1 Hr) as [R1 R2].
  destruct (choreograph_loop rng e contour (S index) rest r1) as [rest' r2].
  cbn [fst] in R1, R2 |- *. split; [constructor; assumption|].
  cbn [map]. rewrite L2, R2. reflexivity.
Qed.

(** [applyLaneChoreography] only changes lanes and keeps every lane in
    0..3: for a bar with lanes 0..3, or, with choreography on, for any bar
    when the harmonic contour has a value for every beat. *)
Theorem applyLaneChoreography_lanes (cfg : MorphingConfig) (rng : nat -> Q) (r : nat)
    (beats : list EnhancedBeatData) (energyLevel : Q) (harmonicContour : list Q) :
  Forall lane_ok beats \/
  (laneChoreography cfg = true /\ (List.length beats <= List.length harmonicContour)%nat) ->
  Forall lane_ok (fst (applyLaneChoreography cfg rng r beats energyLevel harmonicContour)) /\
  map (fun b => set_lane b 0)
    (fst (applyLaneChoreography cfg rng r beats energyLevel harmonicContour)) =
  map (fun b => set_lane b 0) beats.
Proof.
  intros H. unfold applyLaneChoreography.
  destruct (laneChoreography cfg) eqn:Ec; cbn [negb].
  - apply choreograph_loop_lanes. destruct H as [H|[_ H]]; [left; exact H|right; exact H].
  - destruct H as [H|[C _]]; [|discriminate]. split; [exact H|reflexivity].
Qed.

Lemma applyLaneChoreography_lanes_witness :
  Forall lane_ok (fst (applyLaneChoreography sample_morph sample_rng 0
    [set_lane (sample_beat 0 0) 7; set_lane (sample_beat 1 1) (-2)] 0.8 [0.1; 0.9])).
Proof.
  apply (applyLaneChoreography_lanes sample_morph sample_rng 0
    [set_lane (sample_beat 0 0) 7; set_lane (sample_beat 1 1) (-2)] 0.8 [0.1; 0.9]).
  right. split; [reflexivity|simpl; lia].
Defined.

Lemma js_index_nat {A} (l : list A) (i : nat) : js_index l (Z.of_nat i) = nth_error l i.
Proof.
  unfold js_index. destruct (Z.ltb_spec (Z.of_nat i) 0) as [C|_]; [lia|].
  rewrite Nat2Z.id. reflexivity.
Qed.

(** One guarded update of the smoothing loop of [crossfadeTemplates]. *)
Lemma crossfade_step_nth (f : EnhancedBeatData -> EnhancedBeatData) (n : nat)
    (acc : list EnhancedBeatData) (j : Z) (k : nat) :
  List.length acc = n ->
  nth_error (if Z.leb 0 j && Z.ltb j (Z.of_nat (List.length acc)) && Z.ltb j (Z.of_nat n)
             then update_nth (Z.to_nat j) f acc else acc) k =
  if Z.eqb (Z.of_nat k) j then option_map f (nth_error acc k) else nth_error acc k.
Proof.
  intros Hl. subst n.
  destruct (Z.eqb_spec (Z.of_nat k) j) as [E|E].
  - subst j. rewrite Nat2Z.id.
    destruct (Z.leb_spec 0 (Z.of_nat k)) as [_|C]; [|lia]. cbn [andb].
    destruct (Z.ltb_spec (Z.of_nat k) (Z.of_nat (List.length acc))) as [_|C]; cbn [andb].
    + apply update_nth_nth_same.
    + assert (N : nth_error acc k = None) by (apply nth_error_None; lia).
      rewrite N. reflexivity.
  - destruct (Z.leb_spec 0 j); cbn [andb]; [|reflexivity].
    destruct (_ && _); [|reflexivity].
    apply update_nth_nth_other. lia.
Qed.

Lemma crossfade_step_length (f : EnhancedBeatData -> EnhancedBeatData) (n : nat)
    (acc : list EnhancedBeatData) (j : Z) :
  List.length (if Z.leb 0 j && Z.ltb j (Z.of_nat (List.length acc)) && Z.ltb j (Z.of_nat n)
               then update_nth (Z.to_nat j) f acc else acc) = List.length acc.
Proof. destruct (_ && _ && _); [apply update_nth_length|reflexivity]. Qed.

Lemma eb_intensity_set_intensity b i : eb_intensity (set_intensity b i) = i.
Proof. reflexivity. Qed.

Lemma set_intensity_set_intensity b i j : set_intensity (set_intensity b i) j = set_intensity b j.
Proof. destruct b; reflexivity. Qed.

(** For two bars of the same length [n] and a ratio in [0, 1],
    [crossfadeTemplates] returns a bar of length [n] whose beats before
    [mid = floor(n * ratio)] come from the first bar and the others from the
    second, with only the intensity changed at the three positions around
    [mid]: there it is the mean of the two bars' intensities (a missing or
    zero one counting as 0.5) at [mid - 1] and [mid + 1], and the second
    bar's at [mid]. *)
Theorem crossfadeTemplates_spec (fromBeats toBeats : list EnhancedBeatData) (ratio : Q) :
  List.length toBeats = List.length fromBeats -> 0 <= ratio <= 1 ->
  let mid := Qfloor (qnat (List.length fromBeats) * ratio) in
  (0 <= mid <= Z.of_nat (List.length fromBeats))%Z /\
  List.length (crossfadeTemplates fromBeats toBeats ratio) = List.length fromBeats /\
  forall i f t, nth_error fromBeats i = Some f -> nth_error toBeats i = Some t ->
    exists o, nth_error (crossfadeTemplates fromBeats toBeats ratio) i = Some o /\
      let src := if Z.ltb (Z.of_nat i) mid then f else t in
      set_intensity o 0 = set_intensity src 0 /\
      eb_intensity o ==
        (if Z.leb 2 (Z.abs (Z.of_nat i - mid)) then eb_intensity src
         else if Z.eqb (Z.of_nat i) mid then or_num (eb_intensity t) 0.5
         else (or_num (eb_intensity f) 0.5 + or_num (eb_intensity t) 0.5) / 2).
Proof.
  intros Hlen Hr mid.
  set (n := List.length fromBeats) in *.
  assert (Hmid : (0 <= mid <= Z.of_nat n)%Z).
  { pose proof (qnat_nonneg n).
    assert (A0 : 0 <= qnat n * ratio) by nra.
    assert (A1 : qnat n * ratio <= qnat n) by nra.
    split.
    - pose proof (Qfloor_resp_le 0 _ A0) as E. change (Qfloor 0) with 0%Z in E. exact E.
    - pose proof (Qfloor_resp_le _ _ A1) as E. unfold qnat in E. rewrite Qfloor_Z in E.
      exact E. }
  split; [exact Hmid|].
  unfold crossfadeTemplates. fold n. fold mid.
  assert (Si : forall l : list EnhancedBeatData, List.length l = n ->
            slice_index (List.length l) mid = Z.to_nat mid).
  { intros l Hl. rewrite Hl. unfold slice_index.
    destruct (Z.ltb_spec mid 0) as [C|_]; [lia|]. lia. }
  unfold js_slice_to, js_slice_from. rewrite (Si fromBeats eq_refl), (Si toBeats Hlen).
  set (c := firstn (Z.to_nat mid) fromBeats ++ skipn (Z.to_nat mid) toBeats).
  assert (Hc : List.length c = n).
  { unfold c. rewrite length_app, firstn_length_le, length_skipn; lia. }
  cbn [fold_left].
  split.
  - rewrite !crossfade_step_length. exact Hc.
  - intros i f t Ef Et.
    assert (Hi : (i < n)%nat) by (apply nth_error_Some; rewrite Ef; discriminate).
    rewrite crossfade_step_nth by (rewrite !crossfade_step_length; exact Hc).
    rewrite crossfade_step_nth by (rewrite !crossfade_step_length; exact Hc).
    rewrite crossfade_step_nth by exact Hc.
    assert (Nc : nth_error c i = Some (if Z.ltb (Z.of_nat i) mid then f else t)).
    { unfold c. destruct (Z.ltb_spec (Z.of_nat i) mid).
      - rewrite nth_error_app1 by (rewrite firstn_length_le; lia).
        rewrite nth_error_firstn. destruct (Nat.ltb_spec i (Z.to_nat mid)); [exact Ef|lia].
      - rewrite nth_error_app2 by (rewrite firstn_length_le; lia).
        rewrite firstn_length_le by lia. rewrite nth_error_skipn.
        replace (Z.to_nat mid + (i - Z.to_nat mid))%nat with i by lia. exact Et. }
    rewrite Nc. set (src := if Z.ltb (Z.of_nat i) mid then f else t).
    assert (Hh : forall j, Z.of_nat i = j ->
              let o := set_intensity src (crossfadeIntensity fromBeats toBeats mid j) in
              set_intensity o 0 = set_intensity src 0 /\
              eb_intensity o ==
                or_num (eb_intensity f) 0.5 * (inject_Z (Z.abs (Z.of_nat i - mid)) / 2) +
                or_num (eb_intensity t) 0.5 * (1 - inject_Z (Z.abs (Z.of_nat i - mid)) / 2)).
    { intros j <- o. unfold o. rewrite set_intensity_set_intensity, eb_intensity_set_intensity.
      split; [reflexivity|]. unfold crossfadeIntensity. rewrite !js_index_nat, Ef, Et.
      reflexivity. }
    destruct (Z.eqb_spec (Z.of_nat i) (mid - 1)) as [E1|E1];
    destruct (Z.eqb_spec (Z.of_nat i) mid) as [E2|E2];
    destruct (Z.eqb_spec (Z.of_nat i) (mid + 1)) as [E3|E3]; try lia;
    cbn [option_map]; eexists; (split; [reflexivity|]).
    + destruct (Hh _ E1) as [H1 H2]. split; [exact H1|]. rewrite H2.
      replace (Z.abs (Z.of_nat i - mid)) with 1%Z by lia.
      destruct (Z.leb_spec 2 1) as [C|_]; [exfalso; lia|]. destruct (Z.eqb_spec (Z.of_nat i) mid); [lia|].
      change (inject_Z 1) with 1. field.
    + destruct (Hh _ E2) as [H1 H2]. split; [exact H1|]. rewrite H2.
      replace (Z.abs (Z.of_nat i - mid)) with 0%Z by lia.
      destruct (Z.leb_spec 2 0) as [C|_]; [exfalso; lia|]. destruct (Z.eqb_spec (Z.of_nat i) mid); [|lia].
      change (inject_Z 0) with 0. field.
    + destruct (Hh _ E3) as [H1 H2]. split; [exact H1|]. rewrite H2.
      replace (Z.abs (Z.of_nat i - mid)) with 1%Z by lia.
      destruct (Z.leb_spec 2 1) as [C|_]; [exfalso; lia|]. destruct (Z.eqb_spec (Z.of_nat i) mid); [lia|].
      change (inject_Z 1) with 1. field.
    + split; [reflexivity|].
      destruct (Z.leb_spec 2 (Z.abs (Z.of_nat i - mid))) as [_|C]; [reflexivity|lia].
Qed.

Lemma crossfadeTemplates_spec_witness :
  List.length (crossfadeTemplates sample_bar (map (fun b => set_intensity b 0.4) sample_bar) 0.5)
    = List.length sample_bar.
Proof.
  apply (crossfadeTemplates_spec sample_bar (map (fun b => set_intensity b 0.4) sample_bar) 0.5
           eq_refl).
  split; [vm_compute; intro C; discriminate C|vm_compute; intro C; discriminate C].
Defined.

(* ------------------------------------------------------------------ *)
(** ** Fixed bar patterns *)

Lemma euclid_loop_length (h S : Q) : forall n b, List.length (euclid_loop h S n b) = n.
Proof.
  induction n as [|n IH]; intros b; [reflexivity|].
  cbn [euclid_loop]. destruct (qle S (b + h)); cbn [List.length]; rewrite IH; reflexivity.
Qed.

Lemma count_true_cons (x : bool) (l : list bool) :
  List.length (filter (fun y : bool => y) (x :: l)) =
  ((if x then 1 else 0) + List.length (filter (fun y : bool => y) l))%nat.
Proof. destruct x; reflexivity. Qed.

(** The bucket invariant: after [n] steps from bucket [b], [c] hits were
    placed with [c * St <= b + n * h < (c + 1) * St]. *)
Lemma euclid_loop_count (h St : Q) : 0 <= h < St ->
  forall n b, 0 <= b < St ->
  let c := qnat (List.length (filter (fun y : bool => y) (euclid_loop h St n b))) in
  c * St <= b + qnat n * h < (c + 1) * St.
Proof.
  intros Hh. induction n as [|n IH]; intros b Hb c.
  - unfold c. cbn [euclid_loop filter List.length]. change (qnat 0) with 0. lra.
  - unfold c. cbn [euclid_loop]. destruct (qle St (b + h)) eqn:E.
    + apply qle_true in E.
      assert (Hb' : 0 <= b + h - St < St) by lra.
      pose proof (IH _ Hb') as I. cbv zeta in I.
      rewrite count_true_cons. cbn [Nat.add]. rewrite !qnat_S.
      set (q := qnat (List.length _)) in *. nra.
    + apply qle_false in E.
      assert (Hb' : 0 <= b + h < St) by lra.
      pose proof (IH _ Hb') as I. cbv zeta in I.
      rewrite count_true_cons, qnat_S. cbn [Nat.add].
      set (q := qnat (List.length _)) in *. nra.
Qed.

Lemma euclid_loop_neg (h St : Q) : h < 0 -> 0 < St ->
  forall n b, b <= 0 -> List.length (filter (fun y : bool => y) (euclid_loop h St n b)) = O.
Proof.
  intros Hh HS. induction n as [|n IH]; intros b Hb; [reflexivity|].
  cbn [euclid_loop]. destruct (qle St (b + h)) eqn:E.
  - apply qle_true in E. lra.
  - rewrite count_true_cons. apply IH. lra.
Qed.

Lemma floor_between (c : Z) (x : Q) : inject_Z c <= x < inject_Z c + 1 -> Qfloor x = c.
Proof.
  intros [H1 H2].
  pose proof (Qfloor_resp_le _ _ H1) as E1. rewrite Qfloor_Z in E1.
  assert (E2 : (Qfloor x < c + 1)%Z).
  { rewrite Zlt_Qlt, inject_Z_plus. pose proof (Qfloor_le x). change (inject_Z 1) with 1. lra. }
  lia.
Qed.

Lemma euclid_rhythm_count (hits : Q) (steps : nat) :
  List.length (generateEuclideanRhythm hits steps) = steps /\
  Z.of_nat (List.length (filter (fun y : bool => y) (generateEuclideanRhythm hits steps))) =
  Z.max 0 (Z.min (Z.of_nat steps) (Qfloor hits)).
Proof.
  unfold generateEuclideanRhythm.
  destruct (qle (qnat steps) hits) eqn:E.
  - apply qle_true in E. rewrite repeat_length. split; [reflexivity|].
    assert (F : forall k, filter (fun y : bool => y) (repeat true k) = repeat true k)
      by (induction k as [|k IH]; [reflexivity|cbn; f_equal; exact IH]).
    rewrite F, repeat_length.
    pose proof (Qfloor_resp_le _ _ E) as Fl. unfold qnat in Fl. rewrite Qfloor_Z in Fl. lia.
  - apply qle_false in E. rewrite euclid_loop_length. split; [reflexivity|].
    destruct steps as [|k].
    + cbn [euclid_loop filter List.length]. lia.
    + assert (HS : 0 < qnat (S k)) by (apply (qnat_lt 0); lia).
      destruct (Qlt_le_dec hits 0) as [Hn|Hp].
      * rewrite (euclid_loop_neg hits (qnat (S k)) Hn HS (S k) 0 (Qle_refl 0)).
        assert (Fl : (Qfloor hits < 0)%Z).
        { rewrite Zlt_Qlt. pose proof (Qfloor_le hits). change (inject_Z 0) with 0. lra. }
        lia.
      * assert (I := euclid_loop_count hits (qnat (S k)) (conj Hp E) (S k) 0
                       (conj (Qle_refl 0) HS)).
        cbv zeta in I.
        set (c := List.length _) in *.
        assert (Hc : Qfloor hits = Z.of_nat c).
        { apply floor_between. fold (qnat c). destruct I as [I1 I2]. split.
          - apply (Qmult_le_r _ _ (qnat (S k)) HS). lra.
          - apply (Qmult_lt_r _ _ (qnat (S k)) HS). lra. }
        assert (Hlt : (Qfloor hits < Z.of_nat (S k))%Z).
        { rewrite Zlt_Qlt. pose proof (Qfloor_le hits). unfold qnat in E. lra. }
        lia.
Qed.

Lemma generateEuclideanRhythm_length (hits : Q) (steps : nat) :
  List.length (generateEuclideanRhythm hits steps) = steps.
Proof.
  unfold generateEuclideanRhythm. destruct (qle (qnat steps) hits);
    [apply repeat_length|apply euclid_loop_length].
Qed.

Lemma SSorted_impl {A} (R R' : A -> A -> Prop) (l : list A) :
  (forall x y, R x y -> R' x y) -> StronglySorted R l -> StronglySorted R' l.
Proof.
  intros H Hs. induction Hs as [|x l Hl IH Hx]; constructor; [exact IH|].
  eapply Forall_impl; [|exact Hx]. intros y; apply H.
Qed.

Lemma SSorted_flat_map {A} (tau : A -> Q) (f : A -> list EnhancedBeatData) (l : list A) :
  StronglySorted (fun x y => tau x < tau y) l ->
  (forall x, In x l -> f x = [] \/ exists b, f x = [b] /\ eb_time b == tau x) ->
  StronglySorted (fun x y => eb_time x < eb_time y) (flat_map f l).
Proof.
  intros Hs Hf. induction Hs as [|x l Hl IH Hx]; [constructor|].
  cbn [flat_map].
  assert (IH' : StronglySorted (fun x y => eb_time x < eb_time y) (flat_map f l))
    by (apply IH; intros y Hy; apply Hf; right; exact Hy).
  destruct (Hf x (or_introl eq_refl)) as [E|[b [E Eb]]]; rewrite E; [exact IH'|].
  cbn [app]. constructor; [exact IH'|].
  apply Forall_forall. intros y Hy. apply in_flat_map in Hy. destruct Hy as [x' [Hx' Hy]].
  rewrite Forall_forall in Hx. specialize (Hx x' Hx').
  destruct (Hf x' (or_intror Hx')) as [E'|[b' [E' Eb']]]; rewrite E' in Hy; [destruct Hy|].
  destruct Hy as [<-|[]]. rewrite Eb, Eb'. exact Hx.
Qed.

Lemma Forall_flat_map_in {A B} (P : B -> Prop) (f : A -> list B) (l : list A) :
  (forall x, In x l -> Forall P (f x)) -> Forall P (flat_map f l).
Proof.
  intros H. apply Forall_forall. intros y Hy. apply in_flat_map in Hy.
  destruct Hy as [x [Hx Hy]]. specialize (H x Hx). rewrite Forall_forall in H. apply H, Hy.
Qed.

Lemma map_as_flat_map {A B} (f : A -> B) (l : list A) : map f l = flat_map (fun x => [f x]) l.
Proof. induction l as [|x r IH]; [reflexivity|]. cbn. rewrite IH. reflexivity. Qed.

Lemma flat_map_nested {A B C} (g : A -> B -> list C) (l1 : list A) (l2 : list B) :
  flat_map (fun i => flat_map (g i) l2) l1 = flat_map (fun p => g (fst p) (snd p)) (list_prod l1 l2).
Proof.
  assert (M : forall x, flat_map (g x) l2 =
             flat_map (fun p => g (fst p) (snd p)) (map (fun y => (x, y)) l2)).
  { intros x. induction l2 as [|y r2 IH2]; [reflexivity|]. cbn. rewrite IH2. reflexivity. }
  induction l1 as [|x r IH]; [reflexivity|].
  cbn [flat_map list_prod]. rewrite flat_map_app, IH, <- M. reflexivity.
Qed.

Lemma seq_tau_sorted (s c : Q) : 0 < c ->
  forall n k, StronglySorted (fun x y => s + qnat x * c < s + qnat y * c) (seq k n).
Proof.
  intros Hc. induction n as [|n IH]; intros k; [constructor|].
  cbn [seq]. constructor; [apply IH|].
  apply Forall_forall. intros y Hy. apply in_seq in Hy.
  assert (L : qnat k < qnat y) by (apply qnat_lt; lia).
  apply Qplus_lt_r. apply Qmult_lt_r; assumption.
Qed.

Lemma combine_seq_sorted {B} : forall (l : list B) n k,
  StronglySorted (fun x y => (fst x < fst y)%nat) (combine (seq k n) l).
Proof.
  induction l as [|b r IH]; intros n k; destruct n as [|n]; cbn [seq combine];
    [constructor|constructor|constructor|].
  constructor; [apply IH|].
  apply Forall_forall. intros [i x] Hin. apply in_combine_l, in_seq in Hin. cbn [fst]. lia.
Qed.

Lemma rem4_range (z : Z) : (0 <= z)%Z -> (0 <= js_mod z 4 <= 3)%Z.
Proof.
  intros H. unfold js_mod. pose proof (Z.rem_bound_pos z 4 H ltac:(lia)). lia.
Qed.

Lemma div_pos_nonneg (x y : Q) : 0 <= x -> 0 < y -> 0 <= x / y.
Proof. intros Hx Hy. apply Qle_shift_div_l; [exact Hy|]. rewrite Qmult_0_l. exact Hx. Qed.

Lemma patternBeatDuration_pos (g : BeatmapGenerator) (bd : Q) :
  0 <= bpm (audioAnalysis g) -> 0 < gen_speedMultiplier g ->
  patternBeatDuration g = Some bd -> 0 < bd.
Proof.
  intros Hb Hs E. unfold patternBeatDuration in E.
  destruct (Qeq_bool (bpm (audioAnalysis g)) 0) eqn:Z0; [discriminate|].
  injection E as <-.
  assert (Hp : 0 < bpm (audioAnalysis g)).
  { apply Qle_lteq in Hb. destruct Hb as [Hb|Hb]; [exact Hb|].
    assert (C : Qeq_bool (bpm (audioAnalysis g)) 0 = true)
      by (apply Qeq_bool_iff; symmetry; exact Hb).
    rewrite C in Z0. discriminate. }
  unfold Qdiv. apply Qmult_lt_0_compat; [apply Qmult_lt_0_compat|];
    [reflexivity|apply Qinv_lt_0_compat, Hp|apply Qinv_lt_0_compat, Hs].
Qed.

(** The shape of a guarded push [if (time < bar.endTime) beats.push(...)]. *)
Lemma guarded_beat_ok (bar : Bar) (sec : SongSection) (time inten : Q) (ln : Z)
    (p : PatternType) (acc : option bool) :
  startTime bar <= time -> (0 <= ln <= 3)%Z ->
  Forall (fun b => lane_ok b /\ startTime bar <= eb_time b < endTime bar /\ section b = sec)
    (if qlt time (endTime bar) then [patternBeat time inten sec ln p acc] else []).
Proof.
  intros H1 H2. destruct (qlt time (endTime bar)) eqn:E; [|constructor].
  apply qlt_true in E. constructor; [|constructor].
  split; [exact H2|split; [split; assumption|reflexivity]].
Qed.

Lemma guarded_beat_shape (bar : Bar) (sec : SongSection) (time inten tau : Q) (ln : Z)
    (p : PatternType) (acc : option bool) :
  time == tau ->
  (if qlt time (endTime bar) then [patternBeat time inten sec ln p acc] else []) = [] \/
  exists b, (if qlt time (endTime bar) then [patternBeat time inten sec ln p acc] else []) = [b] /\
            eb_time b == tau.
Proof.
  intros H. destruct (qlt time (endTime bar)); [right; eexists; split; [reflexivity|exact H]|left; reflexivity].
Qed.

Ltac qnat_lits :=
  repeat match goal with
  | |- context [qnat ?n] => let v := eval cbv in (qnat n) in change (qnat n) with v
  end.

Lemma getDenseLanePattern_range (i : nat) : (0 <= getDenseLanePattern i <= 3)%Z.
Proof.
  unfold getDenseLanePattern.
  assert (H8 : (i mod 8 < 8)%nat) by (apply Nat.mod_upper_bound; lia).
  assert (H3 : ((i / 8) mod 3 < 3)%nat) by (apply Nat.mod_upper_bound; lia).
  destruct ((i / 8) mod 3) as [|[|[|k]]]; [| | |lia];
    (destruct (i mod 8) as [|[|[|[|[|[|[|[|m]]]]]]]]; [..|lia]); cbn; lia.
Qed.

Lemma createEuclideanPattern_ok (g : BeatmapGenerator) (bar : Bar) (sec : SongSection) :
  startTime bar < endTime bar ->
  Forall (bar_beat_ok bar sec) (createEuclideanPattern g bar sec) /\
  StronglySorted (fun x y => eb_time x < eb_time y) (createEuclideanPattern g bar sec).
Proof.
  intros Hse. unfold createEuclideanPattern. cbv zeta.
  match goal with |- context [generateEuclideanRhythm ?h 16] => set (hits := h) end.
  set (pattern := generateEuclideanRhythm hits 16).
  assert (Hl : List.length pattern = 16%nat) by apply generateEuclideanRhythm_length.
  rewrite Hl.
  set (sd := (endTime bar - startTime bar) / qnat 16).
  assert (Hsd : 0 < sd) by (apply Qlt_shift_div_l; [reflexivity|]; change (qnat 16) with 16; lra).
  assert (Hsd16 : qnat 16 * sd == endTime bar - startTime bar)
    by (unfold sd; change (qnat 16) with 16; field).
  split.
  - apply Forall_flat_map_in. intros [step isHit] Hin.
    apply in_combine_l, in_seq in Hin.
    cbv beta iota. destruct isHit; [|constructor].
    constructor; [|constructor].
    split; [|split; [|reflexivity]].
    + apply rem4_range. apply (Qfloor_resp_le 0).
      apply div_pos_nonneg; [|reflexivity].
      apply Qmult_le_0_compat; [apply qnat_nonneg|discriminate].
    + cbn [eb_time patternBeat].
      assert (L1 : 0 <= qnat step * sd) by (apply Qmult_le_0_compat; [apply qnat_nonneg|lra]).
      assert (L2 : qnat step * sd < qnat 16 * sd)
        by (apply Qmult_lt_r; [exact Hsd|apply qnat_lt; lia]).
      split; lra.
  - apply (SSorted_flat_map (fun p => startTime bar + qnat (fst p) * sd)).
    + eapply SSorted_impl; [|apply combine_seq_sorted].
      intros x y Hxy. cbv beta. apply Qplus_lt_r, Qmult_lt_r; [exact Hsd|apply qnat_lt, Hxy].
    + intros [step isHit] _. cbv beta iota. destruct isHit; [right|left; reflexivity].
      eexists; split; [reflexivity|]. reflexivity.
Qed.

Lemma createZigzagPattern_ok (g : BeatmapGenerator) (bar : Bar) (sec : SongSection) :
  startTime bar < endTime bar ->
  Forall (bar_beat_ok bar sec) (createZigzagPattern g bar sec) /\
  StronglySorted (fun x y => eb_time x < eb_time y) (createZigzagPattern g bar sec).
Proof.
  intros Hse. unfold createZigzagPattern. cbv zeta.
  set (N := Z.min 6 (Z.max 2 (Qfloor (bar_energy bar * 8)))).
  assert (HN : (2 <= N <= 6)%Z) by lia.
  assert (HNq : 0 < inject_Z N) by (change 0 with (inject_Z 0); rewrite <- Zlt_Qlt; lia).
  set (iv := (endTime bar - startTime bar) / inject_Z N).
  assert (Hiv : 0 < iv) by (apply Qlt_shift_div_l; [exact HNq|]; lra).
  assert (HivN : inject_Z N * iv == endTime bar - startTime bar)
    by (unfold iv; field; intro C; rewrite C in HNq; discriminate HNq).
  rewrite map_as_flat_map. split.
  - apply Forall_flat_map_in. intros i Hin. apply in_seq in Hin.
    constructor; [|constructor]. split; [|split; [|reflexivity]].
    + unfold lane_ok. cbn [lane patternBeat List.length].
      assert (H4 : (i mod 4 < 4)%nat) by (apply Nat.mod_upper_bound; lia).
      destruct (i mod 4) as [|[|[|[|k]]]]; [..|lia]; cbn; lia.
    + cbn [eb_time patternBeat].
      assert (L1 : 0 <= qnat i * iv) by (apply Qmult_le_0_compat; [apply qnat_nonneg|lra]).
      assert (L2 : qnat i * iv < inject_Z N * iv).
      { apply Qmult_lt_r; [exact Hiv|]. unfold qnat. rewrite <- Zlt_Qlt. lia. }
      split; lra.
  - apply (SSorted_flat_map (fun i => startTime bar + qnat i * iv)).
    + apply seq_tau_sorted, Hiv.
    + intros i _. right. eexists; split; [reflexivity|]. reflexivity.
Qed.

Ltac sorted_concrete :=
  repeat first [apply SSorted_nil | apply SSorted_cons | apply Forall_nil | apply Forall_cons].

Lemma createSyncopatedPattern_ok (g : BeatmapGenerator) (bar : Bar) (sec : SongSection) :
  0 <= bpm (audioAnalysis g) -> 0 < gen_speedMultiplier g ->
  Forall (bar_beat_ok bar sec) (createSyncopatedPattern g bar sec) /\
  StronglySorted (fun x y => eb_time x < eb_time y) (createSyncopatedPattern g bar sec).
Proof.
  intros Hb Hs. unfold createSyncopatedPattern.
  destruct (patternBeatDuration g) as [bd|] eqn:Ebd; [|split; constructor].
  pose proof (patternBeatDuration_pos g bd Hb Hs Ebd) as Hbd.
  cbv zeta. cbn [List.length seq combine]. split.
  - apply Forall_flat_map_in. intros x Hin.
    repeat (destruct Hin as [<-|Hin]; [cbv beta iota; apply guarded_beat_ok; [lra|cbn; lia]|]).
    destruct Hin.
  - apply (SSorted_flat_map (fun p => startTime bar + snd p * bd)).
    + sorted_concrete; cbv beta; cbn [fst snd]; lra.
    + intros [idx off] _. cbv beta iota. apply guarded_beat_shape. reflexivity.
Qed.

Lemma createTripletPattern_ok (g : BeatmapGenerator) (bar : Bar) (sec : SongSection) :
  0 <= bpm (audioAnalysis g) -> 0 < gen_speedMultiplier g ->
  Forall (bar_beat_ok bar sec) (createTripletPattern g bar sec) /\
  StronglySorted (fun x y => eb_time x < eb_time y) (createTripletPattern g bar sec).
Proof.
  intros Hb Hs. unfold createTripletPattern.
  destruct (patternBeatDuration g) as [bd|] eqn:Ebd; [|split; constructor].
  pose proof (patternBeatDuration_pos g bd Hb Hs Ebd) as Hbd.
  cbv zeta. set (t3 := bd * 2 / 3).
  assert (Ht3 : 0 < t3) by (unfold t3; apply Qlt_shift_div_l; [reflexivity|]; lra).
  assert (Ht3' : 3 * t3 == 2 * bd) by (unfold t3; field).
  rewrite flat_map_nested. cbn [list_prod seq map app]. split.
  - apply Forall_flat_map_in. intros x Hin.
    repeat (destruct Hin as [<-|Hin];
            [cbv beta iota; cbn [fst snd]; apply guarded_beat_ok; [qnat_lits; lra|cbn; lia]|]).
    destruct Hin.
  - apply (SSorted_flat_map (fun p => startTime bar + qnat (fst p) * bd + qnat (snd p) * t3)).
    + sorted_concrete; cbv beta; cbn [fst snd]; qnat_lits; lra.
    + intros [i j] _. cbv beta iota. apply guarded_beat_shape. reflexivity.
Qed.

Lemma createSparsePattern_ok (g : BeatmapGenerator) (bar : Bar) (sec : SongSection) :
  0 <= bpm (audioAnalysis g) -> 0 < gen_speedMultiplier g ->
  Forall (bar_beat_ok bar sec) (createSparsePattern g bar sec) /\
  StronglySorted (fun x y => eb_time x < eb_time y) (createSparsePattern g bar sec).
Proof.
  intros Hb Hs. unfold createSparsePattern.
  destruct (patternBeatDuration g) as [bd|] eqn:Ebd; [|split; constructor].
  pose proof (patternBeatDuration_pos g bd Hb Hs Ebd) as Hbd.
  cbn [seq combine]. split.
  - apply Forall_flat_map_in. intros x Hin.
    repeat (destruct Hin as [<-|Hin];
            [cbv beta iota zeta; apply guarded_beat_ok; [qnat_lits; lra|cbn; lia]|]).
    destruct Hin.
  - apply (SSorted_flat_map (fun p => startTime bar + qnat (snd p) * bd)).
    + sorted_concrete; cbv beta; cbn [fst snd]; qnat_lits; lra.
    + intros [ai bi] _. cbv beta iota zeta. apply guarded_beat_shape. reflexivity.
Qed.

Lemma createDensePattern_ok (g : BeatmapGenerator) (bar : Bar) (sec : SongSection) :
  0 <= bpm (audioAnalysis g) -> 0 < gen_speedMultiplier g ->
  Forall (bar_beat_ok bar sec) (createDensePattern g bar sec) /\
  StronglySorted (fun x y => eb_time x < eb_time y) (createDensePattern g bar sec).
Proof.
  intros Hb Hs. unfold createDensePattern.
  destruct (patternBeatDuration g) as [bd|] eqn:Ebd; [|split; constructor].
  pose proof (patternBeatDuration_pos g bd Hb Hs Ebd) as Hbd.
  cbv zeta. split.
  - apply Forall_flat_map_in. intros i _. apply guarded_beat_ok.
    + assert (0 <= qnat i * bd / 2); [|lra].
      apply div_pos_nonneg; [apply Qmult_le_0_compat; [apply qnat_nonneg|lra]|reflexivity].
    + apply getDenseLanePattern_range.
  - apply (SSorted_flat_map (fun i => startTime bar + qnat i * (bd / 2))).
    + apply seq_tau_sorted. apply Qlt_shift_div_l; [reflexivity|]. lra.
    + intros i _. apply guarded_beat_shape. field.
Qed.

(** Every fixed bar pattern, for a bar of positive length and a generator
    with a non-negative BPM (and a positive speed multiplier, as the
    constructor makes it), returns beats on lanes 0..3, inside the bar,
    tagged with the bar's section, at strictly increasing times. *)
Theorem generateBarPattern_well_formed (g : BeatmapGenerator) (bar : Bar)
    (patternType : PatternType) (sec : SongSection) :
  startTime bar < endTime bar -> 0 <= bpm (audioAnalysis g) -> 0 < gen_speedMultiplier g ->
  Forall (bar_beat_ok bar sec) (generateBarPattern g bar patternType sec) /\
  StronglySorted (fun x y => eb_time x < eb_time y) (generateBarPattern g bar patternType sec).
Proof.
  intros Hse Hb Hs. destruct patternType; cbn [generateBarPattern].
  - apply createEuclideanPattern_ok, Hse.
  - apply createZigzagPattern_ok, Hse.
  - apply createSyncopatedPattern_ok; assumption.
  - apply createTripletPattern_ok; assumption.
  - apply createSparsePattern_ok; assumption.
  - apply createDensePattern_ok; assumption.
  - apply createEuclideanPattern_ok, Hse.
Qed.

(** [generateEuclideanRhythm hits steps] has [steps] entries, of which
    exactly [floor(hits)] are hits, clamped to [0, steps]: all of them for
    [hits >= steps], none for a negative [hits]. *)
Theorem generateEuclideanRhythm_count (hits : Q) (steps : nat) :
  List.length (generateEuclideanRhythm hits steps) = steps /\
  Z.of_nat (List.length (filter (fun y : bool => y) (generateEuclideanRhythm hits steps))) =
  Z.max 0 (Z.min (Z.of_nat steps) (Qfloor hits)).
Proof. exact (euclid_rhythm_count hits steps). Qed.

Lemma hits_flat_map_length {A : Type} (f : nat -> A) (l : list bool) (a : nat) :
  List.length (flat_map (fun '((step, isHit) : nat * bool) => if isHit then [f step] else [])
                 (combine (seq a (List.length l)) l)) =
  List.length (filter (fun y : bool => y) l).
Proof.
  revert a. induction l as [|x l IH]; intro a; [reflexivity|].
  cbn [List.length seq combine flat_map filter]. destruct x; cbn [app List.length]; rewrite IH; reflexivity.
Qed.

Lemma Qfloor_min (a b : Q) : Qfloor (Qmin a b) = Z.min (Qfloor a) (Qfloor b).
Proof.
  destruct (Q.min_spec a b) as [[H E]|[H E]]; rewrite E.
  - pose proof (Qfloor_resp_le a b (Qlt_le_weak _ _ H)). lia.
  - pose proof (Qfloor_resp_le b a H). lia.
Qed.

(** The Euclidean bar pattern has [min(floor(noteCapacity), k)] beats (none
    for a negative capacity), where [k] is 7 for a chorus bar of energy
    above 0.7, 3 for an intro or outro bar and 5 otherwise. *)
Theorem createEuclideanPattern_count (g : BeatmapGenerator) (bar : Bar) (sec : SongSection) :
  Z.of_nat (List.length (createEuclideanPattern g bar sec)) =
  Z.max 0 (Z.min (Qfloor (noteCapacity (difficultySettings g)))
    (if SongSection_eqb sec Chorus && qlt 0.7 (bar_energy bar) then 7
     else if SongSection_eqb sec Intro || SongSection_eqb sec Outro then 3 else 5)).
Proof.
  unfold createEuclideanPattern. cbv zeta.
  rewrite (hits_flat_map_length (fun step => patternBeat _ _ _ (selectLaneForEuclidean step _ 16) _ _)).
  rewrite (proj2 (euclid_rhythm_count _ 16)).
  destruct (SongSection_eqb sec Chorus && qlt 0.7 (bar_energy bar));
    [|destruct (SongSection_eqb sec Intro || SongSection_eqb sec Outro)];
    rewrite !Qfloor_min; change (Qfloor 8) with 8%Z;
    [change (Qfloor 7) with 7%Z|change (Qfloor 3) with 3%Z|change (Qfloor 5) with 5%Z]; lia.
Qed.

(** Witness: a chorus bar of the sample generator, from 0 to 2 s at
    energy 0.8, in the dense pattern. *)
Lemma generateBarPattern_well_formed_witness :
  (0 < 2 /\ 0 <= bpm (audioAnalysis sample_generator) /\ 0 < gen_speedMultiplier sample_generator) /\
  Forall (bar_beat_ok (mkBar 0 2 [] (4#5)) Chorus)
    (generateBarPattern sample_generator (mkBar 0 2 [] (4#5)) Dense Chorus) /\
  StronglySorted (fun x y => eb_time x < eb_time y)
    (generateBarPattern sample_generator (mkBar 0 2 [] (4#5)) Dense Chorus).
Proof.
  assert (H : 0 < 2 /\ 0 <= bpm (audioAnalysis sample_generator) /\
              0 < gen_speedMultiplier sample_generator)
    by (split; [reflexivity|split; vm_compute; [intro C; discriminate C|reflexivity]]).
  split; [exact H|].
  destruct H as [H1 [H2 H3]].
  exact (generateBarPattern_well_formed sample_generator (mkBar 0 2 [] (4#5)) Dense Chorus H1 H2 H3).
Defined.

Lemma nearest_fold (t : Q) (l : list Onset) (on : option Onset) (d : Q) :
  let res := fold_left (fun acc o =>
                 let distance := Qabs (o_time o - t) in
                 if qlt distance (snd acc) then (Some o, distance) else acc) l (on, d) in
  snd res <= d /\ Forall (fun o => snd res <= Qabs (o_time o - t)) l /\
  ((fst res = on /\ snd res = d) \/
   exists o, fst res = Some o /\ In o l /\ snd res = Qabs (o_time o - t) /\ snd res < d).
Proof.
  revert on d. induction l as [|x l IH]; intros on d; cbv zeta.
  - cbn. split; [apply Qle_refl|split; [constructor|left; split; reflexivity]].
  - cbn [fold_left snd]. destruct (qlt (Qabs (o_time x - t)) d) eqn:E.
    + apply qlt_true in E.
      destruct (IH (Some x) (Qabs (o_time x - t))) as [H1 [H2 H3]]. cbv zeta in H1, H2, H3.
      split; [lra|split; [constructor; assumption|right]].
      destruct H3 as [[-> ->]|[o [Ho [Hi [Hd Hl]]]]].
      * exists x. split; [reflexivity|split; [left; reflexivity|split; [reflexivity|exact E]]].
      * exists o. split; [exact Ho|split; [right; exact Hi|split; [exact Hd|lra]]].
    + apply qlt_false in E.
      destruct (IH on d) as [H1 [H2 H3]]. cbv zeta in H1, H2, H3.
      split; [exact H1|split; [constructor; [lra|exact H2]|]].
      destruct H3 as [H3|[o [Ho [Hi [Hd Hl]]]]]; [left; exact H3|right].
      exists o. split; [exact Ho|split; [right; exact Hi|split; [exact Hd|exact Hl]]].
Qed.

(** [findNearestOnset onsets targetTime tolerance] returns no onset exactly
    when every onset is at least [tolerance] away from [targetTime];
    otherwise it returns an onset of the list strictly closer than
    [tolerance], and no onset of the list is closer than it. *)
Theorem findNearestOnset_spec (onsets : list Onset) (targetTime tolerance : Q) :
  (findNearestOnset onsets targetTime tolerance = None <->
   Forall (fun o => tolerance <= Qabs (o_time o - targetTime)) onsets) /\
  (forall o, findNearestOnset onsets targetTime tolerance = Some o ->
   In o onsets /\ Qabs (o_time o - targetTime) < tolerance /\
   Forall (fun o' => Qabs (o_time o - targetTime) <= Qabs (o_time o' - targetTime)) onsets).
Proof.
  unfold findNearestOnset.
  destruct (nearest_fold targetTime onsets None tolerance) as [H1 [H2 H3]]. cbv zeta in H1, H2, H3.
  set (res := fold_left _ onsets (None, tolerance)) in *.
  split; [split|].
  - intro Hn. destruct H3 as [[_ Hd]|[o [Ho _]]]; [|congruence].
    rewrite Hd in H2. exact H2.
  - intro Hf. destruct H3 as [[Hn _]|[o [_ [Hi [Hd Hl]]]]]; [exact Hn|].
    exfalso. rewrite Forall_forall in Hf. specialize (Hf o Hi). rewrite Hd in Hl. lra.
  - intros o Hs. destruct H3 as [[Hn _]|[o' [Ho [Hi [Hd Hl]]]]]; [congruence|].
    rewrite Hs in Ho. injection Ho as <-. rewrite <- Hd.
    split; [exact Hi|split; [exact Hl|exact H2]].
Qed.

(** The speed multiplier the constructor computes lies in [0.8, 1.4], and
    for the same song it grows with the difficulty's own
    [speedMultiplier]. *)
Theorem calculateSpeedMultiplier_range_mono (a : AudioAnalysisResult) (ds1 ds2 : DifficultySettings) :
  (0.8 <= calculateSpeedMultiplier a ds1 <= 1.4) /\
  (speedMultiplier ds1 <= speedMultiplier ds2 ->
   calculateSpeedMultiplier a ds1 <= calculateSpeedMultiplier a ds2).
Proof.
  unfold calculateSpeedMultiplier. cbv zeta. split.
  - split; [apply Q.le_max_l|].
    apply Q.max_lub; [discriminate|apply Q.le_min_l].
  - intro H. apply Q.max_le_compat_l, Q.min_le_compat_l.
    destruct (qlt 140 (bpm a)); [|destruct (qlt 120 (bpm a)); [|destruct (qlt (bpm a) 80)]];
      (destruct (qlt 0.8 _); [|destruct (qlt 0.6 _)]); lra.
Qed.

(** Witness: the sample difficulty against one with a higher multiplier. *)
Lemma calculateSpeedMultiplier_range_mono_witness :
  1 <= 3#2 /\
  calculateSpeedMultiplier sample_analysis sample_settings <=
  calculateSpeedMultiplier sample_analysis (mkDifficulty Hard (3#2) 8 80 (1#2) true).
Proof.
  split; [vm_compute; intro C; discriminate C|].
  apply (proj2 (calculateSpeedMultiplier_range_mono sample_analysis sample_settings
                  (mkDifficulty Hard (3#2) 8 80 (1#2) true))).
  vm_compute; intro C; discriminate C.
Defined.

(** For a non-empty energy array and a non-zero duration,
    [getSectionEnergy] reads an entry inside the array (the index is
    clamped to [0, length - 1]): it returns that entry, or 0.5 when the
    entry is 0. *)
Theorem getSectionEnergy_in_bounds (a : AudioAnalysisResult) (t : Q) :
  ~ duration a == 0 -> energy a <> [] ->
  exists i, (i < List.length (energy a))%nat /\
            getSectionEnergy a t = or_num (nth i (energy a) 0) 0.5.
Proof.
  intros _ Hne. unfold getSectionEnergy.
  destruct (energy a) as [|e en] eqn:E; [congruence|]. cbv zeta.
  eexists; split; [|reflexivity].
  cbn [List.length]. lia.
Qed.

(** Witness: the sample song at 1 s. *)
Lemma getSectionEnergy_in_bounds_witness :
  (~ duration sample_analysis == 0 /\ energy sample_analysis <> []) /\
  exists i, (i < List.length (energy sample_analysis))%nat /\
            getSectionEnergy sample_analysis 1 = or_num (nth i (energy sample_analysis) 0) 0.5.
Proof.
  assert (H1 : ~ duration sample_analysis == 0) by (vm_compute; intro C; discriminate C).
  assert (H2 : energy sample_analysis <> []) by discriminate.
  split; [split; assumption|].
  exact (getSectionEnergy_in_bounds sample_analysis 1 H1 H2).
Defined.

Lemma nearestTIF_fold (t : Q) (l : list Onset) (ct ci cf : Q) :
  let res := fold_left (fun closest o =>
                 let '(ct, _, _) := closest in
                 if qlt (Qabs (o_time o - t)) (Qabs (ct - t))
                 then (o_time o, o_intensity o, o_frequency o) else closest) l (ct, ci, cf) in
  Qabs (fst (fst res) - t) <= Qabs (ct - t) /\
  Forall (fun o => Qabs (fst (fst res) - t) <= Qabs (o_time o - t)) l /\
  (res = (ct, ci, cf) \/ exists o, In o l /\ res = (o_time o, o_intensity o, o_frequency o)).
Proof.
  revert ct ci cf. induction l as [|x l IH]; intros ct ci cf; cbv zeta.
  - cbn. split; [apply Qle_refl|split; [constructor|left; reflexivity]].
  - cbn [fold_left]. destruct (qlt (Qabs (o_time x - t)) (Qabs (ct - t))) eqn:E.
    + apply qlt_true in E.
      destruct (IH (o_time x) (o_intensity x) (o_frequency x)) as [H1 [H2 H3]].
      cbv zeta in H1, H2, H3.
      split; [lra|split; [constructor; assumption|right]].
      destruct H3 as [H3|[o [Hi H3]]].
      * exists x. split; [left; reflexivity|exact H3].
      * exists o. split; [right; exact Hi|exact H3].
    + apply qlt_false in E.
      destruct (IH ct ci cf) as [H1 [H2 H3]]. cbv zeta in H1, H2, H3.
      split; [exact H1|split; [constructor; [lra|exact H2]|]].
      destruct H3 as [H3|[o [Hi H3]]]; [left; exact H3|right].
      exists o. split; [right; exact Hi|exact H3].
Qed.

(** With no onsets, [getFrequencyForOnset] and [getIntensityForOnset] give
    440 and 0.5; otherwise both read the same onset of the list, one at the
    smallest distance from the target time. *)
Theorem onset_lookup_nearest (onsets : list Onset) (t : Q) :
  (onsets = [] -> getFrequencyForOnset onsets t = 440 /\ getIntensityForOnset onsets t = 0.5) /\
  (onsets <> [] ->
   exists o, In o onsets /\
     getFrequencyForOnset onsets t = o_frequency o /\ getIntensityForOnset onsets t = o_intensity o /\
     Forall (fun o' => Qabs (o_time o - t) <= Qabs (o_time o' - t)) onsets).
Proof.
  split; [intros ->; split; reflexivity|].
  intro Hne. destruct onsets as [|o0 rest]; [congruence|].
  unfold getFrequencyForOnset, getIntensityForOnset, nearestTIF. cbv zeta.
  destruct (nearestTIF_fold t (o0 :: rest) (o_time o0) (o_intensity o0) (o_frequency o0))
    as [H1 [H2 H3]].
  cbv zeta in H1, H2, H3.
  set (res := fold_left _ (o0 :: rest) _) in *.
  destruct H3 as [H3|[o [Hi H3]]].
  - exists o0. rewrite H3 in H2 |- *. cbn [fst] in H2.
    split; [left; reflexivity|split; [reflexivity|split; [reflexivity|exact H2]]].
  - exists o. rewrite H3 in H2 |- *. cbn [fst] in H2.
    split; [exact Hi|split; [reflexivity|split; [reflexivity|exact H2]]].
Qed.

(** Witness: the onsets of the sample song, looked up at 2.9 s. *)
Lemma onset_lookup_nearest_witness :
  map (fun b => mkOnset b Drum) (beats sample_analysis) <> [] /\
  exists o, In o (map (fun b => mkOnset b Drum) (beats sample_analysis)) /\
    getFrequencyForOnset (map (fun b => mkOnset b Drum) (beats sample_analysis)) (29#10) = o_frequency o /\
    getIntensityForOnset (map (fun b => mkOnset b Drum) (beats sample_analysis)) (29#10) = o_intensity o /\
    Forall (fun o' => Qabs (o_time o - (29#10)) <= Qabs (o_time o' - (29#10)))
      (map (fun b => mkOnset b Drum) (beats sample_analysis)).
Proof.
  assert (H : map (fun b => mkOnset b Drum) (beats sample_analysis) <> []) by discriminate.
  split; [exact H|].
  exact (proj2 (onset_lookup_nearest (map (fun b => mkOnset b Drum) (beats sample_analysis)) (29#10)) H).
Defined.

Lemma half_offset_abs (x v : Q) : 0 <= x < 1 -> Qabs ((x - 0.5) * (v / 1000)) <= Qabs v / 2000.
Proof.
  intros Hx. rewrite Qabs_Qmult.
  assert (Ha : Qabs (x - 0.5) <= 0.5) by (apply Qabs_Qle_condition; lra).
  assert (Hv : Qabs (v / 1000) == Qabs v / 1000).
  { unfold Qdiv. rewrite Qabs_Qmult. reflexivity. }
  rewrite Hv.
  assert (H0 : 0 <= Qabs v / 1000) by (apply div_pos_nonneg; [apply Qabs_nonneg|reflexivity]).
  apply (Qle_trans _ (0.5 * (Qabs v / 1000))); [apply Qmult_le_compat_r; assumption|].
  apply Qle_lteq. right. field.
Qed.

Lemma jitter_beats_spec (rng : nat -> Q) (var : Q) :
  (forall m, 0 <= rng m < 1) ->
  forall bs r,
  snd (jitter_beats rng var r bs) = (r + List.length bs)%nat /\
  Forall2 (fun b b' => set_time b' 0 = set_time b 0 /\
                       Qabs (eb_time b' - eb_time b) <= Qabs var / 2000)
    bs (fst (jitter_beats rng var r bs)).
Proof.
  intros Hr. induction bs as [|b rest IH]; intro r; [split; [cbn; lia|constructor]|].
  cbn [jitter_beats]. specialize (IH (S r)).
  destruct (jitter_beats rng var (S r) rest) as [rest' r'] eqn:E. cbn [fst snd] in *.
  destruct IH as [IH1 IH2]. split; [cbn [List.length]; lia|].
  constructor; [|exact IH2]. split; [destruct b; reflexivity|].
  cbn [eb_time set_time].
  setoid_replace (eb_time b + (rng r - 0.5) * (var / 1000) - eb_time b)
    with ((rng r - 0.5) * (var / 1000)) by ring.
  apply half_offset_abs, Hr.
Qed.

(** With a random source in [0, 1), [applyRhythmicVariance] keeps the
    length of the list and every field but the time; each beat moves by at
    most [|rhythmicVariance| / 2000] seconds.  It draws one random number
    per beat, or none when the variance is 0, in which case the beats are
    returned unchanged. *)
Theorem applyRhythmicVariance_bounded (cfg : MorphingConfig) (rng : nat -> Q) (r : nat)
    (bs : list EnhancedBeatData) :
  (forall m, 0 <= rng m < 1) ->
  Forall2 (fun b b' => set_time b' 0 = set_time b 0 /\
                       Qabs (eb_time b' - eb_time b) <= Qabs (rhythmicVariance cfg) / 2000)
    bs (fst (applyRhythmicVariance cfg rng r bs)) /\
  (Qeq_bool (rhythmicVariance cfg) 0 = true -> applyRhythmicVariance cfg rng r bs = (bs, r)) /\
  (Qeq_bool (rhythmicVariance cfg) 0 = false ->
   snd (applyRhythmicVariance cfg rng r bs) = (r + List.length bs)%nat).
Proof.
  intros Hr. unfold applyRhythmicVariance.
  destruct (Qeq_bool (rhythmicVariance cfg) 0) eqn:E.
  - split; [|split; [reflexivity|discriminate]]. cbn [fst].
    assert (H0 : 0 <= Qabs (rhythmicVariance cfg) / 2000)
      by (apply div_pos_nonneg; [apply Qabs_nonneg|reflexivity]).
    induction bs as [|b rest IH]; constructor; [|exact IH].
    split; [reflexivity|].
    setoid_replace (eb_time b - eb_time b) with 0 by ring. exact H0.
  - destruct (jitter_beats_spec rng (rhythmicVariance cfg) Hr bs r) as [H1 H2].
    split; [exact H2|split; [discriminate|intros _; exact H1]].
Qed.

(** Witness: the sample morphing configuration (variance 15) on
    [sample_bar]. *)
Lemma applyRhythmicVariance_bounded_witness :
  (forall m, 0 <= sample_rng m < 1) /\
  Forall2 (fun b b' => set_time b' 0 = set_time b 0 /\
                       Qabs (eb_time b' - eb_time b) <= Qabs (rhythmicVariance sample_morph) / 2000)
    sample_bar (fst (applyRhythmicVariance sample_morph sample_rng 0 sample_bar)).
Proof.
  assert (H : forall m, 0 <= sample_rng m < 1).
  { intro m. unfold sample_rng.
    assert (Hm : (m mod 7 < 7)%nat) by (apply Nat.mod_upper_bound; lia).
    assert (Z0 : 0 <= inject_Z (Z.of_nat (m mod 7)))
      by (change 0 with (inject_Z 0); rewrite <- Zle_Qle; lia).
    assert (Z7 : inject_Z (Z.of_nat (m mod 7)) < 7)
      by (change 7 with (inject_Z 7); rewrite <- Zlt_Qlt; lia).
    split.
    - apply div_pos_nonneg; [exact Z0|reflexivity].
    - apply Qlt_shift_div_r; [reflexivity|]. lra. }
  split; [exact H|].
  exact (proj1 (applyRhythmicVariance_bounded sample_morph sample_rng 0 sample_bar H)).
Defined.

(* ------------------------------------------------------------------ *)
(** * C1: the fields of a generated beatmap *)

(** ** The bars *)

Lemma detectMusicalOnsets_beats (raw : list BeatData) (o : Onset) :
  In o (detectMusicalOnsets raw) -> In (o_beat o) raw.
Proof.
  unfold detectMusicalOnsets. rewrite !in_app_iff, !in_map_iff.
  intros [(b & <- & Hb)|[(b & <- & Hb)|[(b & <- & Hb)|(b & <- & Hb)]]];
    apply filter_In in Hb; exact (proj1 Hb).
Qed.

Lemma makeBar_ok (a : AudioAnalysisResult) (onsets : list Onset) (bd : option Q) (t : Q) :
  (forall o, In o onsets -> In (o_beat o) (beats a)) ->
  (forall d, bd = Some d -> 0 <= d) -> 0 <= t -> t < duration a ->
  bar_ok a (makeBar onsets bd (duration a) t).
Proof.
  intros Hons Hbd Ht0 Ht. unfold makeBar, bar_ok. cbn [startTime endTime bar_onsets].
  split; [exact Ht0|]. split; [|split].
  - destruct bd as [d|]; [|lra].
    specialize (Hbd d eq_refl). apply Q.min_glb; lra.
  - destruct bd as [d|]; [apply Q.le_min_r|apply Qle_refl].
  - apply Forall_forall. intros o Ho. apply filter_In in Ho. destruct Ho as [Ho Hc].
    apply andb_true_iff in Hc. destruct Hc as [Hc _]. apply qle_true in Hc.
    split; [exact Hc|apply Hons, Ho].
Qed.

Lemma bars_loop_ok (a : AudioAnalysisResult) (onsets : list Onset) (bd : option Q) :
  (forall o, In o onsets -> In (o_beat o) (beats a)) ->
  (forall d, bd = Some d -> 0 <= d) ->
  forall fuel t bars, 0 <= t -> bars_loop fuel onsets bd (duration a) t = Some bars ->
  Forall (bar_ok a) bars.
Proof.
  intros Hons Hbd. induction fuel as [|f IH]; intros t bars Ht H; [discriminate|].
  cbn [bars_loop] in H. cbv zeta in H. destruct (qlt t (duration a)) eqn:Et.
  - apply qlt_true in Et.
    pose proof (makeBar_ok a onsets bd t Hons Hbd Ht Et) as Hb.
    destruct bd as [d|].
    + destruct (bars_loop f onsets (Some d) (duration a) (t + d)) as [rest|] eqn:Er;
        [|discriminate].
      injection H as <-. constructor; [exact Hb|].
      apply (IH (t + d)); [specialize (Hbd d eq_refl); lra|exact Er].
    + injection H as <-. constructor; [exact Hb|constructor].
  - injection H as <-. constructor.
Qed.

Lemma bars_loop_neg (onsets : list Onset) (d dur : Q) :
  d <= 0 -> forall fuel t bars, bars_loop fuel onsets (Some d) dur t = Some bars -> bars = [].
Proof.
  intros Hd fuel t bars H. destruct fuel as [|f]; [discriminate|].
  destruct (qlt t dur) eqn:Et.
  - apply qlt_true in Et. rewrite (bars_loop_stuck onsets dur d Hd (S f) t Et) in H.
    discriminate.
  - cbn [bars_loop] in H. rewrite Et in H. injection H as <-. reflexivity.
Qed.

Lemma segmentIntoBars_ok (fuel : nat) (a : AudioAnalysisResult) (bars : list Bar) :
  segmentIntoBars fuel a (detectMusicalOnsets (beats a)) = Some bars -> Forall (bar_ok a) bars.
Proof.
  unfold segmentIntoBars. intro H.
  destruct (barDurationOf (bpm a) beatsPerBar) as [d|] eqn:Ed.
  - destruct (Qlt_le_dec d 0) as [Hn|Hp].
    + rewrite (bars_loop_neg _ d _ (Qlt_le_weak _ _ Hn) _ _ _ H). constructor.
    + apply (bars_loop_ok a _ (Some d) (detectMusicalOnsets_beats (beats a))
               ltac:(intros d' Hs; injection Hs; intros <-; exact Hp) fuel 0 bars
               (Qle_refl 0) H).
  - apply (bars_loop_ok a _ None (detectMusicalOnsets_beats (beats a))
             ltac:(discriminate) fuel 0 bars (Qle_refl 0) H).
Qed.

(** ** The beats of a bar *)

Lemma div_nonneg_nonneg (x y : Q) : 0 <= x -> 0 <= y -> 0 <= x / y.
Proof.
  intros Hx Hy. unfold Qdiv. apply Qmult_le_0_compat; [exact Hx|apply Qinv_le_0_compat, Hy].
Qed.

Lemma findNearestOnset_in (l : list Onset) (t tol : Q) (o : Onset) :
  findNearestOnset l t tol = Some o -> In o l.
Proof.
  unfold findNearestOnset. intro H. pose proof (nearest_fold t l None tol) as N.
  cbv zeta in N, H. destruct N as (_ & _ & [[E _]|(o' & E & Hin & _)]);
    rewrite H in E; [discriminate|injection E as <-; exact Hin].
Qed.

Lemma nearestTIF_prov (l : list Onset) (t : Q) :
  (l = [] /\ nearestTIF l t = (t, 0.5, 440)) \/
  exists o, In o l /\ nearestTIF l t = (o_time o, o_intensity o, o_frequency o).
Proof.
  destruct l as [|o0 rest]; [left; split; reflexivity|right].
  unfold nearestTIF. cbv beta iota zeta.
  pose proof (nearestTIF_fold t (o0 :: rest) (o_time o0) (o_intensity o0) (o_frequency o0)) as N.
  cbv beta iota zeta in N. destruct N as (_ & _ & [E|(o & Hin & E)]).
  - exists o0. split; [left; reflexivity|exact E].
  - exists o. split; [exact Hin|exact E].
Qed.

Lemma bar_value_prov (a : AudioAnalysisResult) (bar : Bar) (t : Q) :
  bar_ok a bar ->
  (getIntensityForOnset (bar_onsets bar) t = 0.5 \/
   exists x, In x (beats a) /\ getIntensityForOnset (bar_onsets bar) t = intensity x) /\
  (getFrequencyForOnset (bar_onsets bar) t = 440 \/
   exists x, In x (beats a) /\ getFrequencyForOnset (bar_onsets bar) t = frequency x).
Proof.
  intros (_ & _ & _ & Hons). unfold getIntensityForOnset, getFrequencyForOnset.
  destruct (nearestTIF_prov (bar_onsets bar) t) as [[_ E]|(o & Hin & E)]; rewrite E.
  - split; left; reflexivity.
  - rewrite Forall_forall in Hons. destruct (Hons o Hin) as [_ Hb].
    split; right; exists (o_beat o); split; (exact Hb || reflexivity).
Qed.

Ltac template_beat_fields a Hprov Hi Ht Hs0 Hed Elt :=
  unfold beat_fields_ok; cbn [eb_time eb_intensity eb_frequency holdDuration];
  apply qlt_true in Elt;
  split; [lra|]; split; [lra|]; split; [exact Hi|]; split; [apply Hprov|];
  let h := fresh "h" in let Hh := fresh "Hh" in
  intros h Hh;
  match type of Hh with (if ?c then _ else None) = _ => destruct c; [|discriminate] end;
  match type of Hh with (if ?c then _ else _) = _ => destruct c end;
  injection Hh as <-;
  [ apply Qle_trans with 3; [apply Q.le_min_r|apply Q.le_max_l]
  | eapply Qle_trans; [apply Q.le_min_r|];
    apply Qle_trans with (duration a); [lra|apply Q.le_max_r] ].

Lemma templateStep_fields (a : AudioAnalysisResult) (template : PatternTemplate) (bar : Bar)
    (sec : SongSection) (barIdx : nat) (rc : Z) (rep si : nat) (ln : Z) (b : EnhancedBeatData) :
  bar_ok a bar -> (0 <= rc)%Z ->
  templateStep template bar sec barIdx rc rep si ln = Some b -> beat_fields_ok a 0 b.
Proof.
  intros Hbar Hrc H.
  assert (Hprov : forall t, (getIntensityForOnset (bar_onsets bar) t = 0.5 \/
     exists x, In x (beats a) /\ getIntensityForOnset (bar_onsets bar) t = intensity x) /\
    (getFrequencyForOnset (bar_onsets bar) t = 440 \/
     exists x, In x (beats a) /\ getFrequencyForOnset (bar_onsets bar) t = frequency x))
    by (intro t; apply bar_value_prov, Hbar).
  destruct Hbar as (Hs0 & Hse & Hed & Hons). rewrite Forall_forall in Hons.
  unfold templateStep in H. cbv zeta in H.
  assert (Hrc' : 0 <= inject_Z rc)
    by (change 0 with (inject_Z 0); rewrite <- Zle_Qle; exact Hrc).
  assert (Hp : 0 <= qnat rep / inject_Z rc +
                    qnat si / qnat (List.length (t_steps template)) / inject_Z rc).
  { pose proof (qnat_nonneg rep). pose proof (qnat_nonneg si).
    pose proof (qnat_nonneg (List.length (t_steps template))).
    assert (0 <= qnat rep / inject_Z rc) by (apply div_nonneg_nonneg; assumption).
    assert (0 <= qnat si / qnat (List.length (t_steps template)))
      by (apply div_nonneg_nonneg; assumption).
    assert (0 <= qnat si / qnat (List.length (t_steps template)) / inject_Z rc)
      by (apply div_nonneg_nonneg; assumption).
    lra. }
  match type of H with context [findNearestOnset _ ?t0 _] =>
    assert (Ht0 : startTime bar <= t0)
      by (assert (0 <= (qnat rep / inject_Z rc +
                         qnat si / qnat (List.length (t_steps template)) / inject_Z rc) *
                        (endTime bar - startTime bar))
            by (apply Qmult_le_0_compat; lra); lra);
    set (T := t0) in H, Ht0
  end.
  destruct (findNearestOnset (bar_onsets bar) T 0.15) as [o|] eqn:En; cbv beta iota in H.
  - apply findNearestOnset_in in En. destruct (Hons o En) as [Ht Hb].
    assert (Hi : o_intensity o = 0.5 \/ exists x, In x (beats a) /\ o_intensity o = intensity x)
      by (right; exists (o_beat o); split; [exact Hb|reflexivity]).
    destruct (qlt (o_time o) (endTime bar)) eqn:Elt; [|discriminate].
    injection H as <-. template_beat_fields a Hprov Hi Ht Hs0 Hed Elt.
  - destruct (qlt T (endTime bar)) eqn:Elt; [|discriminate].
    pose proof (proj1 (Hprov T)) as Hi.
    injection H as <-. template_beat_fields a Hprov Hi Ht0 Hs0 Hed Elt.
Qed.

Lemma generateTemplateBasedPattern_fields (a : AudioAnalysisResult) (template : PatternTemplate)
    (bar : Bar) (sec : SongSection) (barIdx : nat) :
  bar_ok a bar -> Forall (beat_fields_ok a 0) (generateTemplateBasedPattern template bar sec barIdx).
Proof.
  intro Hbar. apply Forall_forall. intros b Hb. unfold generateTemplateBasedPattern in Hb.
  apply in_flat_map in Hb. destruct Hb as (rep & _ & Hb).
  apply in_flat_map in Hb. destruct Hb as ([si ln] & _ & Hb).
  destruct (templateStep _ _ _ _ _ _ _ _) eqn:E; [|destruct Hb].
  destruct Hb as [<-|[]]. eapply templateStep_fields; [exact Hbar| |exact E]. lia.
Qed.

(** ** The passes over the beats *)

Lemma fields_weaken (a : AudioAnalysisResult) (j : Q) (b : EnhancedBeatData) :
  0 <= j -> beat_fields_ok a 0 b -> beat_fields_ok a j b.
Proof.
  intros Hj (T1 & T2 & Hrest). split; [lra|]. split; [lra|]. exact Hrest.
Qed.

Lemma fields_set_lane (a : AudioAnalysisResult) (j : Q) (b : EnhancedBeatData) (l : Z) :
  beat_fields_ok a j b -> beat_fields_ok a j (set_lane b l).
Proof. destruct b. exact (fun H => H). Qed.

Lemma fields_set_hold (a : AudioAnalysisResult) (j : Q) (b : EnhancedBeatData)
    (h : option bool) (d : option Q) (tn : option String.string) :
  beat_fields_ok a j b -> (forall x, d = Some x -> x <= 3) ->
  beat_fields_ok a j (set_hold b h d tn).
Proof.
  intros (T1 & T2 & I & F & _) Hd. destruct b. unfold beat_fields_ok in *. cbn in *.
  split; [exact T1|]. split; [exact T2|]. split; [exact I|]. split; [exact F|].
  intros x Hx. apply Qle_trans with 3; [apply Hd, Hx|apply Q.le_max_l].
Qed.

Lemma jitter_fields (a : AudioAnalysisResult) (J : Q) (b b' : EnhancedBeatData) :
  beat_fields_ok a 0 b -> set_time b' 0 = set_time b 0 ->
  Qabs (eb_time b' - eb_time b) <= J -> beat_fields_ok a J b'.
Proof.
  intros (T1 & T2 & I & F & Hh) Hs Hd.
  assert (Ei : eb_intensity b' = eb_intensity b) by exact (f_equal eb_intensity Hs).
  assert (Ef : eb_frequency b' = eb_frequency b) by exact (f_equal eb_frequency Hs).
  assert (Eh : holdDuration b' = holdDuration b) by exact (f_equal holdDuration Hs).
  apply Qabs_Qle_condition in Hd. unfold beat_fields_ok. rewrite Ei, Ef, Eh.
  split; [lra|]. split; [lra|]. split; [exact I|]. split; [exact F|exact Hh].
Qed.

Lemma rhythm_fields (a : AudioAnalysisResult) (cfg : MorphingConfig) (rng : nat -> Q)
    (r r' : nat) (c : bool) (pat : list EnhancedBeatData) :
  (forall m, 0 <= rng m < 1) -> Forall (beat_fields_ok a 0) pat ->
  Forall (beat_fields_ok a (Qabs (rhythmicVariance cfg) / 2000))
    (fst (if c then applyRhythmicVariance cfg rng r pat else (pat, r'))).
Proof.
  intros Hr Hp.
  assert (HJ : 0 <= Qabs (rhythmicVariance cfg) / 2000)
    by (apply div_pos_nonneg; [apply Qabs_nonneg|reflexivity]).
  assert (Hw : Forall (beat_fields_ok a (Qabs (rhythmicVariance cfg) / 2000)) pat)
    by (eapply Forall_impl; [|exact Hp]; intros b Hb; apply fields_weaken; assumption).
  destruct c; [|exact Hw]. unfold applyRhythmicVariance.
  destruct (Qeq_bool _ _); [exact Hw|].
  destruct (jitter_beats_spec rng (rhythmicVariance cfg) Hr pat r) as [_ H2].
  clear Hw. revert Hp. induction H2 as [|b b' l l' [Hs Hd] _ IH]; intro Hp; [constructor|].
  inversion Hp; subst. constructor; [|apply IH; assumption].
  eapply jitter_fields; eassumption.
Qed.

Lemma antiRepetitionStep_fields (a : AudioAnalysisResult) (j : Q) (m : PatternMemory)
    (bs : list EnhancedBeatData) (sec : SongSection) :
  Forall (beat_fields_ok a j) bs -> Forall (beat_fields_ok a j) (antiRepetitionStep m bs sec).
Proof.
  intro H. unfold antiRepetitionStep. destruct (wouldBeRepetitive m bs); [|exact H].
  unfold applyAntiRepetitionVariations. apply Forall_map.
  eapply Forall_impl; [|exact H]. intros b Hb. apply fields_set_lane, Hb.
Qed.

Lemma bar_step_fields (g : BeatmapGenerator) (rng : nat -> Q) (structure : list Section)
    (acc : list EnhancedBeatData * GenState) (bi : Bar * nat) :
  (forall m, 0 <= rng m < 1) -> bar_ok (audioAnalysis g) (fst bi) ->
  Forall (beat_fields_ok (audioAnalysis g) (Qabs (rhythmicVariance (morphConfig g)) / 2000))
    (fst acc) ->
  Forall (beat_fields_ok (audioAnalysis g) (Qabs (rhythmicVariance (morphConfig g)) / 2000))
    (fst (bar_step g rng structure acc bi)).
Proof.
  destruct acc as [beatmap st], bi as [bar barIdx]. cbn [fst]. intros Hr Hbar Hbm.
  unfold bar_step. cbv beta iota zeta.
  repeat (match goal with
  | |- context [match (if ?c then applyRhythmicVariance ?cfg ?rn ?r
                        (generateTemplateBasedPattern ?t ?br ?sc ?bx)
                      else (?pat, ?r')) with pair _ _ => _ end] =>
      let Hrh := fresh "Hrh" in
      pose proof (rhythm_fields (audioAnalysis g) cfg rn r r' c _ Hr
                    (generateTemplateBasedPattern_fields (audioAnalysis g) t br sc bx Hbar)) as Hrh;
      destruct (if c then _ else _); cbn [fst] in Hrh
  | |- context [match ?x with pair _ _ => _ end] => destruct x
  end; cbv beta iota).
  cbn [fst]. apply Forall_app. split; [exact Hbm|].
  apply antiRepetitionStep_fields. assumption.
Qed.

Lemma fold_left_inv_in {A B} (P : A -> Prop) (R : B -> Prop) (f : A -> B -> A)
    (l : list B) (a : A) :
  P a -> Forall R l -> (forall acc x, R x -> P acc -> P (f acc x)) -> P (fold_left f l a).
Proof.
  revert a. induction l as [|x r IH]; intros a Ha Hl Hf; simpl; [exact Ha|].
  inversion Hl; subst. apply IH; [apply Hf; assumption|assumption|exact Hf].
Qed.

Lemma createComplexHoldPattern_fields (a : AudioAnalysisResult) (jt : Q) rng bm idxs dur recent r :
  Forall (beat_fields_ok a jt) bm ->
  Forall (beat_fields_ok a jt) (fst (fst (createComplexHoldPattern rng bm idxs dur recent r))).
Proof.
  intro Hbm. unfold createComplexHoldPattern.
  destruct (filter _ complexHoldPatterns) as [|p0 ps]; [exact Hbm|].
  destruct (nth _ _ _) as [lanes name].
  set (F := fun acc '(j, index) => _).
  assert (G : forall acc xs, Forall (beat_fields_ok a jt) (fst acc) ->
             Forall (beat_fields_ok a jt) (fst (fold_left F xs acc))).
  { intros acc xs HA. apply (fold_left_inv (fun x => Forall (beat_fields_ok a jt) (fst x)));
      [exact HA|].
    intros [bm0 rec0] [j index] H0. cbn [fst] in H0. unfold F. cbv beta iota zeta. cbn [fst].
    apply update_nth_Forall; [|exact H0]. intros x Hx.
    apply fields_set_hold; [apply fields_set_lane, Hx|].
    intros h Hh. injection Hh as <-. apply Qle_trans with 1.5; [apply Q.le_min_r|lra]. }
  specialize (G (bm, recent) (combine (firstn (Nat.min (List.length idxs) (List.length lanes)) idxs)
                                      (seq 0 (List.length idxs))) Hbm).
  destruct (fold_left F _ (bm, recent)) as [bm' recent']. exact G.
Qed.

Lemma sustained_step_fields (a : AudioAnalysisResult) (jt : Q) ds rng acc pair :
  Forall (beat_fields_ok a jt) (fst (fst acc)) ->
  Forall (beat_fields_ok a jt) (fst (fst (sustained_step ds rng acc pair))).
Proof.
  destruct acc as [[bm recent] r], pair as [current next]. cbn [fst]. intro Hbm.
  unfold sustained_step. cbv beta iota zeta.
  destruct (qlt 1 _ && qlt _ 4); [|exact Hbm].
  destruct (filter _ _) as [|j js]; [exact Hbm|].
  destruct (qlt (rng r) _); [|exact Hbm].
  destruct (complexPatterns ds && _); [apply createComplexHoldPattern_fields, Hbm|].
  destruct (beat_at bm j) as [hb|]; [|exact Hbm].
  destruct (truthy (isHold hb)); [exact Hbm|].
  match goal with |- context [match ?p with pair _ _ => _ end] => destruct p as [nl r2] end.
  cbn [fst]. apply update_nth_Forall; [|exact Hbm]. intros x Hx.
  apply fields_set_hold; [apply fields_set_lane, Hx|].
  intros h Hh. injection Hh as <-. apply Qle_trans with 2; [apply Q.le_min_r|lra].
Qed.

Lemma addRepeatingHoldPatterns_fields (a : AudioAnalysisResult) (jt : Q) ds rng bm r :
  Forall (beat_fields_ok a jt) bm ->
  Forall (beat_fields_ok a jt) (fst (addRepeatingHoldPatterns ds rng bm r)).
Proof.
  intro Hbm. unfold addRepeatingHoldPatterns.
  apply (fold_left_inv (fun x => Forall (beat_fields_ok a jt) (fst x))); [exact Hbm|].
  intros [bm0 r0] [group gi] H0. cbn [fst] in H0. cbv beta iota zeta.
  destruct (qlt _ _); [|exact H0].
  destruct (nth (gi mod 5) repeatingPatterns _) as [lanes name]. cbn [fst].
  apply (fold_left_inv (fun x => Forall (beat_fields_ok a jt) x)); [exact H0|].
  intros bmx [j beatIndex] Hx. cbv beta iota zeta.
  apply update_nth_Forall; [|exact Hx]. intros x Hx'.
  destruct (_ || _); [|apply fields_set_lane, Hx'].
  apply fields_set_hold; [apply fields_set_lane, Hx'|].
  intros h Hh. injection Hh as <-. apply Qle_trans with 1.2; [apply Q.le_min_l|lra].
Qed.

Lemma addSustainedHolds_fields (a0 a : AudioAnalysisResult) (jt : Q) ds rng bm r :
  Forall (beat_fields_ok a jt) bm ->
  Forall (beat_fields_ok a jt) (fst (addSustainedHolds a0 ds rng bm r)).
Proof.
  intro Hbm. unfold addSustainedHolds.
  set (pairs := combine _ _).
  pose proof (fold_left_inv (fun acc => Forall (beat_fields_ok a jt) (fst (fst acc)))
                (sustained_step ds rng) pairs (bm, [], r) Hbm
                (sustained_step_fields a jt ds rng)) as G.
  destruct (fold_left _ pairs _) as [[bm1 recent] r1].
  apply addRepeatingHoldPatterns_fields, G.
Qed.

Lemma laneVariety_fields (a : AudioAnalysisResult) (jt : Q) bm :
  Forall (beat_fields_ok a jt) bm -> Forall (beat_fields_ok a jt) (laneVariety bm).
Proof.
  intro Hbm. unfold laneVariety. apply (fold_left_inv (Forall (beat_fields_ok a jt)));
    [exact Hbm|].
  intros l i Hl.
  destruct (nth_error l (i - 1)), (nth_error l i), (nth_error l (S i)); try exact Hl.
  destruct (_ && _); [|exact Hl].
  apply update_nth_Forall; [|exact Hl]. intros x Hx. apply fields_set_lane, Hx.
Qed.

Lemma postProcessWithHolds_fields (a : AudioAnalysisResult) (jt : Q) g rng bm r :
  Forall (beat_fields_ok a jt) bm ->
  Forall (beat_fields_ok a jt) (fst (postProcessWithHolds g rng bm r)).
Proof.
  intro Hbm. unfold postProcessWithHolds.
  assert (Hf : Forall (beat_fields_ok a jt) (spacing_filter None (sort_by eb_time bm))).
  { apply Forall_forall. intros x Hx. apply spacing_filter_incl in Hx.
    rewrite Forall_forall in Hbm. apply Hbm.
    apply (Permutation_in _ (sort_by_perm eb_time bm)), Hx. }
  pose proof (addSustainedHolds_fields (audioAnalysis g) a jt (difficultySettings g) rng _ r Hf)
    as H.
  destruct (addSustainedHolds _ _ _ _ _) as [wh r1]. apply laneVariety_fields, H.
Qed.

(** Every template the generator can pick has a positive duration and at
    least one step, so the divisions of [generateTemplateBasedPattern] and
    [templateStep] have non-zero divisors. *)
Lemma templates_well_formed :
  Forall (fun t => 0 < t_duration t /\ t_steps t <> []) (default_template :: PATTERN_TEMPLATES).
Proof. repeat constructor; discriminate. Qed.

Lemma sample_rng_range : forall m, 0 <= sample_rng m < 1.
Proof.
  intro m. unfold sample_rng.
  assert (Hm : (m mod 7 < 7)%nat) by (apply Nat.mod_upper_bound; lia).
  assert (Z0 : 0 <= inject_Z (Z.of_nat (m mod 7)))
    by (change 0 with (inject_Z 0); rewrite <- Zle_Qle; lia).
  assert (Z7 : inject_Z (Z.of_nat (m mod 7)) < 7)
    by (change 7 with (inject_Z 7); rewrite <- Zlt_Qlt; lia).
  split.
  - apply div_pos_nonneg; [exact Z0|reflexivity].
  - apply Qlt_shift_div_r; [reflexivity|]. lra.
Qed.

(** ** C1 *)

(** C1: for every analysis input, in particular one with duration 0, an
    empty energy list or no beats, and any difficulty settings, with
    [Math.random()] in [0, 1):
    - a song of duration at most 0 gives the empty beatmap;
    - with a BPM of at least 0 (both analyzers clamp it to 60..200)
      [generateBeatmap] returns;
    - every beat of a returned beatmap has finite fields: its time within
      [|rhythmicVariance| / 2000] of [0 .. duration], its intensity and
      frequency those of a beat of the song or the defaults 0.5 and 440,
      its hold duration at most [max 3 duration], and, when the template
      held by the generator uses lanes 0..3 (as all library templates do),
      its lane in 0..3.
    Numbers are rationals here; the divisions on the way to these fields
    have non-zero divisors in JavaScript too: the bar length is [None]
    (Infinity) for BPM 0, [makeBar] divides by [max 1 n], [templateStep]
    by a step count of a non-empty template and a repeat count of at least
    1 (see [templates_well_formed]). *)
Theorem generateBeatmap_degenerate (g : BeatmapGenerator) (st : GenState) (rng : nat -> Q) :
  (forall m, 0 <= rng m < 1) ->
  (duration (audioAnalysis g) <= 0 ->
     forall fuel, (1 <= fuel)%nat -> exists st', generateBeatmap fuel g st rng = Some ([], st')) /\
  (0 <= bpm (audioAnalysis g) -> exists fuel res, generateBeatmap fuel g st rng = Some res) /\
  (forall fuel bm st', generateBeatmap fuel g st rng = Some (bm, st') ->
     Forall (beat_fields_ok (audioAnalysis g) (Qabs (rhythmicVariance (morphConfig g)) / 2000))
       bm /\
     (state_tmpl_ok st -> Forall lane_ok bm)).
Proof.
  intro Hr. set (a := audioAnalysis g). set (ons := detectMusicalOnsets (beats a)).
  split; [|split].
  - intros Hdur fuel Hf. destruct fuel as [|f]; [lia|].
    assert (Hs : segmentIntoBars (S f) a ons = Some []).
    { unfold segmentIntoBars. simpl. rewrite (proj2 (qlt_false _ _) Hdur).
      destruct (barDurationOf (bpm a) beatsPerBar); reflexivity. }
    unfold generateBeatmap. fold a. fold ons. rewrite Hs. simpl fold_left. cbn [rnd].
    pose proof (postProcess_nil g rng (rnd st)) as E.
    destruct (postProcessWithHolds g rng [] (rnd st)) as [bm1 r1]. simpl in E. subst bm1.
    eexists. reflexivity.
  - intro Hb. destruct (Qeq_bool (bpm a) 0) eqn:Ez.
    + exists 1%nat. unfold generateBeatmap. fold a. fold ons.
      unfold segmentIntoBars, barDurationOf. rewrite Ez. simpl.
      destruct (qlt 0 (duration a));
        repeat match goal with
        | |- context [let '(_, _) := ?p in _] => destruct p
        end; eexists; reflexivity.
    + assert (Hp : 0 < bpm a).
      { apply Qle_lteq in Hb. destruct Hb as [Hb|Hb]; [exact Hb|].
        exfalso. apply Qeq_sym, Qeq_bool_iff in Hb. congruence. }
      pose proof (bar_length_pos _ Hp) as Hd.
      destruct (bars_enough ((60 / bpm a) * beatsPerBar) (duration a) Hd) as [H|H].
      * destruct (bars_loop_terminates ons (duration a) _ Hd _ 0 H) as [bars Hbars].
        eexists. apply (generateBeatmap_some _ g st rng bars).
        unfold segmentIntoBars. fold a. fold ons. rewrite (barDurationOf_pos _ Hp). exact Hbars.
      * exists 1%nat.
        apply (generateBeatmap_some 1 g st rng []).
        unfold segmentIntoBars. fold a. simpl.
        rewrite (proj2 (qlt_false _ _) H).
        destruct (barDurationOf (bpm a) beatsPerBar); reflexivity.
  - intros fuel bm st' H. unfold generateBeatmap in H. fold a in H. fold ons in H.
    cbv zeta in H.
    destruct (segmentIntoBars fuel a ons) as [bars|] eqn:Eb; [|discriminate].
    pose proof (segmentIntoBars_ok fuel a bars Eb) as Hbars.
    set (xs := combine bars _) in H. set (structure := analyzeSongStructure _ _) in H.
    set (st0 := mkGenState _ _ _ _ _) in H.
    set (J := Qabs (rhythmicVariance (morphConfig g)) / 2000).
    assert (Hxs : Forall (fun x => bar_ok a (fst x)) xs).
    { apply Forall_forall. intros [bar i] Hin. apply in_combine_l in Hin.
      rewrite Forall_forall in Hbars. apply Hbars, Hin. }
    pose proof (fold_left_inv_in (fun acc => Forall (beat_fields_ok a J) (fst acc))
                  (fun x => bar_ok a (fst x)) (bar_step g rng structure) xs ([], st0)
                  (Forall_nil _) Hxs
                  (fun acc x Hx Hacc => bar_step_fields g rng structure acc x Hr Hx Hacc)) as G1.
    assert (G2 : state_tmpl_ok st ->
                 Forall lane_ok (fst (fold_left (bar_step g rng structure) xs ([], st0))))
      by (intro Hst; exact (proj1 (bar_loop_lanes_ok g rng structure xs ([], st0)
                                     (Forall_nil _) Hst))).
    destruct (fold_left (bar_step g rng structure) xs ([], st0)) as [beatmap st1].
    cbn [fst] in G1, G2.
    pose proof (postProcessWithHolds_fields a J g rng beatmap (rnd st1) G1) as G3.
    pose proof (fun Hst => postProcessWithHolds_lanes_ok g rng beatmap (rnd st1) (G2 Hst)) as G4.
    destruct (postProcessWithHolds g rng beatmap (rnd st1)) as [bm1 r1]. cbn [fst] in G3, G4.
    injection H as <- <-. split.
    + apply Forall_perm_sort, G3.
    + intro Hst. apply Forall_perm_sort, G4, Hst.
Qed.

(** Witness: a song of duration 0, the sample song, and the sample
    random stream. *)
Lemma generateBeatmap_degenerate_witness :
  (forall m, 0 <= sample_rng m < 1) /\
  (exists st', generateBeatmap 1 (newBeatmapGenerator (mkAnalysis 120 [] 0 []) sample_settings)
                 initialState sample_rng = Some ([], st')) /\
  (exists fuel res, generateBeatmap fuel sample_generator initialState sample_rng = Some res) /\
  exists bm st', generateBeatmap 10 sample_generator initialState sample_rng = Some (bm, st') /\
    Forall (beat_fields_ok (audioAnalysis sample_generator)
              (Qabs (rhythmicVariance (morphConfig sample_generator)) / 2000)) bm /\
    Forall lane_ok bm.
Proof.
  split; [exact sample_rng_range|]. split; [|split].
  - apply (proj1 (generateBeatmap_degenerate
                    (newBeatmapGenerator (mkAnalysis 120 [] 0 []) sample_settings)
                    initialState sample_rng sample_rng_range)); [apply Qle_refl|lia].
  - apply (proj1 (proj2 (generateBeatmap_degenerate sample_generator initialState sample_rng
                           sample_rng_range))).
    vm_compute. discriminate.
  - eexists. eexists. split; [vm_compute; reflexivity|].
    pose proof (proj2 (proj2 (generateBeatmap_degenerate sample_generator initialState sample_rng
                               sample_rng_range)) 10%nat) as G.
    split; [apply (proj1 (G _ _ ltac:(vm_compute; reflexivity)))|].
    apply (proj2 (G _ _ ltac:(vm_compute; reflexivity))). exact I.
Defined.
